(** * Verification of @edge/utils: XE wallet helpers and proof-of-work identities

    A shallow embedding of [src/lib/WalletUtils/wallet.js] and of the identity
    engine (identity.js: [mineSignature], [calculateDifficulty], [Identity],
    [generateIdentity], [verifyIdentity]), whose text is kept in
    [src/lib/IdentityLib/identity.d.ts] after the type declarations.

    Definitions:
    - [JsNumber], [Difficulty] : numbers as IEEE-754 binary64 values and
      the difficulty schedule;
    - [JsString], [JsValue] : the string built-ins the sources call and the
      values [verifyIdentity] can be handed;
    - [Wallet] : wallet.js, over the libraries it imports ([CryptoLib]);
    - [IdentityLib] : identity.js, over a [Runtime];
    - [Amounts] : the XE amounts of wallet.js ([xeStringFromMicroXe],
      [toMicroXe], [formatXe]);
    - [IdentityObject] : the other methods of [Identity]
      ([getPublicIdentity], [getPrivateKey], [toJSON]);
    - [Contracts] : what the libraries hand back;
    - [Keccak], [Sha256], [Reference], [Samples] : executable hashes and
      one concrete runtime, used to evaluate the code on concrete inputs.

    Proofs: [DifficultyProofs], [NumberFacts], [StringFacts],
    [WalletProofs], [VerifyProofs], [AddChallengeProofs], [WalletLaws],
    [HostFacts], [IdentityLaws], [DigitFacts], [AmountFacts],
    [DifficultyRange]. *)

From Stdlib Require Import ZArith Lia Bool List Ascii String.
From Stdlib Require Import DecimalString DecimalN.
From Stdlib Require Import Floats.SpecFloat.
From stdpp Require Import base option list gmap strings.

Open Scope Z_scope.

(* ===================================================================== *)
(** * JavaScript numbers *)
(* ===================================================================== *)

Module JsNumber.

(** A JS number is a binary64 value; [spec_float] is the Standard Library's
    executable IEEE-754 specification (no NaN payloads, as in JS). *)
Definition number : Type := spec_float.

Definition prec : Z := 53.
Definition emax : Z := 1024.

(** The number an integer literal or an integer-valued counter denotes
    (rounded to nearest even when it needs more than 53 bits). *)
Definition of_Z (z : Z) : number := binary_normalize prec emax z 0 false.
Definition of_nat (n : nat) : number := of_Z (Z.of_nat n).

Definition NaN : number := S754_nan.
Definition Infinity : number := S754_infinity false.

(** [x * y] and [x + y]. *)
Definition mul : number -> number -> number := SFmul prec emax.
Definition add : number -> number -> number := SFadd prec emax.

(** The literal [0.4]: the double nearest to 2/5 is
    [7205759403792794 * 2^-54] (0x3FD999999999999A). *)
Definition lit_0_4 : number := S754_finite false 7205759403792794 (-54).

(** Signed mantissa and exponent of a finite value. *)
Definition mant (x : number) : Z :=
  match x with
  | S754_finite s m _ => cond_Zopp s (Zpos m)
  | _ => 0
  end.

Definition expo (x : number) : Z :=
  match x with
  | S754_finite _ _ e => e
  | _ => 0
  end.

(** Numeric comparison: compares the reals two numbers denote, whatever
    the mantissa/exponent pair that represents them; [None] when a NaN is
    involved.  [+0] and [-0] compare equal. *)
Definition compare (x y : number) : option comparison :=
  match x, y with
  | S754_nan, _ | _, S754_nan => None
  | S754_infinity s1, S754_infinity s2 =>
      Some (match s1, s2 with
            | true, false => Lt
            | false, true => Gt
            | _, _ => Eq
            end)
  | S754_infinity s, _ => Some (if s then Lt else Gt)
  | _, S754_infinity s => Some (if s then Gt else Lt)
  | _, _ =>
      let e0 := Z.min (expo x) (expo y) in
      Some (Z.compare (mant x * 2 ^ (expo x - e0)) (mant y * 2 ^ (expo y - e0)))
  end.

(** [x < y], [x === y] on numbers. *)
Definition ltb (x y : number) : bool :=
  match compare x y with Some Lt => true | _ => false end.
Definition eqb (x y : number) : bool :=
  match compare x y with Some Eq => true | _ => false end.
Definition geb (x y : number) : bool :=
  match compare x y with Some (Gt | Eq) => true | _ => false end.

Definition is_zero (x : number) : bool :=
  match x with S754_zero _ => true | _ => false end.
Definition is_nan (x : number) : bool :=
  match x with S754_nan => true | _ => false end.
Definition is_neg_zero (x : number) : bool :=
  match x with S754_zero true => true | _ => false end.

(** [Math.floor]. *)
Definition Math_floor (x : number) : number :=
  match x with
  | S754_finite s m e =>
      if 0 <=? e then x
      else match cond_Zopp s (Zpos m) / 2 ^ (- e) with
           | 0 => S754_zero s
           | q => of_Z q
           end
  | _ => x
  end.

(** [Math.max] and [Math.min] of two arguments: NaN if either is NaN,
    [+0] is larger than [-0]. *)
Definition Math_max (a b : number) : number :=
  match compare a b with
  | None => NaN
  | Some Lt => b
  | Some Gt => a
  | Some Eq => if is_neg_zero a then b else a
  end.

Definition Math_min (a b : number) : number :=
  match compare a b with
  | None => NaN
  | Some Lt => a
  | Some Gt => b
  | Some Eq => if is_neg_zero a then a else b
  end.

End JsNumber.

(* ===================================================================== *)
(** * The difficulty schedule (identity.js, [calculateDifficulty]) *)
(* ===================================================================== *)

Module Difficulty.
Import JsNumber.

(** identity.d.ts, lines 146-149:
    <<
    function calculateDifficulty(challenge) {
      const value = 2 + Math.floor(challenge * 0.4)
      return Math.min(Math.max(value, 2), 4)
    }
    >> *)
Definition calculateDifficulty (challenge : number) : number :=
  let value := add (of_Z 2) (Math_floor (mul challenge lit_0_4)) in
  Math_min (Math_max value (of_Z 2)) (of_Z 4).

(** The schedule in integer arithmetic, as section 4.1 of the specification
    words it: [min(4, max(2, 2 + (i*2)/5))]. *)
Definition difficulty_spec (i : Z) : Z := Z.min 4 (Z.max 2 (2 + (i * 2) / 5)).

(** The schedule on loop counters, read back as a natural number
    (the argument of ['0'.repeat]). *)
Definition to_count (x : number) : nat :=
  match x with
  | S754_finite false m e =>
      if 0 <=? e then Z.to_nat (Zpos m * 2 ^ e) else Z.to_nat (Zpos m / 2 ^ (- e))
  | _ => O
  end.

Definition difficulty (i : nat) : nat := to_count (calculateDifficulty (of_nat i)).

(** [at_least k x]: the number [x] is positive and denotes a real that is
    at least the integer [k] ([Infinity] included). *)
Definition at_least (k : Z) (x : number) : Prop :=
  match x with
  | S754_infinity false => True
  | S754_finite false m e => k * 2 ^ Z.max 0 (- e) <= Zpos m * 2 ^ Z.max 0 e
  | _ => False
  end.

End Difficulty.

(* ===================================================================== *)
(** * JavaScript strings *)
(* ===================================================================== *)

(** Strings are sequences of code units; the model keeps the 8-bit code
    units (every string the wallet and the identity engine build or accept
    as an address, a signature or a hash is ASCII).  [toUpperCase] and
    [toLowerCase] are modelled on ASCII text, where they map the letters
    [a-z] and [A-Z] and nothing else; outside of it JS case mapping is
    not character by character (the upper case of U+00DF is [SS]), and a
    statement about case that ranges over more than the address pattern
    asks for [is_ascii] characters. *)
Module JsString.
Open Scope string_scope.

Definition code (c : ascii) : nat := nat_of_ascii c.

Definition is_ascii (c : ascii) : bool := (code c <? 128)%nat.

Definition is_upper (c : ascii) : bool := (65 <=? code c)%nat && (code c <=? 90)%nat.
Definition is_lower (c : ascii) : bool := (97 <=? code c)%nat && (code c <=? 122)%nat.
Definition is_digit (c : ascii) : bool := (48 <=? code c)%nat && (code c <=? 57)%nat.
Definition is_alpha (c : ascii) : bool := is_upper c || is_lower c.

Definition lower_char (c : ascii) : ascii :=
  if is_upper c then ascii_of_nat (code c + 32) else c.
Definition upper_char (c : ascii) : ascii :=
  if is_lower c then ascii_of_nat (code c - 32) else c.
Definition flip_char (c : ascii) : ascii :=
  if is_upper c then lower_char c else upper_char c.

Fixpoint map_chars (f : ascii -> ascii) (s : string) : string :=
  match s with
  | EmptyString => EmptyString
  | String c s' => String (f c) (map_chars f s')
  end.

(** [s.toLowerCase()], [s.toUpperCase()]. *)
Definition toLowerCase : string -> string := map_chars lower_char.
Definition toUpperCase : string -> string := map_chars upper_char.

(** [s.slice(n)] for a literal [n >= 0]. *)
Fixpoint slice_from (n : nat) (s : string) : string :=
  match n, s with
  | O, _ => s
  | S n', EmptyString => EmptyString
  | S n', String _ s' => slice_from n' s'
  end.

(** [s.slice(a, b)] for literals [0 <= a <= b]. *)
Definition slice (a b : nat) (s : string) : string := substring a (b - a) s.

(** [s[i]]: [None] stands for [undefined]. *)
Definition char_at (s : string) (i : nat) : option ascii := String.get i s.

(** [s.startsWith(t)]. *)
Definition startsWith (s t : string) : bool := String.prefix t s.

(** [c.repeat(n)] for a one-character string. *)
Fixpoint repeat (c : ascii) (n : nat) : string :=
  match n with
  | O => EmptyString
  | S n' => String c (repeat c n')
  end.

(** [s.padStart(2, '0')]. *)
Definition padStart2 (s : string) : string :=
  match String.length s with
  | O => "00"
  | S O => String "0" s
  | _ => s
  end.

(** The value of a hexadecimal digit. *)
Definition hex_digit (c : ascii) : option nat :=
  if is_digit c then Some (code c - 48)%nat
  else if (97 <=? code c)%nat && (code c <=? 102)%nat then Some (code c - 87)%nat
  else if (65 <=? code c)%nat && (code c <=? 70)%nat then Some (code c - 55)%nat
  else None.

Definition is_hex (c : ascii) : bool :=
  match hex_digit c with Some _ => true | None => false end.

(** Lowercase hexadecimal digit of a value below 16. *)
Definition hex_char (n : nat) : ascii :=
  if (n <? 10)%nat then ascii_of_nat (48 + n) else ascii_of_nat (87 + n).

(** [n.toString(16)] for a non-negative integer. *)
Fixpoint hex_of_nat_fuel (fuel n : nat) (acc : string) : string :=
  match fuel with
  | O => acc
  | S fuel' =>
      let acc' := String (hex_char (n mod 16)) acc in
      if (n <? 16)%nat then acc' else hex_of_nat_fuel fuel' (n / 16) acc'
  end.
Definition hex_of_nat (n : nat) : string := hex_of_nat_fuel (S n) n EmptyString.

(** White space [parseInt] skips (the 8-bit part of it). *)
Definition is_space (c : ascii) : bool :=
  let n := code c in
  (n =? 9)%nat || (n =? 10)%nat || (n =? 11)%nat || (n =? 12)%nat || (n =? 13)%nat
  || (n =? 32)%nat || (n =? 160)%nat.

Fixpoint skip_spaces (s : string) : string :=
  match s with
  | String c s' => if is_space c then skip_spaces s' else s
  | EmptyString => s
  end.

(** The value of the longest prefix of hexadecimal digits, [None] when
    the string starts with none. *)
Fixpoint hex_prefix (s : string) (acc : option Z) : option Z :=
  match s with
  | String c s' =>
      match hex_digit c with
      | Some d => hex_prefix s' (Some (match acc with Some a => a * 16 | None => 0 end
                                       + Z.of_nat d)%Z)
      | None => acc
      end
  | EmptyString => acc
  end.

(** [parseInt(s, 16)]; [None] stands for [NaN].  (The sign of a parsed
    zero is not tracked.) *)
Definition parseInt16 (s : string) : option Z :=
  let s1 := skip_spaces s in
  let '(neg, s2) :=
    match s1 with
    | String "-" r => (true, r)
    | String "+" r => (false, r)
    | _ => (false, s1)
    end in
  let s3 :=
    match s2 with
    | String "0" (String "x" r) => r
    | String "0" (String "X" r) => r
    | _ => s2
    end in
  match hex_prefix s3 None with
  | Some v => Some (if neg then (- v)%Z else v)
  | None => None
  end.

(** [String(n)] for a non-negative integer: its decimal digits. *)
Definition decimal_N (n : N) : string := NilEmpty.string_of_uint (N.to_uint n).
Definition decimal (n : nat) : string := decimal_N (N.of_nat n).

(** Bytes as lowercase hexadecimal text ([Buffer.toString('hex')]). *)
Definition hex_of_byte (b : Z) : string :=
  String (hex_char (Z.to_nat (b / 16))) (String (hex_char (Z.to_nat (b mod 16))) EmptyString).

Fixpoint hex_of_bytes (bs : list Z) : string :=
  match bs with
  | nil => EmptyString
  | b :: bs' => hex_of_byte b ++ hex_of_bytes bs'
  end.

(** UTF-8 bytes of a string of 8-bit code units. *)
Fixpoint utf8 (s : string) : list Z :=
  match s with
  | EmptyString => nil
  | String c s' =>
      let n := Z.of_nat (code c) in
      if (n <? 128)%Z then n :: utf8 s'
      else (192 + n / 64)%Z :: (128 + n mod 64)%Z :: utf8 s'
  end.

End JsString.

(* ===================================================================== *)
(** * JavaScript values *)
(* ===================================================================== *)

(** The data [verifyIdentity] can be handed: what [JSON.parse] builds,
    plus [undefined] and the non-finite numbers.  Values are trees (two
    parts of an input never share an object); functions, symbols and
    accessor properties are outside the model. *)
Module JsValue.
Import JsNumber JsString.
Open Scope string_scope.

#[local] Unset Elimination Schemes.
Inductive value : Type :=
| JUndefined
| JNull
| JBool (b : bool)
| JNum (x : number)
| JStr (s : string)
| JArr (elems : list value)
| JObj (props : list (string * value)).
#[local] Set Elimination Schemes.

(** The built-in conversions between numbers and text
    ([Number::toString], [StringToNumber]), taken from the host. *)
Class Builtins : Type := {
  number_to_string : number -> string;
  string_to_number : string -> number
}.

(** [obj[key]] on a plain object: the first binding of [key], else
    [undefined]. *)
Fixpoint lookup (key : string) (props : list (string * value)) : value :=
  match props with
  | nil => JUndefined
  | (k, v) :: rest => if String.eqb k key then v else lookup key rest
  end.

(** Truthiness ([!v] is its negation). *)
Definition to_boolean (v : value) : bool :=
  match v with
  | JUndefined | JNull => false
  | JBool b => b
  | JNum x => negb (is_zero x || is_nan x)
  | JStr s => negb (String.eqb s EmptyString)
  | JArr _ | JObj _ => true
  end.

(** Property reads; [None] is the TypeError of reading a property of
    [undefined] or [null].  [get_named] serves the names [address],
    [timestamp], [s] and [c], which no built-in prototype defines. *)
Definition get_named (v : value) (name : string) : option value :=
  match v with
  | JUndefined | JNull => None
  | JObj props => Some (lookup name props)
  | _ => Some JUndefined
  end.

Definition get_length (v : value) : option value :=
  match v with
  | JUndefined | JNull => None
  | JObj props => Some (lookup "length" props)
  | JArr elems => Some (JNum (of_nat (List.length elems)))
  | JStr s => Some (JNum (of_nat (String.length s)))
  | _ => Some JUndefined
  end.

Definition get_index (v : value) (i : nat) : option value :=
  match v with
  | JUndefined | JNull => None
  | JObj props => Some (lookup (decimal i) props)
  | JArr elems => Some (nth i elems JUndefined)
  | JStr s =>
      Some (match char_at s i with
            | Some ch => JStr (String ch EmptyString)
            | None => JUndefined
            end)
  | _ => Some JUndefined
  end.

(** [key] is an own property of a plain object. *)
Definition has_own (key : string) (props : list (string * value)) : bool :=
  existsb (fun kv => String.eqb (fst kv) key) props.

Section WithBuiltins.
Context `{bi : Builtins}.

(** [String(v)], as template literals and [+] on a string apply it;
    [None] is a TypeError.  A plain object prints as [[object Object]]
    through [Object.prototype.toString], unless an own property named
    [toString] hides that method: no value of the model is callable, and
    [Object.prototype.valueOf] hands the object back, so the conversion
    then finds no primitive.  An array joins the texts of its elements. *)
Fixpoint to_string (v : value) : option string :=
  match v with
  | JUndefined => Some "undefined"
  | JNull => Some "null"
  | JBool true => Some "true"
  | JBool false => Some "false"
  | JNum x => Some (number_to_string x)
  | JStr s => Some s
  | JArr elems =>
      (fix join (l : list value) : option string :=
         match l with
         | nil => Some EmptyString
         | x :: rest =>
             let item := match x with
                         | JUndefined | JNull => Some EmptyString
                         | _ => to_string x
                         end in
             match item, rest with
             | None, _ => None
             | Some text, nil => Some text
             | Some text, _ =>
                 match join rest with
                 | Some texts => Some (text ++ "," ++ texts)
                 | None => None
                 end
             end
         end) elems
  | JObj props => if has_own "toString" props then None else Some "[object Object]"
  end.

(** [Number(v)], as [<] applies it to a non-number: an array or object
    goes through its text. *)
Definition to_number (v : value) : option number :=
  match v with
  | JUndefined => Some NaN
  | JNull => Some (of_Z 0)
  | JBool true => Some (of_Z 1)
  | JBool false => Some (of_Z 0)
  | JNum x => Some x
  | JStr s => Some (string_to_number s)
  | JArr _ | JObj _ =>
      match to_string v with
      | Some text => Some (string_to_number text)
      | None => None
      end
  end.

End WithBuiltins.

(** [a === b].  Two arrays or objects read from different places of a
    tree are different objects. *)
Definition strict_eq (a b : value) : bool :=
  match a, b with
  | JUndefined, JUndefined => true
  | JNull, JNull => true
  | JBool x, JBool y => Bool.eqb x y
  | JNum x, JNum y => JsNumber.eqb x y
  | JStr x, JStr y => String.eqb x y
  | _, _ => false
  end.

End JsValue.
(* ===================================================================== *)
(** * wallet.js *)
(* ===================================================================== *)

Module Wallet.
Import JsString JsValue.
Open Scope string_scope.

(** What [ec.sign] hands back, as [generateSignature] reads it:
    [r.toString('hex', 32)], [s.toString('hex', 32)] and [recoveryParam]
    ([None] when it is not a number). *)
Record SignatureObj : Type := {
  sig_r : string;
  sig_s : string;
  recoveryParam : option nat
}.

(** The external libraries the wallet calls: js-sha3, crypto-js and
    elliptic's secp256k1.  A digest travels as its hexadecimal text (the
    source turns it into bytes with [elliptic.utils.toArray] right before
    the call); [None] is a thrown exception. *)
Class CryptoLib : Type := {
  keccak256 : string -> string;
  SHA256 : string -> string;
  (** [ec.keyFromPrivate(k).getPublic(true, 'hex')] *)
  ec_getPublic : string -> option string;
  (** [ec.sign(digest, ec.keyFromPrivate(k), 'hex', { canonical: true })] *)
  ec_sign : string -> string -> option SignatureObj;
  (** [ec.recoverPubKey(digest, { r, s }, recoveryParam, 'hex').encode('hex', true)] *)
  ec_recoverPubKey : string -> string -> string -> option Z -> option string
}.

Record WalletRecord : Type := {
  privateKey : string;
  publicKey : string;
  address : string
}.

Section WithLib.
Context `{lib : CryptoLib}.

(** [addrHash[i]] as [parseInt] reads it: the character, or the text of
    [undefined] past the end. *)
Definition index_text (s : string) (i : nat) : string :=
  match char_at s i with
  | Some c => String c EmptyString
  | None => "undefined"
  end.

(** [parseInt(addrHash[i], 16) >= 8] *)
Definition nibble_ge_8 (addrHash : string) (i : nat) : bool :=
  match parseInt16 (index_text addrHash i) with
  | Some v => (8 <=? v)%Z
  | None => false
  end.

(** The loop of [generateChecksumAddress] (wallet.js, lines 42-45), from
    index [i] on:
    <<
    for (let i = 0; i < addr.length; i++) {
      if (parseInt(addrHash[i], 16) >= 8) chkAddr += addr[i].toUpperCase()
      else chkAddr += addr[i]
    }
    >> *)
Fixpoint checksum_loop (addrHash : string) (i : nat) (addr : string) : string :=
  match addr with
  | EmptyString => EmptyString
  | String c rest =>
      String (if nibble_ge_8 addrHash i then upper_char c else c)
             (checksum_loop addrHash (S i) rest)
  end.

(** wallet.js, lines 37-48. *)
Definition generateChecksumAddress (address : string) : string :=
  let addr := slice_from 3 address in
  let addrHash := keccak256 (toLowerCase addr) in
  "xe_" ++ checksum_loop addrHash 0 addr.

Fixpoint all_chars (p : ascii -> bool) (s : string) : bool :=
  match s with
  | EmptyString => true
  | String c s' => p c && all_chars p s'
  end.

(** [/^(xe_[a-fA-F0-9]{40})$/.test(address)] *)
Definition address_regex (address : string) : bool :=
  match address with
  | String "x" (String "e" (String "_" body)) =>
      (String.length body =? 40)%nat && all_chars is_hex body
  | _ => false
  end.

(** wallet.js, lines 55-59. *)
Definition checksumAddressIsValid (address : string) : bool :=
  if negb (address_regex address) then false
  else if negb (String.eqb address (generateChecksumAddress address)) then false
  else true.

(** wallet.js, lines 78-82. *)
Definition publicKeyToChecksumAddress (publicKey : string) : string :=
  let hash := keccak256 publicKey in
  let addr := "xe_" ++ slice (String.length hash - 40) (String.length hash) hash in
  generateChecksumAddress addr.

Definition privateKeyToPublicKey (privateKey : string) : option string :=
  ec_getPublic privateKey.

Definition privateKeyToChecksumAddress (privateKey : string) : option string :=
  match privateKeyToPublicKey privateKey with
  | Some publicKey => Some (publicKeyToChecksumAddress publicKey)
  | None => None
  end.

(** [restoreWalletFromPrivateKey]; [generateWallet] is the same record
    for the key [ec.genKeyPair()] draws. *)
Definition restoreWalletFromPrivateKey (privateKey : string) : option WalletRecord :=
  match ec_getPublic privateKey with
  | Some publicKey =>
      Some {| privateKey := privateKey;
              publicKey := publicKey;
              address := publicKeyToChecksumAddress publicKey |}
  | None => None
  end.

(** wallet.js, lines 147-157. *)
Definition generateSignature (privateKey msg : string) : option string :=
  let msgHash := SHA256 msg in
  match ec_sign msgHash privateKey with
  | Some signatureObj =>
      let r := sig_r signatureObj in
      let s := sig_s signatureObj in
      let i := match recoveryParam signatureObj with
               | Some v => padStart2 (hex_of_nat v)
               | None => EmptyString
               end in
      Some (r ++ s ++ i)
  | None => None
  end.

(** wallet.js, lines 178-185. *)
Definition recoverPublicKeyFromSignedMessage (msg signature : string) : option string :=
  let r := slice 0 64 signature in
  let s := slice 64 128 signature in
  let recoveryParam := parseInt16 (slice 128 130 signature) in
  let msgHash := SHA256 msg in
  ec_recoverPubKey msgHash r s recoveryParam.

(** wallet.js, lines 166-170.  [address] is whatever the caller passes;
    [===] compares it with the derived string. *)
Definition verifySignatureAddress (msg signature : string) (address : value)
  : option bool :=
  match recoverPublicKeyFromSignedMessage msg signature with
  | Some publicKey =>
      let derivedAddress := publicKeyToChecksumAddress publicKey in
      Some (strict_eq address (JStr derivedAddress))
  | None => None
  end.

(** wallet.js, lines 193-197. *)
Definition recoverAddressFromSignedMessage (msg signature : string) : option string :=
  match recoverPublicKeyFromSignedMessage msg signature with
  | Some publicKey => Some (publicKeyToChecksumAddress publicKey)
  | None => None
  end.

(** The checksum as section 4.3 of the specification words it: position
    [j] is upper-cased iff the [j]-th digit of the hash is at least 8,
    and lower-cased otherwise. *)
Fixpoint checksum_spec_loop (addrHash : string) (i : nat) (addr : string) : string :=
  match addr with
  | EmptyString => EmptyString
  | String c rest =>
      String (if nibble_ge_8 addrHash i then upper_char c else lower_char c)
             (checksum_spec_loop addrHash (S i) rest)
  end.

Definition checksum_spec (address : string) : string :=
  let addr := slice_from 3 address in
  "xe_" ++ checksum_spec_loop (keccak256 (toLowerCase addr)) 0 addr.

(** The premise of the theorems about signing and recovery: a valid key
    signs every digest, [r] and [s] come back as 64 hexadecimal
    characters with a recovery parameter in [0..3], and recovery from
    them yields the signer's public key.  elliptic keeps it on the
    signatures whose [r] and [s] are both at least [2^128]; bn.js pads
    [toString('hex', 32)] to a multiple of 32 digits, so a smaller [r]
    or [s] comes back as 32 characters ([short_signature] below). *)
Definition sign_recover_contract : Prop :=
  forall k pk digest,
    ec_getPublic k = Some pk ->
    exists sg v,
      ec_sign digest k = Some sg /\
      String.length (sig_r sg) = 64%nat /\
      String.length (sig_s sg) = 64%nat /\
      recoveryParam sg = Some v /\ (v < 4)%nat /\
      ec_recoverPubKey digest (sig_r sg) (sig_s sg) (Some (Z.of_nat v)) = Some pk.



End WithLib.

(** Replace the character at index [i] of the 40-character body by its
    other-case form. *)
Fixpoint flip_at (i : nat) (s : string) : string :=
  match s, i with
  | EmptyString, _ => EmptyString
  | String c rest, O => String (flip_char c) rest
  | String c rest, S i' => String c (flip_at i' rest)
  end.

Definition flip_case_at (j : nat) (address : string) : string :=
  flip_at (3 + j) address.

End Wallet.
(* ===================================================================== *)
(** * identity.js *)
(* ===================================================================== *)

Module IdentityLib.
Import JsNumber JsString JsValue Wallet Difficulty.
Open Scope string_scope.

(** Everything the identity engine takes from outside the repository:
    the wallet's libraries, the host's number/text conversions and
    [argon2.hash] with the options [argon2idHash] fixes (64 MiB, 3
    passes, 1 lane, 32 raw bytes); [None] is a rejected promise.  The
    input of [argon2.hash] is whatever value the caller holds: a string
    everywhere, except in [addChallenge] on an array [s] whose last
    element is none. *)
Class Runtime : Type := {
  runtime_crypto :: CryptoLib;
  runtime_builtins :: Builtins;
  argon2_hash : value -> string -> option (list Z)
}.

(** How a call ends: a returned boolean, a thrown exception, or (in the
    model only) a loop cut short by its step budget. *)
Inductive completion : Type :=
| Returned (b : bool)
| Thrown
| OutOfSteps.

(** The promise an [async] function hands back, once settled. *)
Inductive promise : Type :=
| Resolved (b : bool)
| Rejected
| Pending.

Inductive mined : Type :=
| Mined (signature : string) (solution : nat)
| MineFailed
| MineUnfinished.

(** The public, serialisable part of an identity ([getPublicIdentity]). *)
Record PublicIdentity : Type := {
  pi_address : string;
  pi_timestamp : number;
  pi_s : list string;
  pi_c : list number
}.

Definition to_value (p : PublicIdentity) : value :=
  JObj [ ("address", JStr (pi_address p));
         ("timestamp", JNum (pi_timestamp p));
         ("s", JArr (map JStr (pi_s p)));
         ("c", JArr (map JNum (pi_c p))) ].

(** Tampering with one field of a public identity. *)
Definition set_address (p : PublicIdentity) (a : string) : PublicIdentity :=
  {| pi_address := a; pi_timestamp := pi_timestamp p; pi_s := pi_s p; pi_c := pi_c p |}.

Definition set_timestamp (p : PublicIdentity) (t : number) : PublicIdentity :=
  {| pi_address := pi_address p; pi_timestamp := t; pi_s := pi_s p; pi_c := pi_c p |}.

Definition set_signature (p : PublicIdentity) (j : nat) (sig : string) : PublicIdentity :=
  {| pi_address := pi_address p; pi_timestamp := pi_timestamp p;
     pi_s := <[j := sig]> (pi_s p); pi_c := pi_c p |}.

(** JS arrays hold fewer than [2^32] elements. *)
Definition array_sized (p : PublicIdentity) : Prop :=
  (Z.of_nat (List.length (pi_s p)) < 2 ^ 32)%Z /\ (Z.of_nat (List.length (pi_c p)) < 2 ^ 32)%Z.

(** An upper bound on the indices at which [s[i]] can be a string. *)
Definition steps_bound (s : value) : nat :=
  match s with
  | JArr elems => List.length elems
  | JStr str => String.length str
  | JObj props => List.length props
  | _ => O
  end.

Section WithRuntime.
Context `{rt : Runtime}.

(** identity.d.ts, lines 99-109. *)
Definition argon2idHash (input : value) (salt : string) : option (list Z) :=
  argon2_hash input salt.

(** The [while (true)] loop of [mineSignature] (identity.d.ts, lines
    128-138), [fuel] attempts long.  The counter is a natural number
    here and a double in the source, which counts exactly up to [2^53]:
    the theorems on mining keep [fuel] within that bound. *)
Fixpoint mine_loop (fuel : nat) (privateKey seedHex target : string) (solution : nat)
  : mined :=
  match fuel with
  | O => MineUnfinished
  | S fuel' =>
      let signatureInput := seedHex ++ decimal solution in
      match generateSignature privateKey signatureInput with
      | None => MineFailed
      | Some signature =>
          if startsWith signature target then Mined signature solution
          else mine_loop fuel' privateKey seedHex target (S solution)
      end
  end.

(** identity.d.ts, lines 120-139. *)
Definition mineSignature (fuel : nat) (privateKey : string) (message : value)
           (difficulty challenge : nat) : mined :=
  let target := JsString.repeat "0" difficulty in
  let salt := "xe-challenge-" ++ decimal challenge in
  match argon2idHash message salt with
  | None => MineFailed
  | Some seed =>
      let seedHex := hex_of_bytes seed in
      mine_loop fuel privateKey seedHex target 0
  end.

(** The message link [i] signs, from what [verifyIdentity] holds:
    [i === 0 ? `${address}:${timestamp}` : s[i - 1]]; [None] is a
    TypeError. *)
Definition link_message (address timestamp s : value) (i : nat) : option value :=
  match i with
  | O =>
      match to_string address, to_string timestamp with
      | Some a, Some t => Some (JStr (a ++ ":" ++ t))
      | _, _ => None
      end
  | S j => get_index s j
  end.

(** The [for] loop of [verifyIdentity] (identity.d.ts, lines 256-280), from
    index [i] on.  A [signature] that is not a string has no [startsWith]
    to call. *)
Fixpoint verify_loop (fuel : nat) (address timestamp s c challenges : value) (i : nat)
  : completion :=
  match fuel with
  | O => OutOfSteps
  | S fuel' =>
      match to_number challenges with
      | None => Thrown
      | Some bound =>
          if negb (JsNumber.ltb (of_nat i) bound) then Returned true
          else
            match get_index s i, get_index c i with
            | Some (JStr signature), Some solution =>
                let target := JsString.repeat "0" (difficulty i) in
                if negb (startsWith signature target) then Returned false
                else
                  match link_message address timestamp s i with
                  | None => Thrown
                  | Some message =>
                      let salt := "xe-challenge-" ++ decimal i in
                      match argon2idHash message salt with
                      | None => Thrown
                      | Some seed =>
                          let seedHex := hex_of_bytes seed in
                          match to_string solution with
                          | None => Thrown
                          | Some text =>
                              let signatureInput := seedHex ++ text in
                              match verifySignatureAddress signatureInput signature
                                                           address with
                              | None => Thrown
                              | Some false => Returned false
                              | Some true =>
                                  verify_loop fuel' address timestamp s c challenges (S i)
                              end
                          end
                      end
                  end
            | _, _ => Thrown
            end
      end
  end.

(** The body of the [try] block (identity.d.ts, lines 249-282):
    <<
    const { address, timestamp, s, c } = identity
    const challenges = s.length
    if (!s || !c || !timestamp || s.length !== c.length || s.length === 0) {
      return false
    }
    for (let i = 0; i < challenges; i++) { ... }
    return true
    >>
    The loop gets [steps_bound s + 1] steps, which is enough
    ([VerifyProofs.verify_loop_finishes]). *)
Definition verify_body (identity : value) : completion :=
  match get_named identity "address", get_named identity "timestamp",
        get_named identity "s", get_named identity "c" with
  | Some address, Some timestamp, Some s, Some c =>
      match get_length s with
      | None => Thrown
      | Some challenges =>
          if negb (to_boolean s) then Returned false
          else if negb (to_boolean c) then Returned false
          else if negb (to_boolean timestamp) then Returned false
          else
            match get_length c with
            | None => Thrown
            | Some c_length =>
                if negb (strict_eq challenges c_length) then Returned false
                else if strict_eq challenges (JNum (of_Z 0)) then Returned false
                else verify_loop (S (steps_bound s)) address timestamp s c challenges 0
            end
      end
  | _, _, _, _ => Thrown
  end.

(** [try { ... } catch (error) { return false }] around the body of an
    [async] function. *)
Definition settle (body : completion) : promise :=
  match body with
  | Returned b => Resolved b
  | Thrown => Resolved false
  | OutOfSteps => Pending
  end.

Definition verifyIdentity (identity : value) : promise :=
  settle (verify_body identity).

(** *** What the loop checks, link by link

    For an identity with an array of strings [s] and an array of
    numbers [c], [link_check p i] is the test the loop body applies to
    link [i]: the zero prefix, then the signature check over the seed
    of the link's message and the text of [c[i]].  ([true] when the
    identity has no link [i].) *)
Definition link_check (p : PublicIdentity) (i : nat) : bool :=
  match pi_s p !! i, pi_c p !! i with
  | Some signature, Some solution =>
      startsWith signature (JsString.repeat "0" (difficulty i))
      && match match i with
               | O => Some (pi_address p ++ ":" ++ number_to_string (pi_timestamp p))
               | S j => pi_s p !! j
               end with
         | None => false
         | Some message =>
             match argon2idHash (JStr message) ("xe-challenge-" ++ decimal i) with
             | None => false
             | Some seed =>
                 match verifySignatureAddress
                         (hex_of_bytes seed ++ number_to_string solution)
                         signature (JStr (pi_address p)) with
                 | Some true => true
                 | _ => false
                 end
             end
         end
  | _, _ => true
  end.

Definition chain_valid (p : PublicIdentity) : bool :=
  to_boolean (JNum (pi_timestamp p))
  && (List.length (pi_s p) =? List.length (pi_c p))%nat
  && negb (List.length (pi_s p) =? 0)%nat
  && forallb (link_check p) (seq 0 (List.length (pi_s p))).

(** [generateIdentity] (identity.d.ts, lines 224-240): the key pair
    [generateWallet] draws and the clock reading are inputs; [fuel] bounds
    each mining loop. *)
Fixpoint generate_loop (fuel : nat) (privateKey address : string) (timestamp : number)
         (remaining i : nat) (s : list string) (c : list number)
  : option (list string * list number) :=
  match remaining with
  | O => Some (s, c)
  | S remaining' =>
      let message :=
        match i with
        | O => address ++ ":" ++ number_to_string timestamp
        | S _ => List.last s EmptyString
        end in
      match mineSignature fuel privateKey (JStr message) (difficulty i) i with
      | Mined signature solution =>
          generate_loop fuel privateKey address timestamp remaining' (S i)
                        (s ++ [signature]) (c ++ [of_nat solution])
      | _ => None
      end
  end.

Definition generateIdentity (fuel : nat) (privateKey : string) (timestamp : number)
           (challenges : nat) : option PublicIdentity :=
  match restoreWalletFromPrivateKey privateKey with
  | None => None
  | Some wallet =>
      match generate_loop fuel privateKey (address wallet) timestamp challenges 0 nil nil with
      | Some (s, c) =>
          Some {| pi_address := address wallet; pi_timestamp := timestamp;
                  pi_s := s; pi_c := c |}
      | None => None
      end
  end.

End WithRuntime.

(** ** The [Identity] object and its arrays *)

(** [this.s] and [this.c] are references to arrays; the constructor keeps
    whatever two arrays it is given, so they may be one array, and
    [Object.freeze] may have made either non-extensible. *)
Abbreviation loc := positive.

Record array_obj : Type := {
  elems : list value;
  extensible : bool
}.

Abbreviation heap := (gmap positive array_obj).

Record Identity : Type := {
  id_privateKey : string;
  id_address : string;
  id_timestamp : number;
  id_s : loc;
  id_c : loc
}.

(** [a.push(v)]: TypeError on an array that cannot be extended. *)
Definition array_push (h : heap) (a : loc) (v : value) : option heap :=
  match h !! a with
  | Some arr =>
      if extensible arr
      then Some (<[a := {| elems := elems arr ++ [v]; extensible := true |}]> h)
      else None
  | None => None
  end.

Definition array_length (h : heap) (a : loc) : nat :=
  match h !! a with
  | Some arr => List.length (elems arr)
  | None => O
  end.


(** How [addChallenge] ends, with the heap it leaves. *)
Inductive add_result : Type :=
| Completed (h : heap)
| Failed (h : heap)
| Unfinished.

Section AddChallenge.
Context `{rt : Runtime}.

(** identity.d.ts, lines 177-187:
    <<
    const nextIndex = this.s.length
    const difficulty = calculateDifficulty(nextIndex)
    const message = nextIndex === 0 ? `${this.address}:${this.timestamp}`
                                    : this.s[this.s.length - 1]
    const { signature, solution } = await mineSignature(...)
    this.s.push(signature)
    this.c.push(solution)
    return this
    >> *)
Definition addChallenge (fuel : nat) (this : Identity) (h : heap) : add_result :=
  match h !! id_s this with
  | None => Failed h
  | Some s_arr =>
      let nextIndex := List.length (elems s_arr) in
      let difficulty := difficulty nextIndex in
      let message :=
        match nextIndex with
        | O => JStr (id_address this ++ ":" ++ number_to_string (id_timestamp this))
        | S j => nth j (elems s_arr) JUndefined
        end in
      match mineSignature fuel (id_privateKey this) message difficulty nextIndex with
      | MineFailed => Failed h
      | MineUnfinished => Unfinished
      | Mined signature solution =>
          match array_push h (id_s this) (JStr signature) with
          | None => Failed h
          | Some h1 =>
              match array_push h1 (id_c this) (JNum (of_nat solution)) with
              | None => Failed h1
              | Some h2 => Completed h2
              end
          end
      end
  end.

End AddChallenge.

End IdentityLib.
(* ===================================================================== *)
(** * wallet.js: XE amounts *)
(* ===================================================================== *)

(** [xeStringFromMicroXe], [toMicroXe] and [formatXe] (wallet.js, lines
    109-139), with the string built-ins they call. *)
Module Amounts.
Import JsNumber JsString JsValue.
Open Scope string_scope.

(** [s.substr(start, length)] on integer arguments: a negative [start]
    counts from the end, and [length] is clamped to what is left. *)
Definition substr (start len : Z) (s : string) : string :=
  let size := Z.of_nat (String.length s) in
  let intStart := if (start <? 0)%Z then Z.max (size + start) 0 else Z.min start size in
  let intLength := Z.min (Z.max len 0) size in
  let intEnd := Z.min (intStart + intLength) size in
  substring (Z.to_nat intStart) (Z.to_nat (intEnd - intStart)) s.

(** [s.padStart(n, c)] and [s.padEnd(n, c)] for a one-character filler. *)
Definition padStart (n : nat) (c : ascii) (s : string) : string :=
  JsString.repeat c (n - String.length s) ++ s.

Definition padEnd (n : nat) (c : ascii) (s : string) : string :=
  s ++ JsString.repeat c (n - String.length s).

(** [s.split(c)] for a one-character separator: never empty, [[""]] on
    the empty string. *)
Fixpoint split (sep : ascii) (s : string) : list string :=
  match s with
  | EmptyString => [EmptyString]
  | String c rest =>
      if Ascii.eqb c sep then EmptyString :: split sep rest
      else match split sep rest with
           | piece :: pieces => String c piece :: pieces
           | nil => [String c EmptyString]
           end
  end.

(** The value of the longest prefix of decimal digits, [None] when the
    string starts with none. *)
Fixpoint dec_prefix (s : string) (acc : option Z) : option Z :=
  match s with
  | String c s' =>
      if is_digit c
      then dec_prefix s' (Some (match acc with Some a => a * 10 | None => 0 end
                                + Z.of_nat (code c - 48))%Z)
      else acc
  | EmptyString => acc
  end.

(** The integer a string of decimal digits spells ([0] for no digit). *)
Definition dec_value (s : string) : Z :=
  match dec_prefix s None with Some v => v | None => 0%Z end.

(** [parseInt(s)] with no radix: leading white space and one sign are
    skipped, [0x] or [0X] switches to base 16, the digits up to the
    first foreign character are read, and the integer is rounded to the
    nearest number (hosts may round a decimal text of more than 20
    digits otherwise); [NaN] when there is no digit, [-0] for a negated
    zero. *)
Definition parseInt (s : string) : number :=
  let s1 := skip_spaces s in
  let neg := match s1 with
             | String c _ => Ascii.eqb c "-"
             | EmptyString => false
             end in
  let s2 := match s1 with
            | String c r => if Ascii.eqb c "-" || Ascii.eqb c "+" then r else s1
            | EmptyString => s1
            end in
  let hex := match s2 with
             | String c1 (String c2 _) =>
                 Ascii.eqb c1 "0" && (Ascii.eqb c2 "x" || Ascii.eqb c2 "X")
             | _ => false
             end in
  let s3 := if hex then slice_from 2 s2 else s2 in
  match (if hex then hex_prefix s3 None else dec_prefix s3 None) with
  | None => NaN
  | Some 0%Z => S754_zero neg
  | Some v => of_Z (if neg then (- v)%Z else v)
  end.

(** [x.toLocaleString('en-US')], taken from the host's [Intl]. *)
Class Locale : Type := {
  toLocaleString_en_US : number -> string
}.

Section WithHost.
Context `{bi : Builtins} `{intl : Locale}.

(** wallet.js, lines 109-115:
    <<
    const s = mxe.toString()
    const fraction = s.substr(-6, 6).padStart(6, '0')
    let whole = s.substr(0, s.length - 6) || '0'
    if (format) whole = parseInt(whole).toLocaleString('en-US')
    return `${whole}.${fraction}`
    >> *)
Definition xeStringFromMicroXe (mxe : number) (format : bool) : string :=
  let s := number_to_string mxe in
  let fraction := padStart 6 "0" (substr (-6) 6 s) in
  let whole :=
    let w := substr 0 (Z.of_nat (String.length s) - 6) s in
    if String.eqb w EmptyString then "0" else w in
  let whole := if format then toLocaleString_en_US (parseInt whole) else whole in
  whole ++ "." ++ fraction.

(** wallet.js, lines 122-128; [None] is the TypeError of calling
    [split] on a value that has none:
    <<
    const s = typeof xe === 'number' ? xe.toString() : xe
    const parts = s.split('.')
    const whole = parts[0]
    const fraction = parts.length > 1 ? parts[1].padEnd(6, '0') : '000000'
    return parseInt(`${whole}${fraction}`)
    >> *)
Definition toMicroXe (xe : value) : option number :=
  let s := match xe with
           | JNum x => JStr (number_to_string x)
           | _ => xe
           end in
  match s with
  | JStr text =>
      let parts := split "." text in
      let whole := nth 0 parts EmptyString in
      let fraction :=
        if (1 <? List.length parts)%nat
        then padEnd 6 "0" (nth 1 parts EmptyString)
        else "000000" in
      Some (parseInt (whole ++ fraction))
  | _ => None
  end.

(** wallet.js, lines 136-139. *)
Definition formatXe (xe : value) (format : bool) : option string :=
  match toMicroXe xe with
  | Some mxe => Some (xeStringFromMicroXe mxe format)
  | None => None
  end.

(** What every host does on the integers a double holds exactly:
    [Number::toString] writes the decimal digits, with a minus sign
    before those of a negative one. *)
Definition prints_integers : Prop :=
  forall z : Z,
    (- 2 ^ 53 < z < 2 ^ 53)%Z ->
    number_to_string (of_Z z)
    = if (z <? 0)%Z then "-" ++ decimal_N (Z.to_N (- z)) else decimal_N (Z.to_N z).

End WithHost.

End Amounts.
(* ===================================================================== *)
(** * identity.js: the other methods of [Identity] *)
(* ===================================================================== *)

Module IdentityObject.
Import JsNumber JsString JsValue Wallet Difficulty IdentityLib.
Open Scope string_scope.

(** What [getPublicIdentity] returns: an object with the four public
    fields, [s] and [c] being arrays of its own. *)
Record PublicObject : Type := {
  po_address : string;
  po_timestamp : number;
  po_s : loc;
  po_c : loc
}.

(** [[...a]]: a new, extensible array with the elements of [a]; a
    TypeError when [a] is not an array. *)
Definition spread (h : heap) (a : loc) : option (loc * heap) :=
  match h !! a with
  | Some arr =>
      let l := fresh (dom h) in
      Some (l, <[l := {| elems := elems arr; extensible := true |}]> h)
  | None => None
  end.

(** identity.d.ts, lines 193-200:
    <<
    return {
      address: this.address,
      timestamp: this.timestamp,
      s: [...this.s],
      c: [...this.c]
    }
    >> *)
Definition getPublicIdentity (this : Identity) (h : heap) : option (PublicObject * heap) :=
  match spread h (id_s this) with
  | Some (s', h1) =>
      match spread h1 (id_c this) with
      | Some (c', h2) =>
          Some ({| po_address := id_address this;
                   po_timestamp := id_timestamp this;
                   po_s := s';
                   po_c := c' |}, h2)
      | None => None
      end
  | None => None
  end.

(** identity.d.ts, lines 206-208 and 214-216. *)
Definition getPrivateKey (this : Identity) : string := id_privateKey this.

Definition toJSON (this : Identity) (h : heap) : option (PublicObject * heap) :=
  getPublicIdentity this h.

(** What [verifyIdentity] reads of an object whose [s] and [c] are the
    arrays at [s] and [c]: the four fields, the arrays by their current
    elements. *)
Definition object_value (address : string) (timestamp : number) (s c : loc) (h : heap)
  : option value :=
  match h !! s, h !! c with
  | Some s_arr, Some c_arr =>
      Some (JObj [ ("address", JStr address);
                   ("timestamp", JNum timestamp);
                   ("s", JArr (elems s_arr));
                   ("c", JArr (elems c_arr)) ])
  | _, _ => None
  end.

Definition identity_value (this : Identity) (h : heap) : option value :=
  object_value (id_address this) (id_timestamp this) (id_s this) (id_c this) h.

Definition public_value (pub : PublicObject) (h : heap) : option value :=
  object_value (po_address pub) (po_timestamp pub) (po_s pub) (po_c pub) h.

(** The first [k] links of a public identity. *)
Definition first_links (k : nat) (p : PublicIdentity) : PublicIdentity :=
  {| pi_address := pi_address p; pi_timestamp := pi_timestamp p;
     pi_s := take k (pi_s p); pi_c := take k (pi_c p) |}.

(** One more link at the end of a public identity. *)
Definition add_link (p : PublicIdentity) (signature : string) (solution : number)
  : PublicIdentity :=
  {| pi_address := pi_address p; pi_timestamp := pi_timestamp p;
     pi_s := pi_s p ++ [signature]; pi_c := pi_c p ++ [solution] |}.

(** The arrays of an identity object hold the links of [p]. *)
Definition holds (this : Identity) (h : heap) (p : PublicIdentity) : Prop :=
  id_address this = pi_address p /\
  id_timestamp this = pi_timestamp p /\
  (exists es, h !! id_s this = Some {| elems := map JStr (pi_s p); extensible := es |}) /\
  (exists ec, h !! id_c this = Some {| elems := map JNum (pi_c p); extensible := ec |}).

End IdentityObject.
(* ===================================================================== *)
(** * What the libraries hand back *)
(* ===================================================================== *)

Module Contracts.
Import JsString Wallet.

(** A digest as js-sha3 prints it: 64 hexadecimal characters. *)
Definition digest_text (h : string) : Prop :=
  String.length h = 64%nat /\ all_chars is_hex h = true.

End Contracts.
(* ===================================================================== *)
(** * Keccak-256 (the [keccak256] of js-sha3) *)
(* ===================================================================== *)

(** js-sha3 is an external dependency.  The wallet is verified against any
    [keccak256] (see [Wallet]); this executable reference, the Keccak
    team's original padding and a 1088-bit rate, lets the development
    evaluate the wallet on concrete addresses. *)
Module Keccak.

Definition mask64 : Z := 2 ^ 64 - 1.

Definition rotl64 (v : Z) (n : Z) : Z :=
  Z.land (Z.lor (Z.shiftl v n) (Z.shiftr v (64 - n))) mask64.

Definition lane (st : list Z) (x y : nat) : Z := nth (x mod 5 + 5 * y) st 0.

Definition round_constants : list Z :=
  [ 0x0000000000000001; 0x0000000000008082; 0x800000000000808A;
    0x8000000080008000; 0x000000000000808B; 0x0000000080000001;
    0x8000000080008081; 0x8000000000008009; 0x000000000000008A;
    0x0000000000000088; 0x0000000080008009; 0x000000008000000A;
    0x000000008000808B; 0x800000000000008B; 0x8000000000008089;
    0x8000000000008003; 0x8000000000008002; 0x8000000000000080;
    0x000000000000800A; 0x800000008000000A; 0x8000000080008081;
    0x8000000000008080; 0x0000000080000001; 0x8000000080008008 ].

(** Rotation offsets, indexed [x + 5 * y]. *)
Definition rotation_offsets : list Z :=
  [ 0; 1; 62; 28; 27;
    36; 44; 6; 55; 20;
    3; 10; 43; 25; 39;
    41; 45; 15; 21; 8;
    18; 2; 61; 56; 14 ].

Definition positions : list (nat * nat) :=
  flat_map (fun y => map (fun x => (x, y)) (seq 0 5)) (seq 0 5).

Definition theta (st : list Z) : list Z :=
  let C x := fold_left Z.lxor (map (lane st x) (seq 0 5)) 0 in
  let D x := Z.lxor (C (x + 4)%nat) (rotl64 (C (x + 1)%nat) 1) in
  map (fun '(x, y) => Z.lxor (lane st x y) (D x)) positions.

Definition rho_pi (st : list Z) : list Z :=
  map (fun '(X, Y) =>
         let x := ((X + 3 * Y) mod 5)%nat in
         rotl64 (lane st x X) (nth (x + 5 * X) rotation_offsets 0))
      positions.

Definition chi (st : list Z) : list Z :=
  map (fun '(x, y) =>
         Z.lxor (lane st x y)
                (Z.land (Z.lxor (lane st (x + 1) y) mask64) (lane st (x + 2) y)))
      positions.

Definition iota (rc : Z) (st : list Z) : list Z :=
  match st with
  | a :: rest => Z.lxor a rc :: rest
  | nil => nil
  end.

Definition keccak_round (st : list Z) (rc : Z) : list Z :=
  iota rc (chi (rho_pi (theta st))).

Definition keccak_f (st : list Z) : list Z :=
  fold_left keccak_round round_constants st.

Definition rate : nat := 136.

(** pad10*1 with the original Keccak domain byte. *)
Definition pad (msg : list Z) : list Z :=
  let k := (rate - (length msg mod rate))%nat in
  match k with
  | S O => msg ++ [129]
  | _ => msg ++ [1] ++ repeat 0 (k - 2) ++ [128]
  end.

Fixpoint le_word (bs : list Z) : Z :=
  match bs with
  | nil => 0
  | b :: bs' => b + 256 * le_word bs'
  end.

Fixpoint lanes_of (n : nat) (bs : list Z) : list Z :=
  match n with
  | O => nil
  | S n' => le_word (firstn 8 bs) :: lanes_of n' (skipn 8 bs)
  end.

Fixpoint xor_lanes (st blk : list Z) : list Z :=
  match st, blk with
  | a :: st', b :: blk' => Z.lxor a b :: xor_lanes st' blk'
  | _, _ => st
  end.

Fixpoint absorb (blocks : nat) (bs : list Z) (st : list Z) : list Z :=
  match blocks with
  | O => st
  | S n =>
      absorb n (skipn rate bs) (keccak_f (xor_lanes st (lanes_of 17 (firstn rate bs))))
  end.

Fixpoint le_bytes (n : nat) (w : Z) : list Z :=
  match n with
  | O => nil
  | S n' => w mod 256 :: le_bytes n' (w / 256)
  end.

Definition keccak256_bytes (msg : list Z) : list Z :=
  let p := pad msg in
  let st := absorb (length p / rate) p (repeat 0 25) in
  flat_map (le_bytes 8) (firstn 4 st).

(** [keccak256(text)]: the digest of the text's UTF-8 bytes, as 64
    lowercase hexadecimal characters. *)
Definition keccak256 (text : string) : string :=
  JsString.hex_of_bytes (keccak256_bytes (JsString.utf8 text)).

End Keccak.


(* ===================================================================== *)
(** * SHA-256 (the [SHA256] of crypto-js) *)
(* ===================================================================== *)

(** An executable reference for the second external hash (FIPS 180-4). *)
Module Sha256.

Definition mask32 : Z := 2 ^ 32 - 1.
Definition add32 (a b : Z) : Z := Z.land (a + b) mask32.
Definition rotr32 (x n : Z) : Z :=
  Z.land (Z.lor (Z.shiftr x n) (Z.shiftl x (32 - n))) mask32.

(** The constants are derived as the standard defines them: the first 32
    bits of the fractional parts of the cube roots (round constants) and
    square roots (initial state) of the first primes. *)
Definition is_prime (n : nat) : bool :=
  forallb (fun d => negb (n mod d =? 0)%nat) (seq 2 (n - 2)).

Definition primes : list Z := map Z.of_nat (filter is_prime (seq 2 310)).

(** The integer [degree]-th root of [n], found bit by bit below [2^bits]. *)
Fixpoint int_root (bits : nat) (degree n r : Z) : Z :=
  match bits with
  | O => r
  | S bits' =>
      let candidate := r + 2 ^ Z.of_nat bits' in
      int_root bits' degree n (if candidate ^ degree <=? n then candidate else r)
  end.

Definition K : list Z :=
  Eval vm_compute in
    map (fun p => int_root 36 3 (p * 2 ^ 96) 0 mod 2 ^ 32) primes.

Definition H0 : list Z :=
  Eval vm_compute in
    map (fun p => int_root 36 2 (p * 2 ^ 64) 0 mod 2 ^ 32) (firstn 8 primes).

Fixpoint be_word (bs : list Z) (acc : Z) : Z :=
  match bs with
  | nil => acc
  | b :: bs' => be_word bs' (acc * 256 + b)
  end.

Fixpoint be_bytes (n : nat) (w : Z) : list Z :=
  match n with
  | O => nil
  | S n' => be_bytes n' (w / 256) ++ [w mod 256]
  end.

Definition pad (msg : list Z) : list Z :=
  let len := length msg in
  let zeros := ((64 - (len + 9) mod 64) mod 64)%nat in
  msg ++ [128] ++ repeat 0 zeros ++ be_bytes 8 (8 * Z.of_nat len).

Fixpoint words_of (n : nat) (bs : list Z) : list Z :=
  match n with
  | O => nil
  | S n' => be_word (firstn 4 bs) 0 :: words_of n' (skipn 4 bs)
  end.

(** The message schedule, most recent word first. *)
Fixpoint schedule (n : nat) (w : list Z) : list Z :=
  match n with
  | O => w
  | S n' =>
      let w2 := nth 1 w 0 in
      let w7 := nth 6 w 0 in
      let w15 := nth 14 w 0 in
      let w16 := nth 15 w 0 in
      let s0 := Z.lxor (Z.lxor (rotr32 w15 7) (rotr32 w15 18)) (Z.shiftr w15 3) in
      let s1 := Z.lxor (Z.lxor (rotr32 w2 17) (rotr32 w2 19)) (Z.shiftr w2 10) in
      schedule n' (add32 (add32 (add32 w16 s0) w7) s1 :: w)
  end.

Definition step (st : list Z) (kw : Z * Z) : list Z :=
  match st with
  | [a; b; c; d; e; f; g; h] =>
      let S1 := Z.lxor (Z.lxor (rotr32 e 6) (rotr32 e 11)) (rotr32 e 25) in
      let ch := Z.lxor (Z.land e f) (Z.land (Z.lxor e mask32) g) in
      let t1 := add32 (add32 (add32 (add32 h S1) ch) (fst kw)) (snd kw) in
      let S0 := Z.lxor (Z.lxor (rotr32 a 2) (rotr32 a 13)) (rotr32 a 22) in
      let maj := Z.lxor (Z.lxor (Z.land a b) (Z.land a c)) (Z.land b c) in
      let t2 := add32 S0 maj in
      [add32 t1 t2; a; b; c; add32 d t1; e; f; g]
  | _ => st
  end.

Definition compress (h : list Z) (block : list Z) : list Z :=
  let w := rev (schedule 48 (rev (words_of 16 block))) in
  let st := fold_left step (combine K w) h in
  map (fun p => add32 (fst p) (snd p)) (combine h st).

Fixpoint blocks (n : nat) (bs : list Z) (h : list Z) : list Z :=
  match n with
  | O => h
  | S n' => blocks n' (skipn 64 bs) (compress h (firstn 64 bs))
  end.

Definition sha256_bytes (msg : list Z) : list Z :=
  let p := pad msg in
  flat_map (be_bytes 4) (blocks (length p / 64) p H0).

(** [SHA256(text).toString()]: 64 lowercase hexadecimal characters. *)
Definition sha256 (text : string) : string :=
  JsString.hex_of_bytes (sha256_bytes (JsString.utf8 text)).

End Sha256.

(* ===================================================================== *)
(** * A reference runtime *)
(* ===================================================================== *)

(** One concrete [Runtime], so that the functions above can be evaluated.
    [keccak256] and [SHA256] are the real hashes.  elliptic's secp256k1 and
    Argon2id are replaced by small stand-ins of the same shape: a
    recoverable signature whose [r] commits to the digest and whose
    recovery returns some public key for every input, and a 32-byte digest
    of salt and input.  Theorems never depend on this instance; it only
    exhibits inputs. *)
Module Reference.
Import JsNumber JsString JsValue Wallet IdentityLib.
Open Scope string_scope.

Definition fit64 (s : string) : string :=
  substring 0 64 (s ++ JsString.repeat "0" 64).

Definition public_body (privateKey : string) : string :=
  fit64 (Sha256.sha256 ("public:" ++ privateKey)).

Definition commitment (body digest : string) : string :=
  fit64 (Sha256.sha256 (body ++ digest)).

Definition ref_getPublic (privateKey : string) : option string :=
  Some ("02" ++ public_body privateKey).

Definition ref_sign (digest privateKey : string) : option SignatureObj :=
  Some {| sig_r := commitment (public_body privateKey) digest;
          sig_s := public_body privateKey;
          recoveryParam := Some O |}.

(** Like elliptic, recovery refuses a recovery parameter outside [0..3]
    and otherwise returns a key, the signer's exactly when [r] is the
    commitment of [s] to the digest. *)
Definition ref_recoverPubKey (digest r s : string) (v : option Z) : option string :=
  match v with
  | Some j =>
      if ((0 <=? j) && (j <=? 3))%Z
      then if String.eqb r (commitment s digest)
           then Some ("02" ++ s)
           else Some ("03" ++ commitment r s)
      else None
  | None => None
  end.

#[export] Instance ref_crypto : CryptoLib := {|
  keccak256 := Keccak.keccak256;
  SHA256 := Sha256.sha256;
  ec_getPublic := ref_getPublic;
  ec_sign := ref_sign;
  ec_recoverPubKey := ref_recoverPubKey
|}.

(** [Number::toString], exact on integers, zeros, infinities and NaN
    (below the 21 digits where JS turns to exponents); other values get
    a mantissa/exponent text. *)
Definition ref_number_to_string (x : number) : string :=
  match x with
  | S754_nan => "NaN"
  | S754_infinity false => "Infinity"
  | S754_infinity true => "-Infinity"
  | S754_zero _ => "0"
  | S754_finite s m e =>
      let sign := if s then "-" else EmptyString in
      if (0 <=? e)%Z then sign ++ decimal_N (Z.to_N (Zpos m * 2 ^ e))
      else if (Zpos m mod 2 ^ (- e) =? 0)%Z
           then sign ++ decimal_N (Z.to_N (Zpos m / 2 ^ (- e)))
           else sign ++ decimal_N (Npos m) ++ "/2^" ++ decimal_N (Z.to_N (- e))
  end.

(** [StringToNumber], on unsigned decimal integers (anything else is
    read as NaN). *)
Definition ref_string_to_number (s : string) : number :=
  match NilEmpty.uint_of_string s with
  | Some u => of_Z (Z.of_N (N.of_uint u))
  | None => NaN
  end.

#[export] Instance ref_builtins : Builtins := {|
  number_to_string := ref_number_to_string;
  string_to_number := ref_string_to_number
|}.

(** The stand-in hashes strings and refuses every other input. *)
Definition ref_argon2 (input : value) (salt : string) : option (list Z) :=
  match input with
  | JStr text => Some (Keccak.keccak256_bytes (utf8 (salt ++ "$" ++ text)))
  | _ => None
  end.

#[export] Instance ref_runtime : Runtime := {|
  runtime_crypto := ref_crypto;
  runtime_builtins := ref_builtins;
  argon2_hash := ref_argon2
|}.

(** ** Sample identities of the reference runtime *)

Definition sample_key : string :=
  "1111111111111111111111111111111111111111111111111111111111111111".

Definition sample_address : string := "xe_9d6ccD40a5A35Af4cD9Fc6FDB135a87069029c67".

Definition sample_s0 : string :=
  "00b118bebeb45c33e52b4552275d6cea54f91ce22c3c54278cd3ee84c35912ea08b96a9487f58b886ad7d578c94854e79b145fb8f0d728b0c769419ce7c3450d00".

Definition sample_s1 : string :=
  "00fccdbb8288fff4cf1639cc449eb9dfc11d6b2ec9cb5ba0455ab2b02500fc0108b96a9487f58b886ad7d578c94854e79b145fb8f0d728b0c769419ce7c3450d00".

(** What [generateIdentity(2)] builds for [sample_key] at clock reading
    1700000000831. *)
Definition sample_identity : PublicIdentity :=
  {| pi_address := sample_address;
     pi_timestamp := of_Z 1700000000831;
     pi_s := [sample_s0; sample_s1];
     pi_c := [of_Z 1; of_Z 0] |}.

(** A one-link identity of the same key whose solution is [-1]. *)
Definition negative_solution_s0 : string :=
  "009ed34d2acd5538954d850048da68a72058366494e075f4e5c76ce003e2affd08b96a9487f58b886ad7d578c94854e79b145fb8f0d728b0c769419ce7c3450d00".

Definition negative_solution_identity : PublicIdentity :=
  {| pi_address := sample_address;
     pi_timestamp := of_Z 1700000000612;
     pi_s := [negative_solution_s0];
     pi_c := [of_Z (-1)] |}.

(** ** Sample [Identity] objects *)

(** A fresh identity object of [sample_key] with empty [s] and [c]. *)
Definition sample_object : Identity :=
  {| id_privateKey := sample_key;
     id_address := sample_address;
     id_timestamp := of_Z 1700000000831;
     id_s := 1%positive;
     id_c := 2%positive |}.

Definition empty_array : array_obj := {| elems := nil; extensible := true |}.

Definition fresh_heap : heap := <[1%positive := empty_array]> (<[2%positive := empty_array]> ∅).


(** An identity object built with one array for both [s] and [c]. *)
Definition aliased_object : Identity :=
  {| id_privateKey := sample_key;
     id_address := sample_address;
     id_timestamp := of_Z 1700000000831;
     id_s := 1%positive;
     id_c := 1%positive |}.

End Reference.
(* ===================================================================== *)
(** * More samples of the reference runtime *)
(* ===================================================================== *)

Module Samples.
Import JsNumber JsString JsValue Wallet IdentityLib IdentityObject Amounts.
Open Scope string_scope.

Definition sample_wallet : WalletRecord :=
  {| privateKey := Reference.sample_key;
     publicKey := "0208b96a9487f58b886ad7d578c94854e79b145fb8f0d728b0c769419ce7c3450d";
     address := Reference.sample_address |}.



(** The sample identity after its first challenge. *)
Definition one_link_identity : PublicIdentity := first_links 1 Reference.sample_identity.

(** The arrays of [Reference.sample_object] at that point. *)
Definition one_link_heap : heap :=
  <[1%positive := {| elems := [JStr Reference.sample_s0]; extensible := true |}]>
    (<[2%positive := {| elems := [JNum (of_Z 1)]; extensible := true |}]> ∅).

(** [toLocaleString('en-US')] on the integers a double holds exactly:
    the digits in groups of three; other values are not grouped. *)
Fixpoint group_digits (fuel : nat) (digits : string) : string :=
  match fuel with
  | O => digits
  | S fuel' =>
      let n := String.length digits in
      if (n <=? 3)%nat then digits
      else group_digits fuel' (substring 0 (n - 3) digits) ++ "," ++ substring (n - 3) 3 digits
  end.

Definition ref_toLocaleString (x : number) : string :=
  let text := Reference.ref_number_to_string x in
  match text with
  | String "-" digits =>
      if all_chars is_digit digits
      then String "-" (group_digits (String.length digits) digits)
      else text
  | _ => if all_chars is_digit text then group_digits (String.length text) text else text
  end.

#[export] Instance ref_locale : Locale := {|
  toLocaleString_en_US := ref_toLocaleString
|}.

End Samples.

(* ===================================================================== *)
(** * Proofs: the difficulty schedule *)
(* ===================================================================== *)

Module DifficultyProofs.
Import JsNumber Difficulty.

Lemma digits2_pos_bounds (m : positive) :
  2 ^ (Zpos (digits2_pos m) - 1) <= Zpos m < 2 ^ Zpos (digits2_pos m).
Proof.
  induction m as [m IH | m IH |]; cbn [digits2_pos].
  - rewrite Pos2Z.inj_succ.
    replace (Z.succ (Zpos (digits2_pos m)) - 1) with (Z.succ (Zpos (digits2_pos m) - 1)) by lia.
    rewrite !Z.pow_succ_r by lia. lia.
  - rewrite Pos2Z.inj_succ.
    replace (Z.succ (Zpos (digits2_pos m)) - 1) with (Z.succ (Zpos (digits2_pos m) - 1)) by lia.
    rewrite !Z.pow_succ_r by lia. lia.
  - cbn. lia.
Qed.

Lemma shr_1_m (mrs : shr_record) :
  0 <= shr_m mrs -> shr_m (shr_1 mrs) = shr_m mrs / 2.
Proof.
  destruct mrs as [m r s]; cbn [shr_m shr_1]. intros Hm.
  destruct m as [| p | p]; [reflexivity | | lia].
  destruct p as [p | p |]; cbn [shr_m].
  - rewrite (Pos2Z.inj_xI p). apply Z.div_unique with (r := 1); lia.
  - rewrite (Pos2Z.inj_xO p). apply Z.div_unique with (r := 0); lia.
  - reflexivity.
Qed.

Lemma iter_shr_1_m (n : positive) :
  forall mrs, 0 <= shr_m mrs ->
    shr_m (SpecFloat.iter_pos shr_1 n mrs) = shr_m mrs / 2 ^ Zpos n.
Proof.
  induction n as [n IH | n IH |]; intros mrs Hm; cbn [SpecFloat.iter_pos].
  - assert (H1 : 0 <= shr_m (shr_1 mrs)).
    { rewrite shr_1_m by assumption. apply Z.div_pos; lia. }
    assert (H2 : 0 <= shr_m (SpecFloat.iter_pos shr_1 n (shr_1 mrs))).
    { rewrite IH by assumption. apply Z.div_pos; lia. }
    rewrite IH, IH, shr_1_m by assumption.
    rewrite !Z.div_div by lia. f_equal.
    rewrite (Pos2Z.inj_xI n).
    replace (2 * Zpos n + 1) with (1 + Zpos n + Zpos n) by lia.
    rewrite !Z.pow_add_r by lia. rewrite Z.pow_1_r. ring.
  - assert (H2 : 0 <= shr_m (SpecFloat.iter_pos shr_1 n mrs)).
    { rewrite IH by assumption. apply Z.div_pos; lia. }
    rewrite IH, IH by assumption.
    rewrite Z.div_div by lia. f_equal.
    rewrite (Pos2Z.inj_xO n).
    replace (2 * Zpos n) with (Zpos n + Zpos n) by lia.
    rewrite Z.pow_add_r by lia. reflexivity.
  - rewrite shr_1_m by assumption. reflexivity.
Qed.

Lemma shr_record_of_loc_m (m : Z) (l : location) :
  shr_m (shr_record_of_loc m l) = m.
Proof. destruct l as [| []]; reflexivity. Qed.

Lemma pow2_pos (n : Z) : 0 <= n -> 0 < 2 ^ n.
Proof. intros. apply Z.pow_pos_nonneg; lia. Qed.

(** Truncating a positive mantissa to the format's precision never drops
    below an integer that fits in 53 bits. *)
Lemma shr_fexp_lb (m : positive) (e : Z) (l : location) (k : Z) :
  0 < k < 2 ^ 53 ->
  k * 2 ^ Z.max 0 (- e) <= Zpos m * 2 ^ Z.max 0 e ->
  0 < shr_m (fst (shr_fexp prec emax (Zpos m) e l)) /\
  k * 2 ^ Z.max 0 (- snd (shr_fexp prec emax (Zpos m) e l))
    <= shr_m (fst (shr_fexp prec emax (Zpos m) e l))
       * 2 ^ Z.max 0 (snd (shr_fexp prec emax (Zpos m) e l)).
Proof.
  intros Hk Hv. unfold shr_fexp, shr.
  pose proof (digits2_pos_bounds m) as Hd.
  cbn [Zdigits2]. set (d := Zpos (digits2_pos m)) in *.
  assert (Hfexp : fexp prec emax (d + e) = Z.max (d + e - 53) (-1074)) by reflexivity.
  destruct (fexp prec emax (d + e) - e) as [| p | p] eqn:Hn; cbn [fst snd];
    rewrite ?shr_record_of_loc_m.
  - split; [lia | exact Hv].
  - rewrite iter_shr_1_m by (rewrite shr_record_of_loc_m; lia).
    rewrite shr_record_of_loc_m.
    destruct (Z_le_gt_dec (e + Zpos p) 0) as [Hle | Hgt].
    + (* the result still has a non-positive exponent *)
      replace (Z.max 0 (e + Zpos p)) with 0 by lia.
      replace (Z.max 0 (- (e + Zpos p))) with (- (e + Zpos p)) by lia.
      replace (Z.max 0 e) with 0 in Hv by lia.
      replace (Z.max 0 (- e)) with (- (e + Zpos p) + Zpos p) in Hv by lia.
      rewrite Z.pow_add_r in Hv by lia.
      rewrite Z.pow_0_r, Z.mul_1_r in *.
      assert (Hq : k * 2 ^ (- (e + Zpos p)) <= Zpos m / 2 ^ Zpos p).
      { apply Z.div_le_lower_bound; [apply pow2_pos; lia | lia]. }
      split; [| exact Hq].
      pose proof (pow2_pos (- (e + Zpos p)) ltac:(lia)). nia.
    + (* normal range: the truncated mantissa keeps 53 bits *)
      assert (Hp : Zpos p = d - 53) by lia.
      assert (Hq : 2 ^ 52 <= Zpos m / 2 ^ Zpos p).
      { apply Z.div_le_lower_bound; [apply pow2_pos; lia |].
        rewrite <- Z.pow_add_r by lia.
        replace (Zpos p + 52) with (d - 1) by lia. lia. }
      replace (Z.max 0 (- (e + Zpos p))) with 0 by lia.
      replace (Z.max 0 (e + Zpos p)) with (e + Zpos p) by lia.
      rewrite Z.pow_0_r, Z.mul_1_r.
      assert (H2 : 2 ^ 1 <= 2 ^ (e + Zpos p)) by (apply Z.pow_le_mono_r; lia).
      rewrite Z.pow_1_r in H2.
      change (2 ^ 53) with (2 ^ 52 * 2) in Hk.
      split; [lia | nia].
  - split; [lia | exact Hv].
Qed.

Lemma round_nearest_even_ge (m : Z) (l : location) :
  m <= round_nearest_even m l.
Proof.
  destruct l as [| []]; cbn [round_nearest_even]; try lia.
  destruct (Z.even m); lia.
Qed.

(** Rounding to nearest is monotone against an integer that fits in 53 bits. *)
Lemma binary_round_aux_at_least (m : positive) (e : Z) (l : location) (k : Z) :
  0 < k < 2 ^ 53 ->
  k * 2 ^ Z.max 0 (- e) <= Zpos m * 2 ^ Z.max 0 e ->
  at_least k (binary_round_aux prec emax false (Zpos m) e l).
Proof.
  intros Hk Hv. unfold binary_round_aux.
  destruct (shr_fexp_lb m e l k Hk Hv) as [Hpos Hlb].
  destruct (shr_fexp prec emax (Zpos m) e l) as [mrs' e'] eqn:E1.
  cbn [fst snd] in Hpos, Hlb.
  pose proof (round_nearest_even_ge (shr_m mrs') (loc_of_shr_record mrs')) as Hr.
  set (m1 := round_nearest_even (shr_m mrs') (loc_of_shr_record mrs')) in *.
  destruct m1 as [| p1 | p1] eqn:Em1; try lia.
  assert (Hv1 : k * 2 ^ Z.max 0 (- e') <= Zpos p1 * 2 ^ Z.max 0 e').
  { pose proof (pow2_pos (Z.max 0 e') ltac:(lia)). nia. }
  destruct (shr_fexp_lb p1 e' loc_Exact k Hk Hv1) as [Hpos2 Hlb2].
  destruct (shr_fexp prec emax (Zpos p1) e' loc_Exact) as [mrs'' e''] eqn:E2.
  cbn [fst snd] in Hpos2, Hlb2.
  destruct (shr_m mrs'') as [| p2 | p2]; try lia.
  destruct (e'' <=? emax - prec); cbn [at_least]; [exact Hlb2 | exact I].
Qed.

(** The bound behind [at_least], read at any common scale [2^t]. *)
Lemma at_least_scale (m e k t : Z) :
  0 <= t -> - e <= t ->
  (k * 2 ^ Z.max 0 (- e) <= m * 2 ^ Z.max 0 e <-> k * 2 ^ t <= m * 2 ^ (e + t)).
Proof.
  intros Ht Het.
  destruct (Z_le_gt_dec 0 e) as [He | He].
  - replace (Z.max 0 (- e)) with 0 by lia. replace (Z.max 0 e) with e by lia.
    rewrite Z.pow_0_r, Z.mul_1_r, Z.pow_add_r by lia.
    pose proof (pow2_pos t Ht). pose proof (pow2_pos e He).
    split; intros; nia.
  - replace (Z.max 0 (- e)) with (- e) by lia. replace (Z.max 0 e) with 0 by lia.
    rewrite Z.pow_0_r, Z.mul_1_r.
    replace t with (- e + (e + t)) at 1 by lia.
    rewrite Z.pow_add_r by lia.
    pose proof (pow2_pos (e + t) ltac:(lia)). pose proof (pow2_pos (- e) ltac:(lia)).
    split; intros; nia.
Qed.

Lemma pos_iter_xO (d m : positive) :
  Zpos (Pos.iter xO m d) = Zpos m * 2 ^ Zpos d.
Proof.
  induction d as [| d IH] using Pos.peano_ind.
  - cbn [Pos.iter]. rewrite (Pos2Z.inj_xO m), Z.pow_1_r. lia.
  - rewrite Pos.iter_succ, (Pos2Z.inj_xO (Pos.iter xO m d)), IH, Pos2Z.inj_succ.
    rewrite Z.pow_succ_r by lia. lia.
Qed.

Lemma shl_align_spec (mx : positive) (ex ez : Z) :
  ez <= ex ->
  Zpos (fst (shl_align mx ex ez)) = Zpos mx * 2 ^ (ex - ez) /\
  snd (shl_align mx ex ez) = ez.
Proof.
  intros Hle. unfold shl_align.
  destruct (ez - ex) as [| p | p] eqn:E; cbn [fst snd]; try lia.
  - replace (ex - ez) with 0 by lia. rewrite Z.pow_0_r. lia.
  - rewrite pos_iter_xO. replace (ex - ez) with (Zpos p) by lia. lia.
Qed.

Lemma shl_align_keep (mx : positive) (ex ez : Z) :
  ex <= ez -> shl_align mx ex ez = (mx, ex).
Proof.
  intros Hle. unfold shl_align.
  destruct (ez - ex) as [| p | p] eqn:E; try reflexivity. lia.
Qed.

Lemma binary_normalize_at_least (p : positive) (e k : Z) :
  0 < k < 2 ^ 53 ->
  k * 2 ^ Z.max 0 (- e) <= Zpos p * 2 ^ Z.max 0 e ->
  at_least k (binary_normalize prec emax (Zpos p) e false).
Proof.
  intros Hk Hv. cbn [binary_normalize]. unfold binary_round.
  set (e1 := fexp prec emax (Zpos (digits2_pos p) + e)).
  destruct (Z_le_gt_dec e e1) as [Hle | Hgt].
  - rewrite shl_align_keep by assumption.
    apply binary_round_aux_at_least; assumption.
  - destruct (shl_align_spec p e e1 ltac:(lia)) as [Hm He].
    destruct (shl_align p e e1) as [mz ez]. cbn [fst snd] in Hm, He. subst ez.
    apply binary_round_aux_at_least; [assumption |].
    rewrite Hm.
    apply (at_least_scale _ e1 k (Z.max 0 (- e1))); [lia | lia |].
    apply (at_least_scale _ e k (Z.max 0 (- e1))) in Hv; [| lia | lia].
    rewrite <- Z.mul_assoc, <- Z.pow_add_r by lia.
    replace (e - e1 + (e1 + Z.max 0 (- e1))) with (e + Z.max 0 (- e1)) by lia.
    exact Hv.
Qed.

Lemma of_Z_at_least (k z : Z) :
  0 < k < 2 ^ 53 -> k <= z -> at_least k (of_Z z).
Proof.
  intros Hk Hz. unfold of_Z. destruct z as [| p | p]; try lia.
  apply binary_normalize_at_least; [assumption |].
  change (Z.max 0 (- 0)) with 0. change (Z.max 0 0) with 0.
  rewrite Z.pow_0_r. lia.
Qed.

(** [challenge * 0.4] is at least 2 once [challenge] is at least 5. *)
Lemma mul_0_4_at_least (x : number) :
  at_least 5 x -> at_least 2 (mul x lit_0_4).
Proof.
  destruct x as [s | [] | | [] m e]; cbn [at_least]; try contradiction.
  - intros _. exact I.
  - intros Hv. unfold mul, lit_0_4. cbn [SFmul xorb].
    apply binary_round_aux_at_least; [lia |].
    set (t := Z.max 0 (- e) + 54).
    apply (at_least_scale _ (e + -54) 2 t); [lia | lia |].
    apply (at_least_scale _ e 5 (Z.max 0 (- e))) in Hv; [| lia | lia].
    replace (e + -54 + t) with (e + Z.max 0 (- e)) by lia.
    unfold t. rewrite Z.pow_add_r by lia.
    rewrite Pos2Z.inj_mul.
    pose proof (pow2_pos (Z.max 0 (- e)) ltac:(lia)).
    change (2 ^ 54) with 18014398509481984.
    nia.
Qed.

Lemma Math_floor_at_least (y : number) :
  at_least 2 y -> at_least 2 (Math_floor y).
Proof.
  destruct y as [s | [] | | [] m e]; cbn [at_least]; try contradiction.
  - intros _. exact I.
  - intros Hv. cbn [Math_floor cond_Zopp].
    destruct (0 <=? e) eqn:He; [exact Hv |].
    apply Z.leb_gt in He.
    replace (Z.max 0 (- e)) with (- e) in Hv by lia.
    replace (Z.max 0 e) with 0 in Hv by lia.
    rewrite Z.pow_0_r, Z.mul_1_r in Hv.
    assert (Hq : 2 <= Zpos m / 2 ^ (- e)).
    { apply Z.div_le_lower_bound; [apply pow2_pos; lia | lia]. }
    destruct (Zpos m / 2 ^ (- e)) as [| q | q] eqn:Eq; try lia.
    apply of_Z_at_least; lia.
Qed.

Lemma add_2_at_least (y : number) :
  at_least 2 y -> at_least 4 (add (of_Z 2) y).
Proof.
  change (of_Z 2) with (S754_finite false 4503599627370496 (-51)).
  destruct y as [s | [] | | [] m e]; cbn [at_least]; try contradiction.
  - intros _. exact I.
  - intros Hv. unfold add. cbn [SFadd cond_Zopp].
    set (ez := Z.min (-51) e).
    destruct (shl_align_spec 4503599627370496 (-51) ez ltac:(lia)) as [H2 _].
    destruct (shl_align_spec m e ez ltac:(lia)) as [Hm _].
    rewrite <- Pos2Z.inj_add.
    apply binary_normalize_at_least; [lia |].
    rewrite Pos2Z.inj_add, H2, Hm.
    replace (Z.max 0 (- ez)) with (- ez) by lia.
    replace (Z.max 0 ez) with 0 by lia.
    rewrite Z.pow_0_r, Z.mul_1_r.
    apply (at_least_scale _ e 2 (- ez)) in Hv; [| lia | lia].
    replace (e + - ez) with (e - ez) in Hv by lia.
    replace (- ez) with (51 + (-51 - ez)) at 1 by lia.
    rewrite Z.pow_add_r by lia.
    replace (- ez) with (51 + (-51 - ez)) in Hv at 1 by lia.
    rewrite Z.pow_add_r in Hv by lia.
    change (2 ^ 51) with 2251799813685248 in *.
    pose proof (pow2_pos (-51 - ez) ltac:(lia)).
    nia.
Qed.

(** [Math.min(Math.max(value, 2), 4)] is [4] once [value] is at least 4. *)
Lemma clamp_at_least (v : number) :
  at_least 4 v -> Math_min (Math_max v (of_Z 2)) (of_Z 4) = of_Z 4.
Proof.
  change (of_Z 2) with (S754_finite false 4503599627370496 (-51)).
  change (of_Z 4) with (S754_finite false 4503599627370496 (-50)).
  destruct v as [s | [] | | [] m e]; cbn [at_least]; try contradiction.
  - intros _. reflexivity.
  - intros Hv.
    assert (Hmax : Math_max (S754_finite false m e) (S754_finite false 4503599627370496 (-51))
                   = S754_finite false m e).
    { unfold Math_max, compare. cbn [mant expo cond_Zopp].
      set (e0 := Z.min e (-51)).
      apply (at_least_scale _ e 4 (- e0)) in Hv; [| lia | lia].
      replace (e + - e0) with (e - e0) in Hv by lia.
      replace (- e0) with (51 + (-51 - e0)) in Hv at 1 by lia.
      rewrite Z.pow_add_r in Hv by lia.
      change (2 ^ 51) with 2251799813685248 in Hv.
      pose proof (pow2_pos (-51 - e0) ltac:(lia)).
      assert (Hgt : (Zpos m * 2 ^ (e - e0) ?= 4503599627370496 * 2 ^ (-51 - e0)) = Gt)
        by (apply Z.compare_gt_iff; nia).
      rewrite Hgt. reflexivity. }
    rewrite Hmax.
    unfold Math_min, compare. cbn [mant expo cond_Zopp is_neg_zero].
    set (e0 := Z.min e (-50)).
    apply (at_least_scale _ e 4 (- e0)) in Hv; [| lia | lia].
    replace (e + - e0) with (e - e0) in Hv by lia.
    replace (- e0) with (50 + (-50 - e0)) in Hv at 1 by lia.
    rewrite Z.pow_add_r in Hv by lia.
    change (2 ^ 50) with 1125899906842624 in Hv.
    destruct (Z.compare_spec (Zpos m * 2 ^ (e - e0)) (4503599627370496 * 2 ^ (-50 - e0)))
      as [Heq | Hlt | Hgt]; try reflexivity.
    pose proof (pow2_pos (-50 - e0) ltac:(lia)). nia.
Qed.

(** From challenge 5 on (any number that is at least 5, [Infinity]
    included) the difficulty is 4. *)
Lemma calculateDifficulty_saturates (x : number) :
  at_least 5 x -> calculateDifficulty x = of_Z 4.
Proof.
  intros Hx. unfold calculateDifficulty.
  apply clamp_at_least, add_2_at_least, Math_floor_at_least, mul_0_4_at_least, Hx.
Qed.

Lemma difficulty_spec_values (i : Z) :
  0 <= i ->
  difficulty_spec i = (if i <? 3 then 2 else if i <? 5 then 3 else 4).
Proof.
  intros Hi. unfold difficulty_spec.
  destruct (i <? 3) eqn:H3; [apply Z.ltb_lt in H3 | apply Z.ltb_ge in H3].
  - rewrite Z.div_small by lia. reflexivity.
  - destruct (i <? 5) eqn:H5; [apply Z.ltb_lt in H5 | apply Z.ltb_ge in H5].
    + assert (i * 2 / 5 = 1) as ->; [| reflexivity].
      assert (1 <= i * 2 / 5 < 2); [| lia].
      split; [apply Z.div_le_lower_bound; lia | apply Z.div_lt_upper_bound; lia].
    + assert (2 <= i * 2 / 5) by (apply Z.div_le_lower_bound; lia). lia.
Qed.

Lemma calculateDifficulty_of_Z (i : Z) :
  0 <= i ->
  calculateDifficulty (of_Z i) = of_Z (if i <? 3 then 2 else if i <? 5 then 3 else 4).
Proof.
  intros Hi.
  destruct (Z_lt_ge_dec i 5) as [Hlt | Hge].
  - assert (i = 0 \/ i = 1 \/ i = 2 \/ i = 3 \/ i = 4) as [-> | [-> | [-> | [-> | ->]]]]
      by lia; vm_compute; reflexivity.
  - replace (i <? 3) with false by (symmetry; apply Z.ltb_ge; lia).
    replace (i <? 5) with false by (symmetry; apply Z.ltb_ge; lia).
    apply calculateDifficulty_saturates, of_Z_at_least; lia.
Qed.

(** The number of leading zeros link [i] needs. *)
Lemma difficulty_values (i : nat) :
  difficulty i = (if (i <? 3)%nat then 2 else if (i <? 5)%nat then 3 else 4)%nat.
Proof.
  unfold difficulty, of_nat.
  rewrite calculateDifficulty_of_Z by lia.
  destruct (i <? 3)%nat eqn:H3.
  - apply Nat.ltb_lt in H3.
    replace (Z.of_nat i <? 3) with true by (symmetry; apply Z.ltb_lt; lia). reflexivity.
  - apply Nat.ltb_ge in H3.
    replace (Z.of_nat i <? 3) with false by (symmetry; apply Z.ltb_ge; lia).
    destruct (i <? 5)%nat eqn:H5.
    + apply Nat.ltb_lt in H5.
      replace (Z.of_nat i <? 5) with true by (symmetry; apply Z.ltb_lt; lia). reflexivity.
    + apply Nat.ltb_ge in H5.
      replace (Z.of_nat i <? 5) with false by (symmetry; apply Z.ltb_ge; lia). reflexivity.
Qed.

(** C2 (amended): on every challenge index [i >= 0] the schedule is the
    clamp [min(4, max(2, 2 + floor(2i/5)))] computed exactly, whose values
    are 2, 2, 2, 3, 3 for [i = 0..4] and 4 for every [i >= 5]; so the
    difficulty of challenge 4 is 3. *)
Theorem C2_difficulty_schedule (i : Z) :
  0 <= i ->
  calculateDifficulty (of_Z i) = of_Z (difficulty_spec i) /\
  difficulty_spec i = (if i <? 3 then 2 else if i <? 5 then 3 else 4).
Proof.
  intros Hi. rewrite difficulty_spec_values by assumption.
  split; [apply calculateDifficulty_of_Z; assumption | reflexivity].
Qed.

Lemma C2_difficulty_schedule_witness :
  0 <= 100 /\
  calculateDifficulty (of_Z 100) = of_Z (difficulty_spec 100) /\
  difficulty_spec 100 = 4.
Proof.
  split; [lia | apply (C2_difficulty_schedule 100); lia].
Defined.

(** C2 as stated fails at challenge 4: the code returns 3, not 4. *)
Lemma C2_challenge_4_is_3 :
  calculateDifficulty (of_Z 4) = of_Z 3 /\
  eqb (calculateDifficulty (of_Z 4)) (of_Z 4) = false.
Proof. split; vm_compute; reflexivity. Qed.
End DifficultyProofs.

(** ** Integers below [2^53] are represented exactly *)
Module NumberFacts.
Import JsNumber DifficultyProofs.

Lemma digits2_pos_unique (m : positive) (k : Z) :
  2 ^ (k - 1) <= Zpos m < 2 ^ k -> Zpos (digits2_pos m) = k.
Proof.
  intros [Hlo Hhi].
  pose proof (digits2_pos_bounds m) as [Hlo' Hhi'].
  set (d := Zpos (digits2_pos m)) in *.
  assert (Hd : 0 < d) by (unfold d; lia).
  assert (Hk : 0 < k).
  { destruct (Z_lt_le_dec 0 k) as [| Hle]; [assumption |].
    assert (2 ^ k <= 2 ^ 0) by (apply Z.pow_le_mono_r; lia).
    change (2 ^ 0) with 1 in *. lia. }
  assert (d - 1 < k).
  { apply (Z.pow_lt_mono_r_iff 2); lia. }
  assert (k - 1 < d).
  { apply (Z.pow_lt_mono_r_iff 2); lia. }
  lia.
Qed.

Lemma binary_round_aux_exact (mz : positive) (ez : Z) :
  Zpos (digits2_pos mz) = 53 -> -1074 <= ez <= 971 ->
  binary_round_aux prec emax false (Zpos mz) ez loc_Exact = S754_finite false mz ez.
Proof.
  intros Hd He.
  assert (Hshr : shr_fexp prec emax (Zpos mz) ez loc_Exact
                 = ({| shr_m := Zpos mz; shr_r := false; shr_s := false |}, ez)).
  { unfold shr_fexp. cbn [Zdigits2 shr_record_of_loc]. rewrite Hd.
    replace (fexp prec emax (53 + ez) - ez) with 0
      by (unfold fexp, SpecFloat.emin, prec, emax; lia).
    reflexivity. }
  unfold binary_round_aux. rewrite Hshr.
  cbn [shr_m loc_of_shr_record round_nearest_even]. rewrite Hshr.
  cbn [shr_m].
  replace (ez <=? emax - prec) with true
    by (symmetry; apply Z.leb_le; unfold prec, emax; lia).
  reflexivity.
Qed.

Lemma of_Z_exact (z : Z) :
  0 < z < 2 ^ 53 ->
  exists m e, of_Z z = S754_finite false m e /\ -52 <= e <= 0 /\ Zpos m = z * 2 ^ (- e).
Proof.
  intros Hz. destruct z as [| p | p]; try lia.
  pose proof (digits2_pos_bounds p) as [Hlo Hhi].
  set (d := Zpos (digits2_pos p)) in *.
  assert (Hd1 : 1 <= d) by (unfold d; lia).
  assert (Hd53 : d <= 53).
  { assert (d - 1 < 53); [| lia]. apply (Z.pow_lt_mono_r_iff 2); lia. }
  unfold of_Z. cbn [binary_normalize]. unfold binary_round.
  fold d.
  assert (Hfexp : fexp prec emax (d + 0) = d - 53)
    by (unfold fexp, SpecFloat.emin, prec, emax; lia).
  rewrite Hfexp.
  destruct (shl_align_spec p 0 (d - 53) ltac:(lia)) as [Hm He].
  destruct (shl_align p 0 (d - 53)) as [mz ez]. cbn [fst snd] in Hm, He. subst ez.
  replace (0 - (d - 53)) with (53 - d) in Hm by lia.
  assert (Hpow : 2 ^ (d - 1) * 2 ^ (53 - d) = 2 ^ 52).
  { rewrite <- Z.pow_add_r by lia. f_equal. lia. }
  assert (Hpow' : 2 ^ d * 2 ^ (53 - d) = 2 ^ 53).
  { rewrite <- Z.pow_add_r by lia. f_equal. lia. }
  assert (Hpos : 0 < 2 ^ (53 - d)) by (apply pow2_pos; lia).
  rewrite binary_round_aux_exact.
  - exists mz, (d - 53). split; [reflexivity |]. split; [lia |].
    rewrite Hm. f_equal. f_equal. lia.
  - apply digits2_pos_unique. rewrite Hm.
    change (53 - 1) with 52. split; nia.
  - lia.
Qed.

Lemma compare_of_Z (a b : Z) :
  0 <= a < 2 ^ 53 -> 0 <= b < 2 ^ 53 ->
  compare (of_Z a) (of_Z b) = Some (a ?= b).
Proof.
  intros Ha Hb.
  destruct (Z.eq_dec a 0) as [-> | Ha0]; destruct (Z.eq_dec b 0) as [-> | Hb0].
  - reflexivity.
  - destruct (of_Z_exact b ltac:(lia)) as (mb & eb & -> & Heb & Hmb).
    change (of_Z 0) with (S754_zero false).
    unfold compare. cbn [mant expo cond_Zopp]. f_equal.
    rewrite Z.mul_0_l.
    assert (0 < 2 ^ (eb - Z.min 0 eb)) by (apply pow2_pos; lia).
    transitivity Lt; [apply Z.compare_lt_iff; nia | symmetry; apply Z.compare_lt_iff; lia].
  - destruct (of_Z_exact a ltac:(lia)) as (ma & ea & -> & Hea & Hma).
    change (of_Z 0) with (S754_zero false).
    unfold compare. cbn [mant expo cond_Zopp]. f_equal.
    rewrite Z.mul_0_l.
    assert (0 < 2 ^ (ea - Z.min ea 0)) by (apply pow2_pos; lia).
    transitivity Gt; [apply Z.compare_gt_iff; nia | symmetry; apply Z.compare_gt_iff; lia].
  - destruct (of_Z_exact a ltac:(lia)) as (ma & ea & -> & Hea & Hma).
    destruct (of_Z_exact b ltac:(lia)) as (mb & eb & -> & Heb & Hmb).
    unfold compare. cbn [mant expo cond_Zopp]. f_equal.
    set (e0 := Z.min ea eb).
    rewrite Hma, Hmb, <- !Z.mul_assoc, <- !Z.pow_add_r by lia.
    replace (- ea + (ea - e0)) with (- e0) by lia.
    replace (- eb + (eb - e0)) with (- e0) by lia.
    assert (0 < 2 ^ (- e0)) by (apply pow2_pos; lia).
    destruct (Z.compare_spec a b) as [-> | Hlt | Hgt].
    + apply Z.compare_refl.
    + apply Z.compare_lt_iff. nia.
    + apply Z.compare_gt_iff. nia.
Qed.

Lemma eqb_of_nat (a b : nat) :
  Z.of_nat a < 2 ^ 53 -> Z.of_nat b < 2 ^ 53 ->
  eqb (of_nat a) (of_nat b) = (a =? b)%nat.
Proof.
  intros Ha Hb. unfold eqb, of_nat. rewrite compare_of_Z by lia.
  destruct (Nat.eqb_spec a b) as [-> | Hne].
  - rewrite Z.compare_refl. reflexivity.
  - destruct (Z.compare_spec (Z.of_nat a) (Z.of_nat b)); try reflexivity. lia.
Qed.

Lemma ltb_of_nat (a b : nat) :
  Z.of_nat a < 2 ^ 53 -> Z.of_nat b < 2 ^ 53 ->
  ltb (of_nat a) (of_nat b) = (a <? b)%nat.
Proof.
  intros Ha Hb. unfold ltb, of_nat. rewrite compare_of_Z by lia.
  destruct (Nat.ltb_spec a b) as [Hlt | Hge];
    destruct (Z.compare_spec (Z.of_nat a) (Z.of_nat b)); try reflexivity; lia.
Qed.
End NumberFacts.

(* ===================================================================== *)
(** * Proofs: strings and the wallet *)
(* ===================================================================== *)

Module StringFacts.
Import JsString.
Open Scope string_scope.

(** Closed facts are settled by evaluating both sides. *)
Ltac by_evaluation :=
  repeat match goal with |- _ /\ _ => split end; vm_compute; reflexivity.

Ltac by_cases_on_char c :=
  destruct c as [[] [] [] [] [] [] [] []]; vm_compute; try reflexivity; try discriminate.

Lemma lower_upper_char (c : ascii) : lower_char (upper_char c) = lower_char c.
Proof. by_cases_on_char c. Qed.

Lemma upper_upper_char (c : ascii) : upper_char (upper_char c) = upper_char c.
Proof. by_cases_on_char c. Qed.

Lemma lower_lower_char (c : ascii) : lower_char (lower_char c) = lower_char c.
Proof. by_cases_on_char c. Qed.

Lemma upper_lower_char (c : ascii) : upper_char (lower_char c) = upper_char c.
Proof. by_cases_on_char c. Qed.

Lemma is_hex_upper_char (c : ascii) : is_hex c = true -> is_hex (upper_char c) = true.
Proof. by_cases_on_char c. Qed.

Lemma is_hex_lower_char (c : ascii) : is_hex c = true -> is_hex (lower_char c) = true.
Proof. by_cases_on_char c. Qed.

Lemma append_length (a b : string) :
  String.length (a ++ b) = (String.length a + String.length b)%nat.
Proof. induction a as [| c a IH]; simpl; [reflexivity | rewrite IH; reflexivity]. Qed.

Lemma substring_all (a : string) : substring 0 (String.length a) a = a.
Proof. induction a as [| c a IH]; simpl; [reflexivity | rewrite IH; reflexivity]. Qed.

Lemma substring_append_left (a b : string) :
  substring 0 (String.length a) (a ++ b) = a.
Proof.
  induction a as [| c a IH]; simpl.
  - destruct b; reflexivity.
  - rewrite IH. reflexivity.
Qed.

Lemma substring_append_skip (a b : string) (n m : nat) :
  substring (String.length a + n) m (a ++ b) = substring n m b.
Proof. induction a as [| c a IH]; simpl; [reflexivity | exact IH]. Qed.

Lemma slice_from_append (a b : string) :
  slice_from (String.length a) (a ++ b) = b.
Proof.
  induction a as [| c a IH]; simpl; [destruct b; reflexivity | exact IH].
Qed.

Lemma map_chars_length (f : ascii -> ascii) (s : string) :
  String.length (map_chars f s) = String.length s.
Proof. induction s as [| c s IH]; simpl; [reflexivity | rewrite IH; reflexivity]. Qed.

Lemma substring_prefix_length (n : nat) :
  forall t, (n <= String.length t)%nat -> String.length (substring 0 n t) = n.
Proof.
  induction n as [| n IH]; intros [| c t] Hlen; simpl in *; try reflexivity; try lia.
  rewrite IH by lia. reflexivity.
Qed.

(** The three fields of a 130-character signature. *)
Lemma slice_signature_r (r t : string) :
  String.length r = 64%nat -> slice 0 64 (r ++ t) = r.
Proof.
  intros Hr. unfold slice. change (64 - 0)%nat with 64%nat.
  rewrite <- Hr. apply substring_append_left.
Qed.

Lemma slice_signature_s (r s t : string) :
  String.length r = 64%nat -> String.length s = 64%nat ->
  slice 64 128 (r ++ s ++ t) = s.
Proof.
  intros Hr Hs. unfold slice. change (128 - 64)%nat with 64%nat.
  replace 64%nat with (String.length r + 0)%nat at 1 by lia.
  rewrite substring_append_skip, <- Hs. apply substring_append_left.
Qed.

Lemma slice_signature_v (r s i : string) :
  String.length r = 64%nat -> String.length s = 64%nat -> String.length i = 2%nat ->
  slice 128 130 (r ++ s ++ i) = i.
Proof.
  intros Hr Hs Hi. unfold slice. change (130 - 128)%nat with 2%nat.
  replace 128%nat with (String.length r + 64)%nat by lia.
  rewrite substring_append_skip.
  replace 64%nat with (String.length s + 0)%nat by lia.
  rewrite substring_append_skip, <- Hi. apply substring_all.
Qed.


Lemma parseInt16_recovery_param (v : nat) :
  (v < 4)%nat ->
  String.length (padStart2 (hex_of_nat v)) = 2%nat /\
  parseInt16 (padStart2 (hex_of_nat v)) = Some (Z.of_nat v).
Proof.
  intros Hv.
  assert (v = 0 \/ v = 1 \/ v = 2 \/ v = 3)%nat as [-> | [-> | [-> | ->]]] by lia;
    split; reflexivity.
Qed.
End StringFacts.

Module WalletProofs.
Import JsString Wallet StringFacts.
Open Scope string_scope.

Section WithLib.
Context `{lib : CryptoLib}.

Lemma checksum_loop_lower (h : string) (addr : string) :
  forall i, toLowerCase (checksum_loop h i addr) = toLowerCase addr.
Proof.
  induction addr as [| c rest IH]; intros i; cbn; [reflexivity |].
  rewrite IH. f_equal.
  destruct (nibble_ge_8 h i); [apply lower_upper_char | reflexivity].
Qed.

Lemma checksum_loop_idem (h : string) (addr : string) :
  forall i, checksum_loop h i (checksum_loop h i addr) = checksum_loop h i addr.
Proof.
  induction addr as [| c rest IH]; intros i; cbn; [reflexivity |].
  rewrite IH. f_equal.
  destruct (nibble_ge_8 h i) eqn:E; [apply upper_upper_char | reflexivity].
Qed.

Lemma checksum_loop_length (h : string) (addr : string) :
  forall i, String.length (checksum_loop h i addr) = String.length addr.
Proof.
  induction addr as [| c rest IH]; intros i; cbn; [reflexivity |].
  rewrite IH. reflexivity.
Qed.

Lemma checksum_loop_hex (h : string) (addr : string) :
  forall i, all_chars is_hex addr = true ->
            all_chars is_hex (checksum_loop h i addr) = true.
Proof.
  induction addr as [| c rest IH]; intros i; cbn; [reflexivity |].
  intros [Hc Hrest]%andb_prop.
  rewrite IH by assumption.
  destruct (nibble_ge_8 h i); [rewrite is_hex_upper_char by assumption | rewrite Hc];
    reflexivity.
Qed.

Lemma generateChecksumAddress_body (address : string) :
  slice_from 3 (generateChecksumAddress address)
  = checksum_loop (keccak256 (toLowerCase (slice_from 3 address))) 0
                  (slice_from 3 address).
Proof. reflexivity. Qed.

(** Idempotence holds for every string of the model. *)
Lemma generateChecksumAddress_idem (address : string) :
  generateChecksumAddress (generateChecksumAddress address)
  = generateChecksumAddress address.
Proof.
  unfold generateChecksumAddress at 1.
  rewrite generateChecksumAddress_body, checksum_loop_lower, checksum_loop_idem.
  reflexivity.
Qed.

Lemma address_regex_inv (address : string) :
  address_regex address = true ->
  exists body, address = "xe_" ++ body /\
               String.length body = 40%nat /\ all_chars is_hex body = true.
Proof.
  unfold address_regex.
  destruct address as [| c0 [| c1 [| c2 body]]]; try discriminate;
    try (destruct c0 as [[] [] [] [] [] [] [] []]; discriminate).
  - destruct c0 as [[] [] [] [] [] [] [] []]; try discriminate;
      destruct c1 as [[] [] [] [] [] [] [] []]; discriminate.
  - destruct c0 as [[] [] [] [] [] [] [] []]; try discriminate;
      destruct c1 as [[] [] [] [] [] [] [] []]; try discriminate;
      destruct c2 as [[] [] [] [] [] [] [] []]; try discriminate.
    intros [Hlen Hhex]%andb_prop. apply Nat.eqb_eq in Hlen.
    exists body. auto.
Qed.

Lemma generateChecksumAddress_regex (address : string) :
  address_regex address = true ->
  address_regex (generateChecksumAddress address) = true.
Proof.
  intros (body & -> & Hlen & Hhex)%address_regex_inv.
  unfold generateChecksumAddress. simpl.
  repeat match goal with
         | |- context [append EmptyString ?x] => change (append EmptyString x) with x
         end.
  rewrite checksum_loop_length, Hlen, checksum_loop_hex by assumption.
  reflexivity.
Qed.

(** X3: whatever [keccak256] is, the checksummed form of every
    well-formed address passes [checksumAddressIsValid] (first half of
    the checksum-validation law). *)
Lemma checksumAddressIsValid_generate (address : string) :
  address_regex address = true ->
  checksumAddressIsValid (generateChecksumAddress address) = true.
Proof.
  intros Hre. unfold checksumAddressIsValid.
  rewrite generateChecksumAddress_regex by assumption.
  rewrite generateChecksumAddress_idem, String.eqb_refl. reflexivity.
Qed.

Lemma checksum_loop_upper (h : string) (addr : string) :
  forall i, checksum_loop h i (toUpperCase addr) = toUpperCase addr.
Proof.
  unfold toUpperCase. induction addr as [| c rest IH]; intros i; simpl; [reflexivity |].
  rewrite IH. f_equal.
  destruct (nibble_ge_8 h i); [apply upper_upper_char | reflexivity].
Qed.

Lemma all_chars_hex_upper (addr : string) :
  all_chars is_hex addr = true -> all_chars is_hex (toUpperCase addr) = true.
Proof.
  unfold toUpperCase. induction addr as [| c rest IH]; simpl; [reflexivity |].
  intros [Hc Hrest]%andb_prop.
  rewrite is_hex_upper_char, IH by assumption. reflexivity.
Qed.

(** X2: The defect behind C3 and C4, whatever the hash: the [else] branch
    keeps an upper-case character, so the upper-cased form of every
    well-formed address passes validation. *)
Lemma checksumAddressIsValid_upper_case (address : string) :
  address_regex address = true ->
  checksumAddressIsValid ("xe_" ++ toUpperCase (slice_from 3 address)) = true.
Proof.
  intros (body & -> & Hlen & Hhex)%address_regex_inv.
  change (slice_from 3 ("xe_" ++ body)) with body.
  unfold checksumAddressIsValid, generateChecksumAddress.
  change (slice_from 3 ("xe_" ++ toUpperCase body)) with (toUpperCase body).
  rewrite checksum_loop_upper, String.eqb_refl.
  change (address_regex ("xe_" ++ toUpperCase body))
    with ((String.length (toUpperCase body) =? 40)%nat
          && all_chars is_hex (toUpperCase body)).
  unfold toUpperCase at 1. rewrite map_chars_length, Hlen.
  rewrite all_chars_hex_upper by assumption. reflexivity.
Qed.

(** On a lower-case body, which is what [publicKeyToChecksumAddress]
    passes, the code computes the checksum of the specification. *)
Lemma checksum_loop_spec_on_lower (h : string) (addr : string) :
  forall i, toLowerCase addr = addr ->
            checksum_loop h i addr = checksum_spec_loop h i addr.
Proof.
  unfold toLowerCase.
  induction addr as [| c rest IH]; intros i Hlow; simpl; [reflexivity |].
  simpl in Hlow. injection Hlow as Hc Hrest.
  rewrite IH by assumption. rewrite Hc. reflexivity.
Qed.

Lemma generateChecksumAddress_spec_on_lower (address : string) :
  toLowerCase (slice_from 3 address) = slice_from 3 address ->
  generateChecksumAddress address = checksum_spec address.
Proof.
  intros Hlow. unfold generateChecksumAddress, checksum_spec.
  rewrite checksum_loop_spec_on_lower by assumption. reflexivity.
Qed.

(** Character [j] of the body the code returns. *)
Lemma checksum_loop_char (h : string) (addr : string) :
  forall i j,
    char_at (checksum_loop h i addr) j
    = match char_at addr j with
      | Some c => Some (if nibble_ge_8 h (i + j) then upper_char c else c)
      | None => None
      end.
Proof.
  unfold char_at.
  induction addr as [| c rest IH]; intros i j; simpl.
  - destruct j; reflexivity.
  - destruct j as [| j]; simpl.
    + rewrite Nat.add_0_r. reflexivity.
    + rewrite IH.
      replace (S i + j)%nat with (i + S j)%nat by lia. reflexivity.
Qed.

(** Signing then recovering, given what elliptic promises. *)
Lemma recover_generateSignature (k pk m : string) :
  sign_recover_contract ->
  ec_getPublic k = Some pk ->
  exists signature,
    generateSignature k m = Some signature /\
    recoverPublicKeyFromSignedMessage m signature = Some pk.
Proof.
  intros Hlib Hpk.
  destruct (Hlib k pk (SHA256 m) Hpk) as (sg & v & Hsign & Hr & Hs & Hv & Hlt & Hrec).
  unfold generateSignature. rewrite Hsign, Hv.
  eexists; split; [reflexivity |].
  destruct (parseInt16_recovery_param v Hlt) as [Hlen Hparse].
  unfold recoverPublicKeyFromSignedMessage.
  rewrite slice_signature_r, slice_signature_s, slice_signature_v, Hparse by assumption.
  exact Hrec.
Qed.
End WithLib.

(** C9: the checksum is idempotent on every well-formed address (whatever
    [keccak256] is). *)
Theorem C9_checksum_idempotent `{lib : CryptoLib} (a : string) :
  address_regex a = true ->
  generateChecksumAddress (generateChecksumAddress a) = generateChecksumAddress a.
Proof.
  intros (body & -> & _ & _)%address_regex_inv.
  unfold generateChecksumAddress.
  change (slice_from 3 ("xe_" ++ body)) with body.
  change (slice_from 3 ("xe_" ++ ?x)) with x.
  (* second pass: same hash, and every decision repeats *)
  rewrite checksum_loop_lower, checksum_loop_idem. reflexivity.
Qed.

Lemma C9_checksum_idempotent_witness :
  address_regex "xe_8aa709f6d8b0dcdd680a22c16224c2b3c7ad1841" = true /\
  generateChecksumAddress (lib := Reference.ref_crypto)
    (generateChecksumAddress (lib := Reference.ref_crypto)
       "xe_8aa709f6d8b0dcdd680a22c16224c2b3c7ad1841")
  = generateChecksumAddress (lib := Reference.ref_crypto)
      "xe_8aa709f6d8b0dcdd680a22c16224c2b3c7ad1841".
Proof.
  split; [reflexivity |].
  apply (C9_checksum_idempotent (lib := Reference.ref_crypto)). reflexivity.
Defined.

Lemma checksumAddressIsValid_upper_case_witness :
  address_regex "xe_8aa709f6d8b0dcdd680a22c16224c2b3c7ad1841" = true /\
  checksumAddressIsValid (lib := Reference.ref_crypto)
    ("xe_" ++ toUpperCase (slice_from 3 "xe_8aa709f6d8b0dcdd680a22c16224c2b3c7ad1841"))
  = true.
Proof.
  split; [reflexivity |].
  exact (checksumAddressIsValid_upper_case (lib := Reference.ref_crypto)
           "xe_8aa709f6d8b0dcdd680a22c16224c2b3c7ad1841" eq_refl).
Defined.

Lemma checksumAddressIsValid_generate_witness :
  address_regex "xe_8aa709f6d8b0dcdd680a22c16224c2b3c7ad1841" = true /\
  checksumAddressIsValid (lib := Reference.ref_crypto)
    (generateChecksumAddress (lib := Reference.ref_crypto)
       "xe_8aa709f6d8b0dcdd680a22c16224c2b3c7ad1841")
  = true.
Proof.
  split; [reflexivity |].
  exact (checksumAddressIsValid_generate (lib := Reference.ref_crypto)
           "xe_8aa709f6d8b0dcdd680a22c16224c2b3c7ad1841" eq_refl).
Defined.

(** C3 at a failing input (with the real Keccak-256): the checksummed
    form of [xe_aaaa...a] starts with a lower-case [a] because the first
    hash digit is 4; flipping that one letter to upper case gives a
    different address that [checksumAddressIsValid] still accepts. *)
Lemma C3_flipped_letter_still_valid :
  generateChecksumAddress (lib := Reference.ref_crypto)
    "xe_aaaaaaaaaaaaaaaaaaaaaaaaaaaaaaaaaaaaaaaa"
  = "xe_aAaAaAaaAaAaAaaAaAAAAAAAAaaaAaAaAaaAaaAa" /\
  checksumAddressIsValid (lib := Reference.ref_crypto)
    "xe_aAaAaAaaAaAaAaaAaAAAAAAAAaaaAaAaAaaAaaAa" = true /\
  flip_case_at 0 "xe_aAaAaAaaAaAaAaaAaAAAAAAAAaaaAaAaAaaAaaAa"
  = "xe_AAaAaAaaAaAaAaaAaAAAAAAAAaaaAaAaAaaAaaAa" /\
  checksumAddressIsValid (lib := Reference.ref_crypto)
    "xe_AAaAaAaaAaAaAaaAaAAAAAAAAaaaAaAaAaaAaaAa" = true.
Proof. by_evaluation. Qed.

(** C4 at a failing input (with the real Keccak-256): on the upper-case
    body [AAAA...A] the code returns the input unchanged, although the
    hash digits at positions 0, 2, 4, ... are below 8 and the checksum of
    the specification has lower-case letters there. *)
Lemma C4_upper_case_input_kept :
  generateChecksumAddress (lib := Reference.ref_crypto)
    "xe_AAAAAAAAAAAAAAAAAAAAAAAAAAAAAAAAAAAAAAAA"
  = "xe_AAAAAAAAAAAAAAAAAAAAAAAAAAAAAAAAAAAAAAAA" /\
  checksum_spec (lib := Reference.ref_crypto)
    "xe_AAAAAAAAAAAAAAAAAAAAAAAAAAAAAAAAAAAAAAAA"
  = "xe_aAaAaAaaAaAaAaaAaAAAAAAAAaaaAaAaAaaAaaAa" /\
  nibble_ge_8 (Keccak.keccak256 "aaaaaaaaaaaaaaaaaaaaaaaaaaaaaaaaaaaaaaaa") 0 = false.
Proof. by_evaluation. Qed.

(** The reference signer keeps elliptic's promise. *)
Lemma fit64_length (s : string) : String.length (Reference.fit64 s) = 64%nat.
Proof.
  unfold Reference.fit64. apply substring_prefix_length.
  rewrite append_length.
  change (String.length (JsString.repeat "0" 64)) with 64%nat. lia.
Qed.

Lemma reference_sign_recover_contract :
  sign_recover_contract (lib := Reference.ref_crypto).
Proof.
  intros k pk digest Hpk.
  change (Reference.ref_getPublic k = Some pk) in Hpk.
  unfold Reference.ref_getPublic in Hpk. injection Hpk as <-.
  exists {| sig_r := Reference.commitment (Reference.public_body k) digest;
            sig_s := Reference.public_body k;
            recoveryParam := Some O |}, O.
  cbn [sig_r sig_s recoveryParam].
  split; [reflexivity |].
  split; [apply fit64_length |].
  split; [apply fit64_length |].
  split; [reflexivity |].
  split; [lia |].
  change (Reference.ref_recoverPubKey digest
            (Reference.commitment (Reference.public_body k) digest)
            (Reference.public_body k) (Some 0%Z)
          = Some ("02" ++ Reference.public_body k)).
  unfold Reference.ref_recoverPubKey.
  change ((0 <=? 0) && (0 <=? 3))%Z with true. cbv iota.
  rewrite String.eqb_refl. reflexivity.
Qed.



End WalletProofs.

(* ===================================================================== *)
(** * Proofs: verifyIdentity *)
(* ===================================================================== *)

Module VerifyProofs.
Import JsNumber JsString JsValue Wallet Difficulty IdentityLib.
Import StringFacts NumberFacts.
Open Scope string_scope.

(** ** Array indices print as distinct keys *)

Lemma decimal_inj (a b : nat) : decimal a = decimal b -> a = b.
Proof.
  unfold decimal, decimal_N. intros H.
  assert (Hu : N.to_uint (N.of_nat a) = N.to_uint (N.of_nat b)).
  { apply (f_equal NilEmpty.uint_of_string) in H.
    rewrite !NilEmpty.usu in H. congruence. }
  apply (f_equal N.of_uint) in Hu.
  rewrite !DecimalN.Unsigned.of_to in Hu. lia.
Qed.

#[local] Instance decimal_Inj : Inj eq eq decimal.
Proof. intros a b. apply decimal_inj. Qed.

Lemma get_past_end (s : string) : String.get (String.length s) s = None.
Proof. induction s as [| c s IH]; simpl; [reflexivity | exact IH]. Qed.

Lemma lookup_defined (key : string) (props : list (string * value)) (sig : string) :
  lookup key props = JStr sig -> key ∈ props.*1.
Proof.
  induction props as [| [k v] rest IH]; simpl; [discriminate |].
  destruct (String.eqb_spec k key) as [-> | Hne]; intros H.
  - apply list_elem_of_here.
  - apply list_elem_of_further, IH, H.
Qed.

(** [s[j]] cannot be a string at every index up to [steps_bound s]: an
    array or a string ends, and a plain object has only so many keys. *)
Lemma strings_run_out (s : value) :
  (forall j, (j <= steps_bound s)%nat -> exists sig, get_index s j = Some (JStr sig)) ->
  False.
Proof.
  intros Hall. destruct s as [| | b | x | str | elems | props]; simpl in Hall.
  - destruct (Hall O ltac:(lia)) as [sig H]. discriminate.
  - destruct (Hall O ltac:(lia)) as [sig H]. discriminate.
  - destruct (Hall O ltac:(lia)) as [sig H]. discriminate.
  - destruct (Hall O ltac:(lia)) as [sig H]. discriminate.
  - destruct (Hall (String.length str) ltac:(lia)) as [sig H].
    unfold char_at in H. rewrite get_past_end in H. discriminate.
  - destruct (Hall (List.length elems) ltac:(lia)) as [sig H].
    rewrite nth_overflow in H by lia. discriminate.
  - set (n := List.length props) in *.
    assert (Hsub : decimal <$> seq 0 (S n) ⊆+ props.*1).
    { apply NoDup_submseteq.
      - apply (NoDup_fmap_2 decimal), NoDup_seq.
      - intros key (j & -> & Hj)%list_elem_of_fmap.
        apply elem_of_seq in Hj.
        destruct (Hall j ltac:(lia)) as [sig H]. injection H as H.
        eapply lookup_defined, H. }
    apply submseteq_length in Hsub.
    rewrite !length_fmap, length_seq in Hsub. unfold n in Hsub. lia.
Qed.

Section WithRuntime.
Context `{rt : Runtime}.

(** ** Totality *)

Lemma verify_loop_finishes (address timestamp s c challenges : value) :
  forall fuel i,
    (fuel + i = S (steps_bound s))%nat ->
    (forall j, (j < i)%nat -> exists sig, get_index s j = Some (JStr sig)) ->
    exists b, settle (verify_loop fuel address timestamp s c challenges i) = Resolved b.
Proof.
  induction fuel as [| fuel IH]; intros i Hfuel Hseen.
  - exfalso. apply (strings_run_out s). intros j Hj. apply Hseen. lia.
  - cbn [verify_loop].
    destruct (to_number challenges) as [bound |]; [| eexists; reflexivity].
    destruct (negb (ltb (of_nat i) bound)); [eexists; reflexivity |].
    destruct (get_index s i) as [[| | | | signature | |] |] eqn:Hsi;
      try (eexists; reflexivity).
    destruct (get_index c i) as [solution |]; [| eexists; reflexivity].
    destruct (negb (startsWith signature _)); [eexists; reflexivity |].
    destruct (link_message address timestamp s i) as [message |];
      [| eexists; reflexivity].
    destruct (argon2idHash message _) as [seed |]; [| eexists; reflexivity].
    destruct (to_string solution) as [text |]; [| eexists; reflexivity].
    destruct (verifySignatureAddress _ signature address) as [[|] |];
      try (eexists; reflexivity).
    apply IH; [lia |].
    intros j Hj. destruct (Nat.eq_dec j i) as [-> | Hne].
    + exists signature. exact Hsi.
    + apply Hseen. lia.
Qed.

(** ** A falsy timestamp *)

Lemma verifyIdentity_falsy_timestamp (identity timestamp : value) :
  get_named identity "timestamp" = Some timestamp ->
  to_boolean timestamp = false ->
  verifyIdentity identity = Resolved false.
Proof.
  intros Hts Hfalsy. unfold verifyIdentity, verify_body. rewrite Hts.
  destruct (get_named identity "address") as [address |]; [| reflexivity].
  destruct (get_named identity "s") as [s |]; [| reflexivity].
  destruct (get_named identity "c") as [c |]; [| reflexivity].
  destruct (get_length s) as [challenges |]; [| reflexivity].
  destruct (negb (to_boolean s)); [reflexivity |].
  destruct (negb (to_boolean c)); [reflexivity |].
  rewrite Hfalsy. reflexivity.
Qed.

(** ** Identities with an array of strings and an array of numbers *)

Lemma nth_map_lookup {A : Type} (f : A -> value) (l : list A) (i : nat) :
  nth i (map f l) JUndefined
  = match l !! i with Some x => f x | None => JUndefined end.
Proof.
  revert i. induction l as [| x l IH]; intros [| i]; simpl; try reflexivity.
  apply IH.
Qed.

Lemma verify_loop_typed (p : PublicIdentity) :
  List.length (pi_s p) = List.length (pi_c p) ->
  (Z.of_nat (List.length (pi_s p)) < 2 ^ 32)%Z ->
  forall k i fuel,
    (i + k = List.length (pi_s p))%nat -> (k < fuel)%nat ->
    settle (verify_loop fuel (JStr (pi_address p)) (JNum (pi_timestamp p))
                        (JArr (map JStr (pi_s p))) (JArr (map JNum (pi_c p)))
                        (JNum (of_nat (List.length (pi_s p)))) i)
    = Resolved (forallb (link_check p) (seq i k)).
Proof.
  intros Hlen Hsize.
  assert (Hpow : (2 ^ 32 < 2 ^ 53)%Z) by reflexivity.
  induction k as [| k IH]; intros i fuel Hik Hfuel;
    (destruct fuel as [| fuel]; [lia |]); cbn [verify_loop to_number].
  - rewrite ltb_of_nat by lia.
    replace (i <? List.length (pi_s p))%nat with false
      by (symmetry; apply Nat.ltb_ge; lia).
    reflexivity.
  - rewrite ltb_of_nat by lia.
    replace (i <? List.length (pi_s p))%nat with true
      by (symmetry; apply Nat.ltb_lt; lia).
    cbn [negb get_index seq forallb]. rewrite !nth_map_lookup.
    unfold link_check at 1.
    destruct (lookup_lt_is_Some_2 (pi_s p) i ltac:(lia)) as [signature Hsig].
    destruct (lookup_lt_is_Some_2 (pi_c p) i ltac:(lia)) as [solution Hsol].
    rewrite Hsig, Hsol.
    destruct (startsWith signature (JsString.repeat "0" (difficulty i)));
      [| reflexivity].
    cbn [negb andb].
    assert (Hmsg : link_message (JStr (pi_address p)) (JNum (pi_timestamp p))
                                (JArr (map JStr (pi_s p))) i
                   = option_map JStr
                       match i with
                       | O => Some (pi_address p ++ ":" ++ number_to_string (pi_timestamp p))
                       | S j => pi_s p !! j
                       end).
    { destruct i as [| j]; [reflexivity |].
      cbn [link_message get_index]. rewrite nth_map_lookup.
      destruct (lookup_lt_is_Some_2 (pi_s p) j ltac:(lia)) as [previous Hprev].
      rewrite Hprev. reflexivity. }
    rewrite Hmsg.
    destruct (match i with
              | O => Some (pi_address p ++ ":" ++ number_to_string (pi_timestamp p))
              | S j => pi_s p !! j
              end) as [message |]; [| reflexivity].
    cbn [option_map].
    destruct (argon2idHash (JStr message) ("xe-challenge-" ++ decimal i)) as [seed |];
      [| reflexivity].
    cbn [to_string].
    destruct (verifySignatureAddress (hex_of_bytes seed ++ number_to_string solution)
                                     signature (JStr (pi_address p))) as [[|] |];
      try reflexivity.
    cbn [andb]. apply IH; lia.
Qed.

(** [verifyIdentity] on such an identity is [chain_valid]. *)
Lemma verifyIdentity_to_value (p : PublicIdentity) :
  array_sized p ->
  verifyIdentity (to_value p) = Resolved (chain_valid p).
Proof.
  intros [Hs Hc].
  assert (Hpow : (2 ^ 32 < 2 ^ 53)%Z) by reflexivity.
  unfold verifyIdentity, verify_body, chain_valid.
  change (get_named (to_value p) "address") with (Some (JStr (pi_address p))).
  change (get_named (to_value p) "timestamp") with (Some (JNum (pi_timestamp p))).
  change (get_named (to_value p) "s") with (Some (JArr (map JStr (pi_s p)))).
  change (get_named (to_value p) "c") with (Some (JArr (map JNum (pi_c p)))).
  cbn [get_length to_boolean negb steps_bound strict_eq].
  rewrite !length_map.
  destruct (negb (is_zero (pi_timestamp p) || is_nan (pi_timestamp p))); [| reflexivity].
  cbn [negb andb].
  rewrite eqb_of_nat by lia.
  destruct (Nat.eqb_spec (List.length (pi_s p)) (List.length (pi_c p))) as [Hlen | Hlen];
    [| reflexivity].
  cbn [negb andb].
  change (of_Z 0) with (of_nat 0). rewrite eqb_of_nat by lia.
  destruct (Nat.eqb_spec (List.length (pi_s p)) 0) as [Hz | Hnz]; [reflexivity |].
  cbn [negb andb].
  apply verify_loop_typed; try assumption; lia.
Qed.

(** ** Tampering with one field *)

Lemma forallb_seq_except (f : nat -> bool) (n : nat) (J : list nat) :
  (forall i, (i < n)%nat -> i ∉ J -> f i = true) ->
  (forall i, i ∈ J -> (n <= i)%nat -> f i = true) ->
  forallb f (seq 0 n) = forallb f J.
Proof.
  intros Hrest Hpast.
  apply eq_true_iff_eq. rewrite !forallb_forall. split.
  - intros Hall i Hi%list_elem_of_In.
    destruct (Nat.lt_ge_cases i n) as [Hlt | Hge].
    + apply Hall, in_seq. lia.
    + apply Hpast; assumption.
  - intros HJ i [_ Hi]%in_seq. simpl in Hi.
    destruct (decide (i ∈ J)) as [Hin | Hnot].
    + apply HJ, list_elem_of_In, Hin.
    + apply Hrest; assumption.
Qed.

Lemma chain_valid_links (p : PublicIdentity) (i : nat) :
  chain_valid p = true -> link_check p i = true.
Proof.
  unfold chain_valid. intros [[[_ _]%andb_prop _]%andb_prop Hall]%andb_prop.
  destruct (Nat.lt_ge_cases i (List.length (pi_s p))) as [Hlt | Hge].
  - rewrite forallb_forall in Hall. apply Hall, in_seq. lia.
  - unfold link_check. rewrite (lookup_ge_None_2 (pi_s p) i) by lia. reflexivity.
Qed.

Lemma chain_valid_guard (p : PublicIdentity) :
  chain_valid p = true ->
  to_boolean (JNum (pi_timestamp p)) = true /\
  List.length (pi_s p) = List.length (pi_c p) /\ List.length (pi_s p) <> O.
Proof.
  unfold chain_valid.
  intros [[[Hts Hlen%Nat.eqb_eq]%andb_prop Hnz%negb_true_iff]%andb_prop _]%andb_prop.
  apply Nat.eqb_neq in Hnz. auto.
Qed.

(** A changed address fails the signature check of every later link,
    whose message and signature are unchanged. *)
Lemma tampered_address_detected (p : PublicIdentity) (a' : string) :
  chain_valid p = true ->
  String.eqb a' (pi_address p) = false ->
  (2 <= List.length (pi_s p))%nat ->
  chain_valid (set_address p a') = false.
Proof.
  intros Hvalid Hne Htwo.
  destruct (chain_valid_guard p Hvalid) as (_ & Hlen & _).
  pose proof (chain_valid_links p 1 Hvalid) as H1.
  assert (Hbad : link_check (set_address p a') 1 = false).
  { unfold link_check in *. cbn [set_address pi_s pi_c pi_address] in *.
    destruct (pi_s p !! 1%nat) as [signature |] eqn:Hsig;
      [| apply lookup_ge_None_1 in Hsig; lia].
    destruct (pi_c p !! 1%nat) as [solution |] eqn:Hsol;
      [| apply lookup_ge_None_1 in Hsol; lia].
    destruct (startsWith signature _); [| discriminate].
    cbn [andb] in *.
    destruct (pi_s p !! 0%nat) as [message |]; [| discriminate].
    destruct (argon2idHash (JStr message) _) as [seed |]; [| discriminate].
    unfold verifySignatureAddress in *.
    destruct (recoverPublicKeyFromSignedMessage _ signature) as [publicKey |];
      [| reflexivity].
    cbn [strict_eq] in *.
    destruct (String.eqb_spec (pi_address p) (publicKeyToChecksumAddress publicKey))
      as [<- | ?]; [| discriminate].
    rewrite Hne. reflexivity. }
  unfold chain_valid. cbn [set_address pi_s pi_c pi_timestamp].
  apply andb_false_iff. right.
  apply not_true_is_false. intros Hall.
  rewrite forallb_forall in Hall.
  specialize (Hall 1%nat ltac:(apply in_seq; lia)). congruence.
Qed.

Lemma tampered_signature_check (p : PublicIdentity) (j : nat) (y : string) :
  chain_valid p = true ->
  chain_valid (set_signature p j y)
  = link_check (set_signature p j y) j && link_check (set_signature p j y) (S j).
Proof.
  intros Hvalid.
  destruct (chain_valid_guard p Hvalid) as (Hts & Hlen & Hnz).
  unfold chain_valid. cbn [set_signature pi_s pi_c pi_timestamp].
  rewrite Hts, length_insert, <- Hlen, Nat.eqb_refl.
  replace (List.length (pi_s p) =? 0)%nat with false
    by (symmetry; apply Nat.eqb_neq; assumption).
  cbn [negb andb].
  rewrite (forallb_seq_except _ _ [j; S j]).
  - cbn [forallb]. rewrite andb_true_r. reflexivity.
  - intros i Hi Hnot.
    assert (i <> j) by (intros ->; apply Hnot; left).
    assert (i <> S j) by (intros ->; apply Hnot; right; left).
    rewrite <- (chain_valid_links p i Hvalid).
    unfold link_check. cbn [set_signature pi_s pi_c pi_address pi_timestamp].
    rewrite list_lookup_insert_ne by congruence.
    destruct i as [| i]; [reflexivity |].
    rewrite (list_lookup_insert_ne (pi_s p) j i) by congruence. reflexivity.
  - intros i Hi Hge. unfold link_check. cbn [set_signature pi_s].
    rewrite (lookup_ge_None_2 (<[j:=y]> (pi_s p)) i)
      by (rewrite length_insert; lia).
    reflexivity.
Qed.

(** *** What the checks do not see

    [recoverPublicKeyFromSignedMessage] reads the first 130 characters
    of a signature and [startsWith] its first few, so characters
    appended to the last signature of a valid chain change nothing. *)
Lemma substring_append_within (a b : string) :
  forall n m, (n + m <= String.length a)%nat ->
              substring n m (a ++ b) = substring n m a.
Proof.
  induction a as [| ch a IH]; intros n m Hlen; simpl in Hlen.
  - assert (n = O) by lia. assert (m = O) by lia. subst.
    destruct b; reflexivity.
  - destruct n as [| n]; destruct m as [| m]; simpl; try reflexivity.
    + rewrite (IH O m) by lia. reflexivity.
    + apply IH. lia.
    + apply IH. lia.
Qed.

Lemma prefix_append (t a b : string) :
  String.prefix t a = true -> String.prefix t (a ++ b) = true.
Proof.
  revert a. induction t as [| ch t IH]; intros a H.
  - destruct (a ++ b); reflexivity.
  - destruct a as [| ch' a]; simpl in *; [discriminate |].
    destruct (Ascii.ascii_dec ch ch'); [apply IH; assumption | discriminate].
Qed.

Lemma recover_ignores_trailing (msg signature extra : string) :
  (130 <= String.length signature)%nat ->
  recoverPublicKeyFromSignedMessage msg (signature ++ extra)
  = recoverPublicKeyFromSignedMessage msg signature.
Proof.
  intros Hlen. unfold recoverPublicKeyFromSignedMessage, slice.
  rewrite !substring_append_within by (simpl; lia). reflexivity.
Qed.

Lemma trailing_characters_accepted (p : PublicIdentity) (j : nat)
      (signature extra : string) :
  chain_valid p = true ->
  S j = List.length (pi_s p) ->
  pi_s p !! j = Some signature ->
  (130 <= String.length signature)%nat ->
  chain_valid (set_signature p j (signature ++ extra)) = true.
Proof.
  intros Hvalid Hlast Hsig Hlen.
  rewrite tampered_signature_check by assumption.
  pose proof (chain_valid_links p j Hvalid) as Hj.
  apply andb_true_iff. split.
  - unfold link_check in *. cbn [set_signature pi_s pi_c pi_address pi_timestamp].
    rewrite list_lookup_insert_eq by lia. rewrite Hsig in Hj.
    destruct (pi_c p !! j) as [solution |]; [| reflexivity].
    unfold startsWith in *.
    destruct (String.prefix _ signature) eqn:Hpre; [| discriminate].
    rewrite prefix_append by assumption. cbn [andb] in *.
    assert (Hmsg : match j with
                   | O => Some (pi_address p ++ ":" ++ number_to_string (pi_timestamp p))
                   | S i => <[j := signature ++ extra]> (pi_s p) !! i
                   end
                   = match j with
                     | O => Some (pi_address p ++ ":" ++ number_to_string (pi_timestamp p))
                     | S i => pi_s p !! i
                     end).
    { destruct j as [| i]; [reflexivity |].
      apply list_lookup_insert_ne. lia. }
    rewrite Hmsg.
    destruct (match j with
              | O => Some (pi_address p ++ ":" ++ number_to_string (pi_timestamp p))
              | S i => pi_s p !! i
              end) as [message |]; [| discriminate].
    destruct (argon2idHash (JStr message) _) as [seed |]; [| discriminate].
    unfold verifySignatureAddress in *.
    rewrite recover_ignores_trailing by assumption. exact Hj.
  - unfold link_check. cbn [set_signature pi_s].
    rewrite (lookup_ge_None_2 _ (S j)) by (rewrite length_insert; lia).
    reflexivity.
Qed.

Lemma array_sized_set_address (p : PublicIdentity) (a : string) :
  array_sized p -> array_sized (set_address p a).
Proof. intros H. exact H. Qed.

Lemma array_sized_set_signature (p : PublicIdentity) (j : nat) (y : string) :
  array_sized p -> array_sized (set_signature p j y).
Proof.
  intros [Hs Hc]. split; cbn [set_signature pi_s pi_c]; [| exact Hc].
  rewrite length_insert. exact Hs.
Qed.
End WithRuntime.

(** C7: on every input value [verifyIdentity] settles with a boolean: the
    one its body returns, or [false] when anything in the body throws.
    It never rejects and never stays pending. *)
Theorem C7_verifyIdentity_total `{rt : Runtime} (identity : value) :
  exists b,
    verifyIdentity identity = Resolved b /\
    (verify_body identity = Returned b \/ (verify_body identity = Thrown /\ b = false)).
Proof.
  assert (Hfin : exists b, settle (verify_body identity) = Resolved b).
  { unfold verify_body.
    destruct (get_named identity "address") as [address |]; [| eexists; reflexivity].
    destruct (get_named identity "timestamp") as [timestamp |]; [| eexists; reflexivity].
    destruct (get_named identity "s") as [s |]; [| eexists; reflexivity].
    destruct (get_named identity "c") as [c |]; [| eexists; reflexivity].
    destruct (get_length s) as [challenges |]; [| eexists; reflexivity].
    destruct (negb (to_boolean s)); [eexists; reflexivity |].
    destruct (negb (to_boolean c)); [eexists; reflexivity |].
    destruct (negb (to_boolean timestamp)); [eexists; reflexivity |].
    destruct (get_length c) as [c_length |]; [| eexists; reflexivity].
    destruct (negb (strict_eq challenges c_length)); [eexists; reflexivity |].
    destruct (strict_eq challenges (JNum (of_Z 0))); [eexists; reflexivity |].
    apply verify_loop_finishes; [lia | intros j Hj; lia]. }
  destruct Hfin as [b Hb]. exists b. unfold verifyIdentity. split; [exact Hb |].
  destruct (verify_body identity) as [b' | |]; simpl in Hb.
  - left. congruence.
  - right. split; [reflexivity | congruence].
  - discriminate.
Qed.

Lemma sample_identity_sized : array_sized Reference.sample_identity.
Proof. split; reflexivity. Qed.


Lemma sample_identity_verified :
  verifyIdentity (rt := Reference.ref_runtime) (to_value Reference.sample_identity)
  = Resolved true.
Proof. vm_compute. reflexivity. Qed.

Lemma sample_s1_length : (130 <= String.length Reference.sample_s1)%nat.
Proof. vm_compute. lia. Qed.

Lemma append_nonempty (a b : string) : b <> EmptyString -> a ++ b <> a.
Proof.
  intros Hb Heq. apply (f_equal String.length) in Heq.
  rewrite append_length in Heq.
  destruct b as [| ch b]; [apply Hb; reflexivity | simpl in Heq; lia].
Qed.

(** C1 at its failing inputs: take any identity that [verifyIdentity]
    accepts and append text to its last signature (a signature of 130
    characters or more, as the wallet makes them).  The signature has
    been tampered with, and [verifyIdentity] still answers [true]: no
    check reads past character 130 and nothing asks for the length. *)
Theorem C1_long_last_signature_accepted `{rt : Runtime} (p : PublicIdentity) (j : nat)
        (signature extra : string) :
  array_sized p ->
  verifyIdentity (to_value p) = Resolved true ->
  S j = List.length (pi_s p) ->
  pi_s p !! j = Some signature ->
  (130 <= String.length signature)%nat ->
  extra <> EmptyString ->
  pi_s (set_signature p j (signature ++ extra)) !! j <> pi_s p !! j /\
  verifyIdentity (to_value (set_signature p j (signature ++ extra))) = Resolved true.
Proof.
  intros Hsized Hverified Hlast Hsig Hlen Hextra. split.
  - cbn [set_signature pi_s]. rewrite list_lookup_insert_eq by lia. rewrite Hsig.
    intros [= Heq]. exact (append_nonempty signature extra Hextra Heq).
  - rewrite verifyIdentity_to_value in Hverified by assumption.
    injection Hverified as Hvalid.
    rewrite verifyIdentity_to_value by (apply array_sized_set_signature; assumption).
    f_equal. eapply trailing_characters_accepted; eassumption.
Qed.

Lemma C1_long_last_signature_accepted_witness :
  array_sized Reference.sample_identity /\
  verifyIdentity (rt := Reference.ref_runtime) (to_value Reference.sample_identity)
  = Resolved true /\
  pi_s Reference.sample_identity !! 1%nat = Some Reference.sample_s1 /\
  (130 <= String.length Reference.sample_s1)%nat /\
  verifyIdentity (rt := Reference.ref_runtime)
    (to_value (set_signature Reference.sample_identity 1
                 (Reference.sample_s1 ++ JsString.repeat "0" 1000)))
  = Resolved true.
Proof.
  split; [exact sample_identity_sized |].
  split; [exact sample_identity_verified |].
  split; [reflexivity |].
  split; [exact sample_s1_length |].
  exact (proj2 (C1_long_last_signature_accepted (rt := Reference.ref_runtime)
                  Reference.sample_identity 1 Reference.sample_s1
                  (JsString.repeat "0" 1000)
                  sample_identity_sized sample_identity_verified eq_refl eq_refl
                  sample_s1_length ltac:(discriminate))).
Defined.

(** X26: tampering with the address of an accepted identity of two links
    or more is detected, whatever the libraries are: link 1 signs
    [s[0]], which has not changed, so the key recovered there still
    gives the old address. *)
Theorem tampered_address_rejected `{rt : Runtime} (p : PublicIdentity) (a' : string) :
  array_sized p ->
  verifyIdentity (to_value p) = Resolved true ->
  (2 <= List.length (pi_s p))%nat ->
  a' <> pi_address p ->
  verifyIdentity (to_value (set_address p a')) = Resolved false.
Proof.
  intros Hsized Hverified Htwo Hne.
  rewrite verifyIdentity_to_value in Hverified by assumption.
  injection Hverified as Hvalid.
  rewrite verifyIdentity_to_value by (apply array_sized_set_address; assumption).
  f_equal. apply tampered_address_detected; try assumption.
  apply String.eqb_neq, Hne.
Qed.

Lemma tampered_address_rejected_witness :
  array_sized Reference.sample_identity /\
  verifyIdentity (rt := Reference.ref_runtime) (to_value Reference.sample_identity)
  = Resolved true /\
  verifyIdentity (rt := Reference.ref_runtime)
    (to_value (set_address Reference.sample_identity
                           "xe_0000111111111111111111111111111111112222"))
  = Resolved false.
Proof.
  split; [exact sample_identity_sized |].
  split; [exact sample_identity_verified |].
  exact (tampered_address_rejected (rt := Reference.ref_runtime) Reference.sample_identity
           "xe_0000111111111111111111111111111111112222"
           sample_identity_sized sample_identity_verified (le_n 2) ltac:(discriminate)).
Defined.

(** X4: for every runtime, characters appended to the last signature of
    a verified identity (130 characters or more) are not seen by any
    check: the identity still verifies. *)
Lemma appended_characters_ignored `{rt : Runtime} (p : PublicIdentity) (j : nat)
      (signature extra : string) :
  array_sized p ->
  verifyIdentity (to_value p) = Resolved true ->
  S j = List.length (pi_s p) ->
  pi_s p !! j = Some signature ->
  (130 <= String.length signature)%nat ->
  verifyIdentity (to_value (set_signature p j (signature ++ extra))) = Resolved true.
Proof.
  intros Hsized Hverified Hlast Hsig Hlen.
  rewrite verifyIdentity_to_value in Hverified by assumption.
  injection Hverified as Hvalid.
  rewrite verifyIdentity_to_value by (apply array_sized_set_signature; assumption).
  f_equal. eapply trailing_characters_accepted; eassumption.
Qed.

Lemma appended_characters_ignored_witness :
  array_sized Reference.sample_identity /\
  verifyIdentity (rt := Reference.ref_runtime) (to_value Reference.sample_identity)
  = Resolved true /\
  verifyIdentity (rt := Reference.ref_runtime)
    (to_value (set_signature Reference.sample_identity 1 (Reference.sample_s1 ++ "ff")))
  = Resolved true.
Proof.
  split; [exact sample_identity_sized |].
  split; [exact sample_identity_verified |].
  exact (appended_characters_ignored (rt := Reference.ref_runtime)
           Reference.sample_identity 1 Reference.sample_s1 "ff"
           sample_identity_sized sample_identity_verified eq_refl eq_refl
           sample_s1_length).
Defined.

(** X1: No link, no check: an object whose [s] and [c] are truthy values
    without a [length] ([true], say) passes the guard, since
    [undefined !== undefined] is false, and the loop does not run. *)
Lemma verifyIdentity_without_links `{rt : Runtime} (identity address timestamp s c : value) :
  get_named identity "address" = Some address ->
  get_named identity "timestamp" = Some timestamp ->
  get_named identity "s" = Some s ->
  get_named identity "c" = Some c ->
  to_boolean timestamp = true -> to_boolean s = true -> to_boolean c = true ->
  get_length s = Some JUndefined -> get_length c = Some JUndefined ->
  verifyIdentity identity = Resolved true.
Proof.
  intros Ha Ht Hs Hc Htt Hst Hct Hsl Hcl.
  unfold verifyIdentity, verify_body.
  rewrite Ha, Ht, Hs, Hc, Hsl, Hst, Hct, Htt, Hcl.
  cbn [negb strict_eq verify_loop to_number].
  (* 0 < undefined compares with NaN *)
  replace (ltb (of_nat 0) NaN) with false by reflexivity.
  reflexivity.
Qed.

Lemma verifyIdentity_without_links_witness :
  verifyIdentity (rt := Reference.ref_runtime)
    (JObj [ ("address", JStr "xe_0000111111111111111111111111111111112222");
            ("timestamp", JNum (of_Z 1));
            ("s", JBool true); ("c", JBool true) ])
  = Resolved true.
Proof.
  exact (verifyIdentity_without_links (rt := Reference.ref_runtime)
           (JObj [ ("address", JStr "xe_0000111111111111111111111111111111112222");
                   ("timestamp", JNum (of_Z 1));
                   ("s", JBool true); ("c", JBool true) ])
           (JStr "xe_0000111111111111111111111111111111112222")
           (JNum (of_Z 1)) (JBool true) (JBool true)
           eq_refl eq_refl eq_refl eq_refl eq_refl eq_refl eq_refl eq_refl eq_refl).
Defined.

(** C5 at its failing inputs, for every number [x] (negative, NaN,
    infinite or fractional as it may be).  First, an object whose [s] has
    no [length] and whose [c[0]] is [x] is accepted without any check.
    Second, a one-link identity with arrays is accepted with [c[0] = x]
    as soon as its signature is the key's signature of the seed followed
    by the text of [x] and starts with two zeros: [verifyIdentity] only
    concatenates [c[i]] and never asks what number it is. *)
Theorem C5_unchecked_solution_accepted `{rt : Runtime} (x : number) :
  verifyIdentity
    (JObj [ ("address", JStr "xe_0000111111111111111111111111111111112222");
            ("timestamp", JNum (of_Z 1));
            ("s", JObj nil);
            ("c", JObj [ ("0", JNum x) ]) ])
  = Resolved true /\
  (forall (k : string) (W : WalletRecord) (t : number) (seed : list Z) (signature : string),
      sign_recover_contract ->
      restoreWalletFromPrivateKey k = Some W ->
      to_boolean (JNum t) = true ->
      argon2idHash (JStr (address W ++ ":" ++ number_to_string t))
                   ("xe-challenge-" ++ decimal 0) = Some seed ->
      generateSignature k (hex_of_bytes seed ++ number_to_string x) = Some signature ->
      startsWith signature "00" = true ->
      verifyIdentity (to_value {| pi_address := address W; pi_timestamp := t;
                                  pi_s := [signature]; pi_c := [x] |})
      = Resolved true).
Proof.
  split; [reflexivity |].
  intros k W t seed signature Hlib HW Ht Hseed Hsig Hzeros.
  unfold restoreWalletFromPrivateKey in HW.
  destruct (ec_getPublic k) as [pk |] eqn:Hpk; [| discriminate].
  injection HW as <-. cbn [address] in *.
  destruct (WalletProofs.recover_generateSignature
              k pk (hex_of_bytes seed ++ number_to_string x) Hlib Hpk)
    as (signature' & Hsig' & Hrec).
  rewrite Hsig in Hsig'. injection Hsig' as <-.
  rewrite verifyIdentity_to_value by (split; reflexivity).
  f_equal. unfold chain_valid.
  cbn [pi_timestamp pi_s pi_c List.length Nat.eqb negb seq forallb andb].
  rewrite Ht. cbn [andb]. rewrite andb_true_r.
  unfold link_check. cbn [pi_s pi_c pi_address pi_timestamp].
  change ([signature] !! 0%nat) with (Some signature).
  change ([x] !! 0%nat) with (Some x).
  change (difficulty 0) with 2%nat.
  change (JsString.repeat "0" 2) with "00".
  cbv iota beta. rewrite Hzeros, Hseed. cbn [andb].
  unfold verifySignatureAddress. rewrite Hrec. cbn [strict_eq].
  rewrite String.eqb_refl. reflexivity.
Qed.

Lemma C5_unchecked_solution_accepted_witness :
  ltb (of_Z (-1)) (of_Z 0) = true /\
  verifyIdentity (rt := Reference.ref_runtime)
    (JObj [ ("address", JStr "xe_0000111111111111111111111111111111112222");
            ("timestamp", JNum (of_Z 1));
            ("s", JObj nil);
            ("c", JObj [ ("0", JNum (of_Z (-1))) ]) ])
  = Resolved true /\
  verifyIdentity (rt := Reference.ref_runtime)
    (to_value {| pi_address := address Samples.sample_wallet;
                 pi_timestamp := of_Z 1700000000612;
                 pi_s := [Reference.negative_solution_s0];
                 pi_c := [of_Z (-1)] |})
  = Resolved true.
Proof.
  split; [vm_compute; reflexivity |].
  split; [exact (proj1 (C5_unchecked_solution_accepted (rt := Reference.ref_runtime)
                          (of_Z (-1)))) |].
  assert (Hseed : exists seed,
             argon2idHash (rt := Reference.ref_runtime)
               (JStr (address Samples.sample_wallet ++ ":"
                      ++ @number_to_string (@runtime_builtins Reference.ref_runtime)
                           (of_Z 1700000000612)))
               ("xe-challenge-" ++ decimal 0)
             = Some seed /\
             generateSignature (lib := Reference.ref_crypto) Reference.sample_key
               (hex_of_bytes seed
                ++ @number_to_string (@runtime_builtins Reference.ref_runtime) (of_Z (-1)))
             = Some Reference.negative_solution_s0)
    by (eexists; split; [vm_compute; reflexivity | vm_compute; reflexivity]).
  destruct Hseed as (seed & Hseed & Hsig).
  assert (HW : restoreWalletFromPrivateKey (lib := Reference.ref_crypto)
                 Reference.sample_key = Some Samples.sample_wallet)
    by (vm_compute; reflexivity).
  assert (Ht : to_boolean (JNum (of_Z 1700000000612)) = true)
    by (vm_compute; reflexivity).
  assert (Hzeros : startsWith Reference.negative_solution_s0 "00" = true)
    by (vm_compute; reflexivity).
  exact (proj2 (C5_unchecked_solution_accepted (rt := Reference.ref_runtime) (of_Z (-1)))
           Reference.sample_key Samples.sample_wallet (of_Z 1700000000612) seed
           Reference.negative_solution_s0
           WalletProofs.reference_sign_recover_contract HW Ht Hseed Hsig Hzeros).
Defined.

(** C10: an identity whose [timestamp] is [0] (either zero) is rejected,
    whatever its other fields hold. *)
Theorem C10_zero_timestamp_rejected `{rt : Runtime} (identity : value) (sign : bool) :
  get_named identity "timestamp" = Some (JNum (S754_zero sign)) ->
  verifyIdentity identity = Resolved false.
Proof.
  intros Hts. apply (verifyIdentity_falsy_timestamp identity _ Hts). reflexivity.
Qed.

Lemma C10_zero_timestamp_rejected_witness :
  get_named (to_value (set_timestamp Reference.sample_identity (of_Z 0))) "timestamp"
  = Some (JNum (S754_zero false)) /\
  verifyIdentity (rt := Reference.ref_runtime)
    (to_value (set_timestamp Reference.sample_identity (of_Z 0)))
  = Resolved false.
Proof.
  split; [reflexivity |].
  exact (C10_zero_timestamp_rejected (rt := Reference.ref_runtime)
           (to_value (set_timestamp Reference.sample_identity (of_Z 0))) false eq_refl).
Defined.
End VerifyProofs.

(* ===================================================================== *)
(** * Proofs: Identity.addChallenge *)
(* ===================================================================== *)

Module AddChallengeProofs.
Import JsNumber JsString JsValue Wallet Difficulty IdentityLib.
Import StringFacts.
Open Scope string_scope.




Lemma sample_object_distinct :
  id_s Reference.sample_object <> id_c Reference.sample_object.
Proof. discriminate. Qed.


(** The sample object does complete, with the first link of the sample
    identity. *)
Lemma sample_object_addChallenge :
  exists h',
    addChallenge (rt := Reference.ref_runtime) 4 Reference.sample_object
                 Reference.fresh_heap = Completed h' /\
    h' !! 1%positive
    = Some {| elems := [JStr Reference.sample_s0]; extensible := true |} /\
    h' !! 2%positive = Some {| elems := [JNum (of_Z 1)]; extensible := true |}.
Proof. eexists. by_evaluation. Qed.


(** It also fails when [s] and [c] are one array: the call completes and
    that array is two elements longer. *)
Lemma aliased_arrays_grow_by_two :
  exists h',
    addChallenge (rt := Reference.ref_runtime) 4 Reference.aliased_object
                 Reference.fresh_heap = Completed h' /\
    array_length Reference.fresh_heap (id_s Reference.aliased_object) = 0%nat /\
    array_length h' (id_s Reference.aliased_object) = 2%nat /\
    array_length h' (id_c Reference.aliased_object) = 2%nat.
Proof. eexists. by_evaluation. Qed.
End AddChallengeProofs.

(* ===================================================================== *)
(** * Proofs: more of wallet.js *)
(* ===================================================================== *)

Module WalletLaws.
Import JsString JsValue Wallet Contracts StringFacts WalletProofs.
Open Scope string_scope.

Section WithLib.
Context `{lib : CryptoLib}.

Lemma all_chars_substring (p : ascii -> bool) (s : string) :
  all_chars p s = true -> forall n m, all_chars p (substring n m s) = true.
Proof.
  induction s as [| c rest IH]; intros Hall n m.
  - destruct n, m; reflexivity.
  - simpl in Hall. apply andb_prop in Hall as [Hc Hrest].
    destruct n as [| n]; simpl.
    + destruct m as [| m]; simpl; [reflexivity |].
      rewrite Hc. apply IH. assumption.
    + apply IH. assumption.
Qed.

Lemma substring_length (s : string) :
  forall n m, (n + m <= String.length s)%nat -> String.length (substring n m s) = m.
Proof.
  induction s as [| c rest IH]; intros n m Hle; simpl in Hle.
  - destruct n, m; try reflexivity; lia.
  - destruct n as [| n]; simpl.
    + destruct m as [| m]; simpl; [reflexivity |]. rewrite IH by lia. reflexivity.
    + apply IH. lia.
Qed.

(** The address a public key gets is well formed as soon as the hash is
    a digest. *)
Lemma publicKeyToChecksumAddress_regex (publicKey : string) :
  digest_text (keccak256 publicKey) ->
  address_regex (publicKeyToChecksumAddress publicKey) = true.
Proof.
  intros [Hlen Hhex]. unfold publicKeyToChecksumAddress.
  apply generateChecksumAddress_regex.
  rewrite Hlen. unfold slice.
  change (address_regex ("xe_" ++ ?b))
    with ((String.length b =? 40)%nat && all_chars is_hex b).
  rewrite substring_length by (rewrite Hlen; simpl; lia).
  rewrite all_chars_substring by assumption. reflexivity.
Qed.

Lemma address_regex_shape (address : string) :
  address_regex address = true ->
  String.length address = 43%nat /\ startsWith address "xe_" = true.
Proof.
  intros (body & -> & Hlen & _)%address_regex_inv.
  split.
  - change (String.length ("xe_" ++ body)) with (S (S (S (String.length body)))).
    rewrite Hlen. reflexivity.
  - apply (VerifyProofs.prefix_append "xe_" "xe_" body). vm_compute. reflexivity.
Qed.




(** [checksum_loop] returns its input exactly when no lower-case letter
    sits where the hash asks for upper case. *)
Lemma upper_char_fixed (c : ascii) : upper_char c = c <-> is_lower c = false.
Proof. by_cases_on_char c; split; intros H; try reflexivity; discriminate. Qed.

Lemma checksum_loop_fixed (h : string) (addr : string) :
  forall i,
    checksum_loop h i addr = addr <->
    (forall j c, char_at addr j = Some c -> nibble_ge_8 h (i + j) = true -> is_lower c = false).
Proof.
  unfold char_at.
  induction addr as [| c rest IH]; intros i; simpl.
  - split; [intros _ j c' Hget | reflexivity]. destruct j; discriminate.
  - split.
    + intros [= Hc Hrest] j c' Hget Hnib.
      destruct j as [| j]; simpl in Hget.
      * injection Hget as <-. rewrite Nat.add_0_r in Hnib. rewrite Hnib in Hc.
        apply upper_char_fixed, Hc.
      * apply (proj1 (IH (S i)) Hrest j c' Hget).
        replace (S i + j)%nat with (i + S j)%nat by lia. exact Hnib.
    + intros Hall. f_equal.
      * destruct (nibble_ge_8 h i) eqn:Hnib; [| reflexivity].
        apply upper_char_fixed, (Hall 0%nat c eq_refl).
        rewrite Nat.add_0_r. exact Hnib.
      * apply IH. intros j c' Hget Hnib.
        apply (Hall (S j) c' Hget).
        replace (i + S j)%nat with (S i + j)%nat by lia. exact Hnib.
Qed.

End WithLib.

(** X5: The wallet of a private key: the three derivations agree, and the
    address is a well-formed address that passes
    [checksumAddressIsValid] (wallet.js, lines 66-71, 78-82, 89-101). *)
Theorem restored_wallet_address_valid `{lib : CryptoLib} (k : string) (W : WalletRecord) :
  restoreWalletFromPrivateKey k = Some W ->
  digest_text (keccak256 (publicKey W)) ->
  privateKey W = k /\
  privateKeyToPublicKey k = Some (publicKey W) /\
  privateKeyToChecksumAddress k = Some (address W) /\
  String.length (address W) = 43%nat /\
  startsWith (address W) "xe_" = true /\
  checksumAddressIsValid (address W) = true.
Proof.
  unfold restoreWalletFromPrivateKey, privateKeyToChecksumAddress, privateKeyToPublicKey.
  destruct (ec_getPublic k) as [pk |]; [| discriminate].
  intros [= <-]. cbn [privateKey publicKey address]. intros Hdigest.
  pose proof (publicKeyToChecksumAddress_regex pk Hdigest) as Hre.
  destruct (address_regex_shape _ Hre) as [Hlen Hpre].
  repeat split; try assumption.
  unfold checksumAddressIsValid. rewrite Hre.
  unfold publicKeyToChecksumAddress at 2.
  rewrite generateChecksumAddress_idem.
  fold (publicKeyToChecksumAddress pk). rewrite String.eqb_refl. reflexivity.
Qed.

Lemma restored_wallet_address_valid_witness :
  restoreWalletFromPrivateKey (lib := Reference.ref_crypto) Reference.sample_key
  = Some {| privateKey := Reference.sample_key;
            publicKey := "0208b96a9487f58b886ad7d578c94854e79b145fb8f0d728b0c769419ce7c3450d";
            address := Reference.sample_address |} /\
  privateKeyToChecksumAddress (lib := Reference.ref_crypto) Reference.sample_key
  = Some Reference.sample_address /\
  checksumAddressIsValid (lib := Reference.ref_crypto) Reference.sample_address = true.
Proof.
  assert (Hw : restoreWalletFromPrivateKey (lib := Reference.ref_crypto) Reference.sample_key
               = Some {| privateKey := Reference.sample_key;
                         publicKey := "0208b96a9487f58b886ad7d578c94854e79b145fb8f0d728b0c769419ce7c3450d";
                         address := Reference.sample_address |})
    by (vm_compute; reflexivity).
  assert (Hd : digest_text
                 (@keccak256 Reference.ref_crypto
                    "0208b96a9487f58b886ad7d578c94854e79b145fb8f0d728b0c769419ce7c3450d"))
    by (split; vm_compute; reflexivity).
  pose proof (restored_wallet_address_valid (lib := Reference.ref_crypto) _ _ Hw Hd)
    as (_ & _ & Haddr & _ & _ & Hvalid).
  exact (conj Hw (conj Haddr Hvalid)).
Defined.





(** X8: [generateChecksumAddress] never looks at the first three characters
    of its argument: it drops them, writes [xe_] and changes nothing but
    the case of the rest; on three characters or fewer the result is
    [xe_] alone (wallet.js, lines 37-48).  The rest is taken to be
    ASCII text, on which [toUpperCase] and [toLowerCase] keep the
    length. *)
Theorem generateChecksumAddress_prefix_unread `{lib : CryptoLib} (a : string) :
  all_chars is_ascii (slice_from 3 a) = true ->
  generateChecksumAddress a = generateChecksumAddress ("xe_" ++ slice_from 3 a) /\
  startsWith (generateChecksumAddress a) "xe_" = true /\
  String.length (generateChecksumAddress a) = (3 + (String.length a - 3))%nat /\
  toLowerCase (slice_from 3 (generateChecksumAddress a)) = toLowerCase (slice_from 3 a) /\
  all_chars is_ascii (slice_from 3 (generateChecksumAddress a)) = true /\
  ((String.length a <= 3)%nat -> generateChecksumAddress a = "xe_").
Proof.
  intros Hascii.
  assert (Hlen : forall s n, String.length (slice_from n s) = (String.length s - n)%nat).
  { intros s n. revert s. induction n as [| n IH]; intros [| c s]; simpl; auto. }
  assert (Hkeep : forall h body i,
             all_chars is_ascii body = true ->
             all_chars is_ascii (checksum_loop h i body) = true).
  { intros h body. induction body as [| c body IH]; intros i Hbody; [reflexivity |].
    cbn [checksum_loop all_chars] in *.
    apply andb_prop in Hbody as [Hc Hbody]. rewrite (IH (S i) Hbody), andb_true_r.
    destruct (nibble_ge_8 h i); [| exact Hc].
    revert Hc. clear. by_cases_on_char c. }
  split; [reflexivity |].
  split; [apply (VerifyProofs.prefix_append "xe_" "xe_"); vm_compute; reflexivity |].
  split; [| split; [| split]].
  - unfold generateChecksumAddress.
    change (String.length ("xe_" ++ ?b)) with (S (S (S (String.length b)))).
    rewrite checksum_loop_length, Hlen. reflexivity.
  - rewrite generateChecksumAddress_body. apply checksum_loop_lower.
  - rewrite generateChecksumAddress_body. apply Hkeep, Hascii.
  - intros Hshort. unfold generateChecksumAddress.
    assert (slice_from 3 a = EmptyString) as ->; [| reflexivity].
    pose proof (Hlen a 3%nat) as Hl.
    destruct (slice_from 3 a); [reflexivity | simpl in Hl; lia].
Qed.

Lemma generateChecksumAddress_prefix_unread_witness :
  all_chars is_ascii (slice_from 3 "0x_9d6ccd40a5a35af4cd9fc6fdb135a87069029c67") = true /\
  generateChecksumAddress (lib := Reference.ref_crypto) "xe" = "xe_" /\
  generateChecksumAddress (lib := Reference.ref_crypto)
    "0x_9d6ccd40a5a35af4cd9fc6fdb135a87069029c67"
  = generateChecksumAddress (lib := Reference.ref_crypto)
      ("xe_" ++ slice_from 3 "0x_9d6ccd40a5a35af4cd9fc6fdb135a87069029c67").
Proof.
  split; [reflexivity |]. split.
  - exact (proj2 (proj2 (proj2 (proj2 (proj2
      (generateChecksumAddress_prefix_unread (lib := Reference.ref_crypto) "xe"
         eq_refl)))))
      (le_S _ _ (le_n 2))).
  - exact (proj1 (generateChecksumAddress_prefix_unread (lib := Reference.ref_crypto)
                    "0x_9d6ccd40a5a35af4cd9fc6fdb135a87069029c67" eq_refl)).
Defined.

(** X9: Exactly which addresses [checksumAddressIsValid] accepts: those of
    the form [xe_] plus 40 hexadecimal characters in which no lower-case
    letter stands where the hash digit is 8 or more.  Nothing is asked
    of the other positions (wallet.js, lines 55-59). *)
Theorem checksumAddressIsValid_exactly `{lib : CryptoLib} (a : string) :
  checksumAddressIsValid a = true <->
  address_regex a = true /\
  (forall j c,
      char_at (slice_from 3 a) j = Some c ->
      nibble_ge_8 (keccak256 (toLowerCase (slice_from 3 a))) j = true ->
      is_lower c = false).
Proof.
  unfold checksumAddressIsValid.
  destruct (address_regex a) eqn:Hre; cbn [negb].
  - apply address_regex_inv in Hre as (body & -> & _ & _).
    unfold generateChecksumAddress.
    change (slice_from 3 ("xe_" ++ body)) with body.
    rewrite <- (checksum_loop_fixed (keccak256 (toLowerCase body)) body 0).
    destruct (String.eqb_spec ("xe_" ++ body)
                ("xe_" ++ checksum_loop (keccak256 (toLowerCase body)) 0 body))
      as [Heq | Hne]; cbn [negb].
    + split; [intros _ | reflexivity]. split; [reflexivity |].
      injection Heq as Heq. symmetry. exact Heq.
    + split; [discriminate |]. intros [_ Hfix]. exfalso. apply Hne.
      rewrite Hfix. reflexivity.
  - split; [discriminate | intros [? _]; discriminate].
Qed.

Lemma checksumAddressIsValid_exactly_witness :
  checksumAddressIsValid (lib := Reference.ref_crypto) Reference.sample_address = true /\
  address_regex Reference.sample_address = true.
Proof.
  assert (Hvalid : checksumAddressIsValid (lib := Reference.ref_crypto)
                     Reference.sample_address = true) by (vm_compute; reflexivity).
  split; [exact Hvalid |].
  exact (proj1 (proj1 (checksumAddressIsValid_exactly (lib := Reference.ref_crypto)
                         Reference.sample_address) Hvalid)).
Defined.

End WalletLaws.

(* ===================================================================== *)
(** * Proofs: mining, generating and extending identities *)
(* ===================================================================== *)

Module HostFacts.
Import JsNumber JsString JsValue DifficultyProofs NumberFacts Amounts.
Open Scope string_scope.

(** The sign of an integer only shows in the sign of its number. *)
Lemma binary_round_aux_sign (m e : Z) (l : location) :
  binary_round_aux prec emax true m e l = SFopp (binary_round_aux prec emax false m e l).
Proof.
  unfold binary_round_aux.
  destruct (shr_fexp prec emax m e l) as [mrs' e'].
  destruct (shr_fexp prec emax (round_nearest_even (shr_m mrs') (loc_of_shr_record mrs'))
                     e' loc_Exact) as [mrs'' e''].
  destruct (shr_m mrs''); try reflexivity.
  destruct (e'' <=? emax - prec)%Z; reflexivity.
Qed.

Lemma of_Z_opp (z : Z) : (0 < z)%Z -> of_Z (- z) = SFopp (of_Z z).
Proof.
  destruct z as [| p | p]; try lia. intros _.
  unfold of_Z. change (- Z.pos p)%Z with (Z.neg p).
  unfold binary_normalize, binary_round.
  destruct (shl_align p 0 (fexp prec emax (Z.pos (digits2_pos p) + 0))) as [mz ez].
  apply binary_round_aux_sign.
Qed.


(** The reference host prints integers as every host does. *)
Lemma reference_prints_positive (z : Z) :
  (0 < z < 2 ^ 53)%Z ->
  exists m e, of_Z z = S754_finite false m e /\
              Reference.ref_number_to_string (S754_finite false m e) = decimal_N (Z.to_N z) /\
              Reference.ref_number_to_string (S754_finite true m e)
              = "-" ++ decimal_N (Z.to_N z).
Proof.
  intros Hz. destruct (of_Z_exact z Hz) as (m & e & Hof & He & Hm).
  exists m, e. split; [exact Hof |].
  assert (Hpow : (0 < 2 ^ (- e))%Z) by (apply pow2_pos; lia).
  unfold Reference.ref_number_to_string.
  destruct (0 <=? e)%Z eqn:Hle.
  - apply Z.leb_le in Hle. assert (e = 0%Z) as -> by lia.
    change (2 ^ 0)%Z with 1%Z. rewrite Z.mul_1_r.
    change (- 0)%Z with 0%Z in Hm. change (2 ^ 0)%Z with 1%Z in Hm.
    rewrite Z.mul_1_r in Hm. rewrite Hm. split; reflexivity.
  - rewrite Hm, Z.mod_mul, Z.div_mul by lia.
    change (0 =? 0)%Z with true. cbv iota. split; reflexivity.
Qed.

Lemma reference_prints_integers : prints_integers (bi := Reference.ref_builtins).
Proof.
  intros z Hz. cbn [number_to_string Reference.ref_builtins].
  destruct (Z.ltb_spec z 0) as [Hneg | Hpos].
  - destruct (reference_prints_positive (- z) ltac:(lia)) as (m & e & Hof & _ & Hminus).
    replace z with (- - z)%Z at 1 by lia.
    rewrite of_Z_opp by lia. rewrite Hof. exact Hminus.
  - destruct (Z.eq_dec z 0) as [-> | Hnz]; [reflexivity |].
    destruct (reference_prints_positive z ltac:(lia)) as (m & e & Hof & Hplus & _).
    rewrite Hof. exact Hplus.
Qed.

End HostFacts.

Module IdentityLaws.
Import JsNumber JsString JsValue Wallet Difficulty IdentityLib IdentityObject.
Import Contracts Amounts StringFacts NumberFacts WalletProofs WalletLaws VerifyProofs HostFacts.
Open Scope string_scope.

Section WithRuntime.
Context `{rt : Runtime}.

(** ** Mining *)

Lemma mine_loop_least (k seedHex target : string) :
  forall fuel start signature solution,
    mine_loop fuel k seedHex target start = Mined signature solution ->
    (start <= solution < start + fuel)%nat /\
    generateSignature k (seedHex ++ decimal solution) = Some signature /\
    startsWith signature target = true /\
    (forall j, (start <= j < solution)%nat ->
               exists sj, generateSignature k (seedHex ++ decimal j) = Some sj /\
                          startsWith sj target = false).
Proof.
  induction fuel as [| fuel IH]; intros start signature solution; cbn [mine_loop];
    [discriminate |].
  destruct (generateSignature k (seedHex ++ decimal start)) as [sg |] eqn:Hsg;
    [| discriminate].
  destruct (startsWith sg target) eqn:Hpre.
  - intros [= <- <-]. repeat split; try assumption; lia.
  - intros Hrest. apply IH in Hrest as (Hrange & Hsig & Hstart & Hbelow).
    repeat split; try assumption; try lia.
    intros j Hj. destruct (decide (j = start)) as [-> | Hne].
    + exists sg. split; assumption.
    + apply Hbelow. lia.
Qed.


(** ** Chains, link by link *)


Lemma last_lookup_default (s : list string) (j : nat) (x d : string) :
  S j = List.length s -> s !! j = Some x -> List.last s d = x.
Proof.
  revert j. induction s as [| y s IH]; intros j Hlen Hget; [discriminate |].
  destruct s as [| z s].
  - destruct j; [| simpl in Hlen; lia]. injection Hget as ->. reflexivity.
  - destruct j as [| j]; [simpl in Hlen; lia |].
    change (List.last (y :: z :: s) d) with (List.last (z :: s) d).
    apply (IH j); [simpl in *; lia | exact Hget].
Qed.



Lemma link_check_first_links (k : nat) (p : PublicIdentity) (i : nat) :
  (i < k)%nat -> link_check (first_links k p) i = link_check p i.
Proof.
  intros Hi. unfold link_check, first_links.
  cbn [pi_s pi_c pi_address pi_timestamp].
  rewrite !lookup_take_lt by lia.
  destruct i as [| j]; [reflexivity |].
  rewrite (lookup_take_lt (pi_s p) k j) by lia. reflexivity.
Qed.

Lemma zeros_prefix_shorter (n : nat) :
  forall s, String.prefix (JsString.repeat "0" (S n)) s = true ->
            String.prefix (JsString.repeat "0" n) s = true.
Proof.
  induction n as [| n IH]; intros s Hpre.
  - destruct s; reflexivity.
  - destruct s as [| ch s]; [discriminate |].
    change (JsString.repeat "0" (S (S n))) with (String "0" (JsString.repeat "0" (S n))) in Hpre.
    change (JsString.repeat "0" (S n)) with (String "0" (JsString.repeat "0" n)).
    cbn [String.prefix] in *.
    destruct (Ascii.ascii_dec "0" ch); [apply IH; exact Hpre | discriminate].
Qed.

Lemma zeros_prefix_le (n m : nat) (s : string) :
  (n <= m)%nat ->
  String.prefix (JsString.repeat "0" m) s = true ->
  String.prefix (JsString.repeat "0" n) s = true.
Proof.
  induction 1 as [| m Hle IH]; [auto |].
  intros Hpre. apply IH, zeros_prefix_shorter, Hpre.
Qed.

(** [addChallenge] touches the two arrays of the identity and nothing
    else. *)
Lemma array_push_frame (h h' : heap) (a : loc) (v : value) (l : loc) :
  array_push h a v = Some h' -> l <> a -> h' !! l = h !! l.
Proof.
  unfold array_push. destruct (h !! a) as [arr |]; [| discriminate].
  destruct (extensible arr); [| discriminate].
  intros [= <-] Hne. apply lookup_insert_ne. congruence.
Qed.

Lemma addChallenge_frame (fuel : nat) (this : Identity) (h h' : heap) (l : loc) :
  addChallenge fuel this h = Completed h' \/ addChallenge fuel this h = Failed h' ->
  l <> id_s this -> l <> id_c this -> h' !! l = h !! l.
Proof.
  unfold addChallenge. intros Hrun Hs Hc.
  destruct (h !! id_s this) as [s_arr |];
    [| destruct Hrun as [Hrun | Hrun]; [discriminate | injection Hrun as <-; reflexivity]].
  destruct (mineSignature fuel (id_privateKey this) _ _ _)
    as [signature solution | |];
    [| destruct Hrun as [Hrun | Hrun]; [discriminate | injection Hrun as <-; reflexivity]
     | destruct Hrun; discriminate].
  destruct (array_push h (id_s this) (JStr signature)) as [h1 |] eqn:Hpush1;
    [| destruct Hrun as [Hrun | Hrun]; [discriminate | injection Hrun as <-; reflexivity]].
  pose proof (array_push_frame _ _ _ _ l Hpush1 Hs) as H1.
  destruct (array_push h1 (id_c this) (JNum (of_nat solution))) as [h2 |] eqn:Hpush2.
  - destruct Hrun as [Hrun | Hrun]; [| discriminate]. injection Hrun as <-.
    rewrite (array_push_frame _ _ _ _ l Hpush2 Hc). exact H1.
  - destruct Hrun as [Hrun | Hrun]; [discriminate |]. injection Hrun as <-. exact H1.
Qed.

(** What a completed [addChallenge] leaves in arrays that hold the links
    of [p]. *)
Lemma addChallenge_holds (fuel : nat) (this : Identity) (h h' : heap) (p : PublicIdentity) :
  id_s this <> id_c this ->
  holds this h p ->
  addChallenge fuel this h = Completed h' ->
  exists signature solution,
    mineSignature fuel (id_privateKey this)
      (JStr match List.length (pi_s p) with
            | O => pi_address p ++ ":" ++ number_to_string (pi_timestamp p)
            | S _ => List.last (pi_s p) EmptyString
            end)
      (difficulty (List.length (pi_s p))) (List.length (pi_s p))
    = Mined signature solution /\
    holds this h' (add_link p signature (of_nat solution)).
Proof.
  intros Hdistinct (Haddr & Hts & [es Hs] & [ec Hc]). unfold addChallenge.
  rewrite Hs. cbn [elems]. rewrite length_map, Haddr, Hts.
  assert (Hmsg : match List.length (pi_s p) with
                 | O => JStr (pi_address p ++ ":" ++ number_to_string (pi_timestamp p))
                 | S j => nth j (map JStr (pi_s p)) JUndefined
                 end
                 = JStr match List.length (pi_s p) with
                        | O => pi_address p ++ ":" ++ number_to_string (pi_timestamp p)
                        | S _ => List.last (pi_s p) EmptyString
                        end).
  { destruct (List.length (pi_s p)) as [| j] eqn:Hn; [reflexivity |].
    rewrite nth_map_lookup.
    destruct (lookup_lt_is_Some_2 (pi_s p) j ltac:(lia)) as [previous Hprev].
    rewrite Hprev. f_equal. symmetry.
    apply (last_lookup_default _ j); [lia | exact Hprev]. }
  rewrite Hmsg.
  destruct (mineSignature fuel (id_privateKey this) _ _ _)
    as [signature solution | |]; try discriminate.
  unfold array_push. rewrite Hs. cbn [extensible elems].
  destruct es; [| discriminate].
  rewrite lookup_insert_ne by congruence. rewrite Hc. cbn [extensible elems].
  destruct ec; [| discriminate].
  intros [= <-]. exists signature, solution. split; [reflexivity |].
  unfold holds, add_link. cbn [pi_address pi_timestamp pi_s pi_c].
  split; [exact Haddr |]. split; [exact Hts |]. split.
  - exists true. rewrite lookup_insert_ne by congruence.
    rewrite lookup_insert_eq, map_app. reflexivity.
  - exists true. rewrite lookup_insert_eq, map_app. reflexivity.
Qed.

(** One more round of [generate_loop] at the end. *)
Lemma generate_loop_S (fuel : nat) (k a : string) (t : number) :
  forall remaining i s c,
    generate_loop fuel k a t (S remaining) i s c
    = match generate_loop fuel k a t remaining i s c with
      | Some (s', c') => generate_loop fuel k a t 1 (i + remaining) s' c'
      | None => None
      end.
Proof.
  induction remaining as [| remaining IH]; intros i s c.
  - cbn [generate_loop]. rewrite Nat.add_0_r. reflexivity.
  - change (generate_loop fuel k a t (S (S remaining)) i s c)
      with (match mineSignature fuel k
                    (JStr match i with
                          | O => a ++ ":" ++ number_to_string t
                          | S _ => List.last s EmptyString
                          end) (difficulty i) i with
            | Mined signature solution =>
                generate_loop fuel k a t (S remaining) (S i)
                              (s ++ [signature]) (c ++ [of_nat solution])
            | _ => None
            end).
    change (generate_loop fuel k a t (S remaining) i s c)
      with (match mineSignature fuel k
                    (JStr match i with
                          | O => a ++ ":" ++ number_to_string t
                          | S _ => List.last s EmptyString
                          end) (difficulty i) i with
            | Mined signature solution =>
                generate_loop fuel k a t remaining (S i)
                              (s ++ [signature]) (c ++ [of_nat solution])
            | _ => None
            end).
    destruct (mineSignature fuel k _ (difficulty i) i) as [signature solution | |];
      try reflexivity.
    rewrite IH. replace (S i + remaining)%nat with (i + S remaining)%nat by lia.
    reflexivity.
Qed.

Lemma generate_loop_lengths (fuel : nat) (k a : string) (t : number) :
  forall remaining i s c s' c',
    generate_loop fuel k a t remaining i s c = Some (s', c') ->
    List.length s' = (List.length s + remaining)%nat.
Proof.
  induction remaining as [| remaining IH]; intros i s c s' c'; cbn [generate_loop].
  - intros [= <- <-]. lia.
  - destruct (mineSignature fuel k _ (difficulty i) i) as [signature solution | |];
      try discriminate.
    intros Hrest%IH. rewrite length_app in Hrest. simpl in Hrest. lia.
Qed.


End WithRuntime.

Section UnderContracts.
Context `{rt : Runtime}.
Hypothesis Hsign : sign_recover_contract.
Hypothesis Hprint : prints_integers.





End UnderContracts.

(** X10: What [mineSignature] returns is the first solution, counting from 0,
    whose signature starts with the required zeros: the signature is the
    wallet's signature of seed and solution, and every smaller solution
    was signed and fell short (identity.d.ts, lines 120-139). *)
Theorem mineSignature_least `{rt : Runtime} (fuel : nat) (k : string) (message : value)
        (d i : nat)
        (signature : string) (solution : nat) :
  mineSignature fuel k message d i = Mined signature solution ->
  exists seed,
    argon2idHash message ("xe-challenge-" ++ decimal i) = Some seed /\
    (solution < fuel)%nat /\
    generateSignature k (hex_of_bytes seed ++ decimal solution) = Some signature /\
    startsWith signature (JsString.repeat "0" d) = true /\
    (forall j, (j < solution)%nat ->
               exists sj, generateSignature k (hex_of_bytes seed ++ decimal j) = Some sj /\
                          startsWith sj (JsString.repeat "0" d) = false).
Proof.
  unfold mineSignature.
  destruct (argon2idHash message ("xe-challenge-" ++ decimal i)) as [seed |];
    [| discriminate].
  intros Hloop. exists seed. split; [reflexivity |].
  destruct (mine_loop_least k (hex_of_bytes seed) (JsString.repeat "0" d)
                            fuel 0 signature solution Hloop)
    as (Hrange & Hsig & Hpre & Hbelow).
  repeat split; try assumption; try lia.
  intros j Hj. apply Hbelow. lia.
Qed.

Lemma mineSignature_least_witness :
  mineSignature (rt := Reference.ref_runtime) 4 Reference.sample_key
    (JStr (Reference.sample_address ++ ":" ++ "1700000000831")) 2 0
  = Mined Reference.sample_s0 1 /\
  exists seed,
    argon2idHash (rt := Reference.ref_runtime)
      (JStr (Reference.sample_address ++ ":" ++ "1700000000831")) "xe-challenge-0" = Some seed /\
    generateSignature (lib := Reference.ref_crypto) Reference.sample_key
      (hex_of_bytes seed ++ "1") = Some Reference.sample_s0 /\
    exists s0,
      generateSignature (lib := Reference.ref_crypto) Reference.sample_key
        (hex_of_bytes seed ++ "0") = Some s0 /\
      startsWith s0 "00" = false.
Proof.
  assert (Hmine : mineSignature (rt := Reference.ref_runtime) 4 Reference.sample_key
                    (JStr (Reference.sample_address ++ ":" ++ "1700000000831")) 2 0
                  = Mined Reference.sample_s0 1) by (vm_compute; reflexivity).
  split; [exact Hmine |].
  destruct (mineSignature_least (rt := Reference.ref_runtime) 4 Reference.sample_key
              (JStr (Reference.sample_address ++ ":" ++ "1700000000831")) 2 0
              Reference.sample_s0 1 Hmine) as (seed & Hseed & _ & Hsig & _ & Hbelow).
  exists seed. split; [exact Hseed |]. split; [exact Hsig |].
  exact (Hbelow 0%nat (le_n 1)).
Defined.

(** X25: [mineSignature] does find a solution: when the seed is computed,
    solution [j] gives a signature with the required zeros and every
    solution up to [j] can be signed, [j + 1] attempts are enough, and
    the solution returned is [j] or less (identity.d.ts, lines
    120-139).  The attempts stay below [2^53], where the counter of the
    loop, a double, counts exactly. *)
Theorem mineSignature_finds `{rt : Runtime} (fuel : nat) (k : string) (message : value)
        (d i : nat)
        (seed : list Z) (j : nat) (sj : string) :
  argon2idHash message ("xe-challenge-" ++ decimal i) = Some seed ->
  (forall n, (n < j)%nat ->
             exists sn, generateSignature k (hex_of_bytes seed ++ decimal n) = Some sn) ->
  generateSignature k (hex_of_bytes seed ++ decimal j) = Some sj ->
  startsWith sj (JsString.repeat "0" d) = true ->
  (j < fuel)%nat ->
  (Z.of_nat fuel <= 2 ^ 53)%Z ->
  exists signature solution,
    mineSignature fuel k message d i = Mined signature solution /\
    (solution <= j)%nat /\
    (Z.of_nat solution < 2 ^ 53)%Z.
Proof.
  intros Hseed Hsigned Hsj Hpre Hfuel Hexact.
  cut (exists signature solution,
          mineSignature fuel k message d i = Mined signature solution /\
          (solution <= j)%nat).
  { intros (signature & solution & Hmined & Hle).
    exists signature, solution. repeat split; try assumption. lia. }
  unfold mineSignature. rewrite Hseed.
  assert (Hloop : forall gap start fuel',
             (start + gap = j)%nat -> (gap < fuel')%nat ->
             exists signature solution,
               mine_loop fuel' k (hex_of_bytes seed) (JsString.repeat "0" d) start
               = Mined signature solution /\ (solution <= j)%nat).
  { induction gap as [| gap IH]; intros start fuel' Hstart Hgap;
      (destruct fuel' as [| fuel']; [lia |]); cbn [mine_loop].
    - assert (start = j) as -> by lia. rewrite Hsj, Hpre. eauto.
    - destruct (Hsigned start ltac:(lia)) as [sn Hsn]. rewrite Hsn.
      destruct (startsWith sn (JsString.repeat "0" d)).
      + exists sn, start. split; [reflexivity | lia].
      + apply IH; lia. }
  apply (Hloop j 0%nat fuel); lia.
Qed.

Lemma mineSignature_finds_witness :
  exists signature solution,
    mineSignature (rt := Reference.ref_runtime) 4 Reference.sample_key
      (JStr (Reference.sample_address ++ ":" ++ "1700000000831")) 2 0
    = Mined signature solution /\
    (solution <= 1)%nat /\
    (Z.of_nat solution < 2 ^ 53)%Z.
Proof.
  assert (Hexact : (Z.of_nat 4 <= 2 ^ 53)%Z) by (vm_compute; discriminate).
  assert (Hseed : exists seed,
             argon2idHash (rt := Reference.ref_runtime)
               (JStr (Reference.sample_address ++ ":" ++ "1700000000831"))
               ("xe-challenge-" ++ decimal 0)
             = Some seed /\
             generateSignature (lib := Reference.ref_crypto) Reference.sample_key
               (hex_of_bytes seed ++ decimal 1) = Some Reference.sample_s0)
    by (eexists; split; [vm_compute; reflexivity | vm_compute; reflexivity]).
  destruct Hseed as (seed & Hseed & Hsig).
  assert (Hbelow : forall n, (n < 1)%nat ->
             exists sn, generateSignature (lib := Reference.ref_crypto) Reference.sample_key
                          (hex_of_bytes seed ++ decimal n) = Some sn).
  { intros n _. unfold generateSignature.
    change (ec_sign ?digest ?key) with (Reference.ref_sign digest key).
    unfold Reference.ref_sign. eexists. reflexivity. }
  assert (Hzeros : startsWith Reference.sample_s0 (JsString.repeat "0" 2) = true)
    by (vm_compute; reflexivity).
  exact (mineSignature_finds (rt := Reference.ref_runtime) 4 Reference.sample_key
           (JStr (Reference.sample_address ++ ":" ++ "1700000000831")) 2 0 seed 1
           Reference.sample_s0 Hseed Hbelow Hsig Hzeros ltac:(lia) Hexact).
Defined.



(** X12: Any non-empty prefix of an accepted chain is accepted: nothing in
    an identity fixes how many links it has (identity.d.ts, lines
    247-286). *)
Theorem verified_prefix_verifies `{rt : Runtime} (p : PublicIdentity) (k : nat) :
  array_sized p ->
  verifyIdentity (to_value p) = Resolved true ->
  (1 <= k)%nat ->
  verifyIdentity (to_value (first_links k p)) = Resolved true.
Proof.
  intros Hsized Hok Hk.
  rewrite verifyIdentity_to_value in Hok by assumption. injection Hok as Hok.
  destruct (chain_valid_guard p Hok) as (Hts & Hlen & Hnz).
  destruct Hsized as [Hs Hc].
  rewrite verifyIdentity_to_value.
  2:{ split; cbn [first_links pi_s pi_c]; rewrite length_take; lia. }
  f_equal. unfold chain_valid.
  change (pi_timestamp (first_links k p)) with (pi_timestamp p). rewrite Hts.
  change (pi_s (first_links k p)) with (take k (pi_s p)).
  change (pi_c (first_links k p)) with (take k (pi_c p)).
  rewrite !length_take, <- Hlen, Nat.eqb_refl.
  replace (k `min` List.length (pi_s p) =? 0)%nat with false
    by (symmetry; apply Nat.eqb_neq; lia).
  cbn [negb andb]. apply forallb_forall. intros i [_ Hi]%in_seq.
  rewrite link_check_first_links by lia.
  apply chain_valid_links, Hok.
Qed.

Lemma verified_prefix_verifies_witness :
  verifyIdentity (rt := Reference.ref_runtime) (to_value Reference.sample_identity)
  = Resolved true /\
  verifyIdentity (rt := Reference.ref_runtime)
    (to_value (first_links 1 Reference.sample_identity))
  = Resolved true.
Proof.
  split; [exact sample_identity_verified |].
  exact (verified_prefix_verifies (rt := Reference.ref_runtime) Reference.sample_identity 1
           sample_identity_sized sample_identity_verified (le_n 1)).
Defined.

(** X13: What acceptance guarantees: a truthy timestamp, as many solutions as
    signatures, at least one link, and for every link a signature that
    starts with the zeros of its difficulty (two, three from link 3 on,
    four from link 5 on) and from which the identity's address is
    recovered over the text of the solution and the seed of the link's
    message (address and timestamp for link 0, the previous signature
    after that). *)
Theorem accepted_identity_evidence `{rt : Runtime} (p : PublicIdentity) :
  array_sized p ->
  verifyIdentity (to_value p) = Resolved true ->
  to_boolean (JNum (pi_timestamp p)) = true /\
  List.length (pi_s p) = List.length (pi_c p) /\
  (1 <= List.length (pi_s p))%nat /\
  (forall i signature,
      pi_s p !! i = Some signature ->
      startsWith signature "00" = true /\
      ((3 <= i)%nat -> startsWith signature "000" = true) /\
      ((5 <= i)%nat -> startsWith signature "0000" = true) /\
      exists solution message seed,
        pi_c p !! i = Some solution /\
        match i with
        | O => message = pi_address p ++ ":" ++ number_to_string (pi_timestamp p)
        | S j => pi_s p !! j = Some message
        end /\
        argon2idHash (JStr message) ("xe-challenge-" ++ decimal i) = Some seed /\
        recoverAddressFromSignedMessage
          (hex_of_bytes seed ++ number_to_string solution) signature
        = Some (pi_address p)).
Proof.
  intros Hsized Hok.
  rewrite verifyIdentity_to_value in Hok by assumption. injection Hok as Hok.
  destruct (chain_valid_guard p Hok) as (Hts & Hlen & Hnz).
  split; [exact Hts |]. split; [exact Hlen |]. split; [lia |].
  intros i signature Hsig.
  pose proof (chain_valid_links p i Hok) as Hlink.
  unfold link_check in Hlink. rewrite Hsig in Hlink.
  assert (Hi : (i < List.length (pi_s p))%nat) by (apply lookup_lt_is_Some; eauto).
  destruct (lookup_lt_is_Some_2 (pi_c p) i ltac:(lia)) as [solution Hsol].
  rewrite Hsol in Hlink. apply andb_prop in Hlink as [Hpre Hrest].
  unfold startsWith in *. rewrite DifficultyProofs.difficulty_values in Hpre.
  split; [| split; [| split]].
  - apply (zeros_prefix_le 2 _ signature) in Hpre; [exact Hpre |].
    destruct (i <? 3)%nat; [lia |]. destruct (i <? 5)%nat; lia.
  - intros H3. apply (zeros_prefix_le 3 _ signature) in Hpre; [exact Hpre |].
    replace (i <? 3)%nat with false by (symmetry; apply Nat.ltb_ge; lia).
    destruct (i <? 5)%nat; lia.
  - intros H5.
    replace (i <? 3)%nat with false in Hpre by (symmetry; apply Nat.ltb_ge; lia).
    replace (i <? 5)%nat with false in Hpre by (symmetry; apply Nat.ltb_ge; lia).
    exact Hpre.
  - destruct (match i with
              | O => Some (pi_address p ++ ":" ++ number_to_string (pi_timestamp p))
              | S j => pi_s p !! j
              end) as [message |] eqn:Hmsg; [| discriminate].
    destruct (argon2idHash (JStr message) ("xe-challenge-" ++ decimal i)) as [seed |] eqn:Hseed;
      [| discriminate].
    exists solution, message, seed. split; [exact Hsol |].
    split; [destruct i; [injection Hmsg as <-; reflexivity | exact Hmsg] |].
    split; [exact Hseed |].
    unfold verifySignatureAddress in Hrest. unfold recoverAddressFromSignedMessage.
    destruct (recoverPublicKeyFromSignedMessage _ signature) as [pk |]; [| discriminate].
    cbn [strict_eq] in Hrest.
    destruct (String.eqb_spec (pi_address p) (publicKeyToChecksumAddress pk)) as [-> | Hne];
      [reflexivity | discriminate].
Qed.

Lemma accepted_identity_evidence_witness :
  verifyIdentity (rt := Reference.ref_runtime) (to_value Reference.sample_identity)
  = Resolved true /\
  startsWith Reference.sample_s1 "00" = true.
Proof.
  split; [exact sample_identity_verified |].
  exact (proj1 (proj2 (proj2 (proj2
    (accepted_identity_evidence (rt := Reference.ref_runtime) Reference.sample_identity
       sample_identity_sized sample_identity_verified))) 1%nat Reference.sample_s1 eq_refl)).
Defined.



(** X15: [generateIdentity(n + 1)] is [generateIdentity(n)] followed by
    [addChallenge()]: on the object [generateIdentity] returns for [n]
    challenges, a completed [addChallenge] leaves the links
    [generateIdentity] builds for [n + 1] (identity.d.ts, lines 177-187
    and 224-240). *)
Theorem addChallenge_continues_generateIdentity `{rt : Runtime} (fuel : nat) (k : string)
        (t : number) (n : nat) (p : PublicIdentity) (this : Identity) (h h' : heap) :
  generateIdentity fuel k t n = Some p ->
  id_privateKey this = k ->
  id_s this <> id_c this ->
  holds this h p ->
  addChallenge fuel this h = Completed h' ->
  exists p', generateIdentity fuel k t (S n) = Some p' /\ holds this h' p'.
Proof.
  unfold generateIdentity. intros Hgen Hkey Hdistinct Hholds Hrun.
  destruct (restoreWalletFromPrivateKey k) as [W |]; [| discriminate].
  destruct (generate_loop fuel k (address W) t n 0 [] []) as [[s c] |] eqn:Hloop;
    [| discriminate].
  injection Hgen as <-.
  pose proof (generate_loop_lengths _ _ _ _ _ _ _ _ _ _ Hloop) as Hn.
  cbn [List.length Nat.add] in Hn.
  destruct (addChallenge_holds fuel this h h' _ Hdistinct Hholds Hrun)
    as (signature & solution & Hmine & Hholds').
  cbn [pi_s pi_c pi_address pi_timestamp] in Hmine. rewrite Hkey, Hn in Hmine.
  rewrite generate_loop_S, Hloop. cbn [Nat.add generate_loop].
  rewrite Hmine. eexists. split; [reflexivity |]. exact Hholds'.
Qed.

Lemma addChallenge_continues_generateIdentity_witness :
  generateIdentity (rt := Reference.ref_runtime) 4 Reference.sample_key
                   (of_Z 1700000000831) 1
  = Some Samples.one_link_identity /\
  exists h',
    addChallenge (rt := Reference.ref_runtime) 4 Reference.sample_object
                 Samples.one_link_heap = Completed h' /\
    exists p',
      generateIdentity (rt := Reference.ref_runtime) 4 Reference.sample_key
                       (of_Z 1700000000831) 2 = Some p' /\
      holds Reference.sample_object h' p'.
Proof.
  assert (Hgen : generateIdentity (rt := Reference.ref_runtime) 4 Reference.sample_key
                   (of_Z 1700000000831) 1 = Some Samples.one_link_identity)
    by (vm_compute; reflexivity).
  assert (Hrun : exists h', addChallenge (rt := Reference.ref_runtime) 4
                              Reference.sample_object Samples.one_link_heap
                            = Completed h')
    by (eexists; vm_compute; reflexivity).
  assert (Hholds : holds Reference.sample_object Samples.one_link_heap
                         Samples.one_link_identity).
  { split; [reflexivity |]. split; [reflexivity |].
    split; exists true; vm_compute; reflexivity. }
  split; [exact Hgen |].
  destruct Hrun as [h' Hrun]. exists h'. split; [exact Hrun |].
  exact (addChallenge_continues_generateIdentity (rt := Reference.ref_runtime) 4
           Reference.sample_key (of_Z 1700000000831) 1 Samples.one_link_identity
           Reference.sample_object Samples.one_link_heap h'
           Hgen eq_refl AddChallengeProofs.sample_object_distinct Hholds Hrun).
Defined.

(** ** [getPublicIdentity] *)

(** X16: On an identity whose [s] and [c] are arrays, [getPublicIdentity]
    (and [toJSON], which is the same call) returns the address, the
    timestamp and two new arrays: they are not arrays of the heap it was
    called in, they differ from each other even when the identity's [s]
    and [c] are one array, they can be extended even when the identity's
    are frozen, and they hold the elements the identity's arrays held.
    Nothing else changes; later calls of [addChallenge] do not change
    the copy, and pushing to the copy does not change the identity
    (identity.d.ts, lines 193-200 and 214-216). *)
Theorem getPublicIdentity_is_a_copy `{rt : Runtime} (this : Identity) (h : heap)
        (s_arr c_arr : array_obj) :
  h !! id_s this = Some s_arr ->
  h !! id_c this = Some c_arr ->
  exists pub h1,
    getPublicIdentity this h = Some (pub, h1) /\
    toJSON this h = Some (pub, h1) /\
    po_address pub = id_address this /\
    po_timestamp pub = id_timestamp this /\
    po_s pub <> po_c pub /\
    h !! po_s pub = None /\ h !! po_c pub = None /\
    (forall l, l <> po_s pub -> l <> po_c pub -> h1 !! l = h !! l) /\
    h1 !! po_s pub = Some {| elems := elems s_arr; extensible := true |} /\
    h1 !! po_c pub = Some {| elems := elems c_arr; extensible := true |} /\
    public_value pub h1 = identity_value this h /\
    (forall fuel h2,
        addChallenge fuel this h1 = Completed h2 \/ addChallenge fuel this h1 = Failed h2 ->
        public_value pub h2 = public_value pub h1) /\
    (forall v h2,
        array_push h1 (po_s pub) v = Some h2 \/ array_push h1 (po_c pub) v = Some h2 ->
        identity_value this h2 = identity_value this h1).
Proof.
  intros Hs Hc.
  set (s' := fresh (dom h)).
  set (hs := <[s' := {| elems := elems s_arr; extensible := true |}]> h).
  set (c' := fresh (dom hs)).
  set (hc := <[c' := {| elems := elems c_arr; extensible := true |}]> hs).
  assert (Hfresh_s : h !! s' = None) by apply not_elem_of_dom, is_fresh.
  assert (Hfresh_c : hs !! c' = None) by apply not_elem_of_dom, is_fresh.
  assert (Hsc : s' <> c').
  { intros Heq. rewrite <- Heq in Hfresh_c. unfold hs in Hfresh_c.
    rewrite lookup_insert_eq in Hfresh_c. discriminate. }
  assert (Hfresh_c' : h !! c' = None).
  { unfold hs in Hfresh_c. rewrite lookup_insert_ne in Hfresh_c by congruence.
    exact Hfresh_c. }
  assert (Hs_new : s' <> id_s this) by (intros Heq; rewrite Heq in Hfresh_s; congruence).
  assert (Hs_c : s' <> id_c this) by (intros Heq; rewrite Heq in Hfresh_s; congruence).
  assert (Hc_new : c' <> id_c this) by (intros Heq; rewrite Heq in Hfresh_c'; congruence).
  assert (Hc_s : c' <> id_s this) by (intros Heq; rewrite Heq in Hfresh_c'; congruence).
  assert (Hget : getPublicIdentity this h
                 = Some ({| po_address := id_address this;
                            po_timestamp := id_timestamp this;
                            po_s := s'; po_c := c' |}, hc)).
  { unfold getPublicIdentity, spread. rewrite Hs. fold s'. fold hs.
    unfold hs at 1. rewrite lookup_insert_ne by congruence. rewrite Hc.
    reflexivity. }
  assert (Hpub_s : hc !! s' = Some {| elems := elems s_arr; extensible := true |}).
  { unfold hc, hs. rewrite lookup_insert_ne by congruence. apply lookup_insert_eq. }
  assert (Hpub_c : hc !! c' = Some {| elems := elems c_arr; extensible := true |}).
  { unfold hc. apply lookup_insert_eq. }
  assert (Hframe : forall l, l <> s' -> l <> c' -> hc !! l = h !! l).
  { intros l Hl1 Hl2. unfold hc, hs. rewrite !lookup_insert_ne by congruence. reflexivity. }
  eexists _, hc. split; [exact Hget |]. split; [exact Hget |].
  cbn [po_address po_timestamp po_s po_c].
  split; [reflexivity |]. split; [reflexivity |]. split; [exact Hsc |].
  split; [exact Hfresh_s |]. split; [exact Hfresh_c' |]. split; [exact Hframe |].
  split; [exact Hpub_s |]. split; [exact Hpub_c |].
  split; [| split].
  - unfold public_value, identity_value, object_value. cbn [po_address po_timestamp po_s po_c].
    rewrite Hpub_s, Hpub_c, Hs, Hc. reflexivity.
  - intros fuel h2 Hrun.
    unfold public_value, object_value. cbn [po_s po_c].
    rewrite (addChallenge_frame fuel this _ h2 s' Hrun Hs_new Hs_c).
    rewrite (addChallenge_frame fuel this _ h2 c' Hrun Hc_s Hc_new).
    reflexivity.
  - intros v h2 Hpush. unfold identity_value, object_value.
    destruct Hpush as [Hpush | Hpush].
    + rewrite (array_push_frame _ _ _ _ (id_s this) Hpush) by congruence.
      rewrite (array_push_frame _ _ _ _ (id_c this) Hpush) by congruence.
      reflexivity.
    + rewrite (array_push_frame _ _ _ _ (id_s this) Hpush) by congruence.
      rewrite (array_push_frame _ _ _ _ (id_c this) Hpush) by congruence.
      reflexivity.
Qed.

Lemma getPublicIdentity_is_a_copy_witness :
  exists pub h1,
    getPublicIdentity Reference.aliased_object Samples.one_link_heap = Some (pub, h1) /\
    po_s pub <> po_c pub /\
    public_value pub h1 = identity_value Reference.aliased_object Samples.one_link_heap.
Proof.
  destruct (getPublicIdentity_is_a_copy (rt := Reference.ref_runtime)
              Reference.aliased_object Samples.one_link_heap
              {| elems := [JStr Reference.sample_s0]; extensible := true |}
              {| elems := [JStr Reference.sample_s0]; extensible := true |}
              ltac:(vm_compute; reflexivity) ltac:(vm_compute; reflexivity))
    as (pub & h1 & Hget & _ & _ & _ & Hsc & _ & _ & _ & _ & _ & Hval & _).
  exists pub, h1. exact (conj Hget (conj Hsc Hval)).
Defined.

End IdentityLaws.

(* ===================================================================== *)
(** * Proofs: XE amounts *)
(* ===================================================================== *)

Module DigitFacts.
Import JsNumber JsString JsValue Wallet Amounts StringFacts.
Open Scope string_scope.

(** ** Strings of decimal digits *)

Lemma digit_char (c : ascii) :
  is_digit c = true ->
  (0 <= Z.of_nat (code c - 48) <= 9)%Z /\
  is_space c = false /\
  Ascii.eqb c "-" = false /\ Ascii.eqb c "+" = false /\
  Ascii.eqb c "x" = false /\ Ascii.eqb c "X" = false /\
  Ascii.eqb c "." = false.
Proof.
  destruct c as [[] [] [] [] [] [] [] []]; intros H; vm_compute in H; try discriminate H;
    (split; [split; vm_compute; discriminate | repeat split]).
Qed.

Lemma all_chars_app (p : ascii -> bool) (a b : string) :
  all_chars p (a ++ b) = all_chars p a && all_chars p b.
Proof.
  induction a as [| c a IH]; [reflexivity |].
  change (String c a ++ b) with (String c (a ++ b)).
  cbn [all_chars]. rewrite IH, andb_assoc. reflexivity.
Qed.

Lemma all_chars_zeros (n : nat) : all_chars is_digit (JsString.repeat "0" n) = true.
Proof. induction n as [| n IH]; [reflexivity |]. cbn [JsString.repeat all_chars]. exact IH. Qed.

Lemma repeat_length (c : ascii) (n : nat) : String.length (JsString.repeat c n) = n.
Proof. induction n as [| n IH]; [reflexivity |]. cbn. rewrite IH. reflexivity. Qed.

(** Reading digits after [acc]. *)
Lemma dec_prefix_digits (s : string) :
  all_chars is_digit s = true ->
  forall acc,
    dec_prefix s (Some acc)
    = Some (acc * 10 ^ Z.of_nat (String.length s) + dec_value s)%Z.
Proof.
  induction s as [| c r IH]; intros Hd acc.
  - cbn. f_equal. lia.
  - cbn [all_chars] in Hd. apply andb_prop in Hd as [Hc Hr].
    unfold dec_value. cbn [dec_prefix String.length]. rewrite Hc.
    rewrite !(IH Hr). f_equal.
    rewrite Nat2Z.inj_succ, Z.pow_succ_r by lia. ring.
Qed.

Lemma dec_value_cons (c : ascii) (r : string) :
  is_digit c = true -> all_chars is_digit r = true ->
  dec_value (String c r)
  = (Z.of_nat (code c - 48) * 10 ^ Z.of_nat (String.length r) + dec_value r)%Z.
Proof.
  intros Hc Hr. unfold dec_value at 1. cbn [dec_prefix]. rewrite Hc.
  rewrite (dec_prefix_digits r Hr). f_equal.
Qed.

Lemma dec_prefix_some (s : string) :
  all_chars is_digit s = true -> s <> EmptyString ->
  dec_prefix s None = Some (dec_value s).
Proof.
  destruct s as [| c r]; [congruence |]. intros Hd _.
  cbn [all_chars] in Hd. apply andb_prop in Hd as [Hc Hr].
  unfold dec_value. cbn [dec_prefix]. rewrite Hc.
  rewrite (dec_prefix_digits r Hr). reflexivity.
Qed.

Lemma dec_value_bounds (s : string) :
  all_chars is_digit s = true ->
  (0 <= dec_value s < 10 ^ Z.of_nat (String.length s))%Z.
Proof.
  induction s as [| c r IH]; intros Hd; [cbn; lia |].
  cbn [all_chars] in Hd. apply andb_prop in Hd as [Hc Hr].
  rewrite dec_value_cons by assumption.
  destruct (digit_char c Hc) as [Hrange _]. specialize (IH Hr).
  cbn [String.length]. rewrite Nat2Z.inj_succ, Z.pow_succ_r by lia.
  nia.
Qed.

Lemma dec_value_app (a b : string) :
  all_chars is_digit a = true -> all_chars is_digit b = true ->
  dec_value (a ++ b)
  = (dec_value a * 10 ^ Z.of_nat (String.length b) + dec_value b)%Z.
Proof.
  induction a as [| c r IH]; intros Ha Hb.
  - change (EmptyString ++ b) with b. cbn. lia.
  - cbn [all_chars] in Ha. apply andb_prop in Ha as [Hc Hr].
    change (String c r ++ b) with (String c (r ++ b)).
    rewrite !dec_value_cons; try assumption.
    + rewrite IH by assumption. rewrite append_length, Nat2Z.inj_add, Z.pow_add_r by lia.
      ring.
    + rewrite all_chars_app, Hr, Hb. reflexivity.
Qed.

Lemma dec_value_zeros (n : nat) : dec_value (JsString.repeat "0" n) = 0%Z.
Proof.
  induction n as [| n IH]; [reflexivity |].
  change (JsString.repeat "0" (S n)) with (String "0" (JsString.repeat "0" n)).
  rewrite dec_value_cons by (reflexivity || apply all_chars_zeros).
  rewrite IH. change (Z.of_nat (code "0" - 48)) with 0%Z. lia.
Qed.

(** Reading stops at the first character that is no digit. *)
Lemma dec_prefix_stop (a : string) (c : ascii) (r : string) :
  all_chars is_digit a = true -> is_digit c = false ->
  forall acc, dec_prefix (a ++ String c r) acc = dec_prefix a acc.
Proof.
  intros Ha Hc. induction a as [| d a IH]; intros acc.
  - change (EmptyString ++ String c r) with (String c r).
    cbn [dec_prefix]. rewrite Hc. reflexivity.
  - cbn [all_chars] in Ha. apply andb_prop in Ha as [Hd Ha].
    change (String d a ++ String c r) with (String d (a ++ String c r)).
    cbn [dec_prefix]. rewrite Hd. apply IH. exact Ha.
Qed.

(** ** The digits of the Standard Library *)

Lemma string_of_uint_digits (d : Decimal.uint) :
  all_chars is_digit (NilEmpty.string_of_uint d) = true.
Proof.
  induction d; cbn [NilEmpty.string_of_uint all_chars]; try reflexivity; exact IHd.
Qed.

Lemma string_of_uint_length (d : Decimal.uint) :
  Z.of_nat (String.length (NilEmpty.string_of_uint d))
  = Z.of_N (DecimalPos.Unsigned.usize d).
Proof.
  induction d; cbn [NilEmpty.string_of_uint String.length DecimalPos.Unsigned.usize];
    try reflexivity; rewrite Nat2Z.inj_succ, IHd, N2Z.inj_succ; reflexivity.
Qed.

Lemma of_uint_acc_value (l : Decimal.uint) (acc : positive) :
  Z.pos (Pos.of_uint_acc l acc)
  = (Z.pos acc * 10 ^ Z.of_nat (String.length (NilEmpty.string_of_uint l))
     + Z.of_N (Pos.of_uint l))%Z.
Proof.
  change (Z.pos (Pos.of_uint_acc l acc)) with (Z.of_N (N.pos (Pos.of_uint_acc l acc))).
  rewrite DecimalPos.Unsigned.of_uint_acc_rev, DecimalPos.Unsigned.of_uint_alt.
  rewrite string_of_uint_length, N2Z.inj_add, N2Z.inj_mul, N2Z.inj_pow.
  change (Z.of_N (N.pos acc)) with (Z.pos acc). change (Z.of_N 10) with 10%Z. ring.
Qed.

Lemma dec_value_uint (d : Decimal.uint) :
  dec_value (NilEmpty.string_of_uint d) = Z.of_N (N.of_uint d).
Proof.
  unfold N.of_uint.
  induction d; cbn [NilEmpty.string_of_uint Pos.of_uint]; [reflexivity | ..];
    rewrite dec_value_cons by (reflexivity || apply string_of_uint_digits);
    rewrite IHd;
    [ change (Z.of_nat (code "0" - 48)) with 0%Z; lia
    | change (Z.of_N (N.pos ?p)) with (Z.pos p); rewrite of_uint_acc_value; reflexivity .. ].
Qed.

Lemma decimal_N_digits (n : N) : all_chars is_digit (decimal_N n) = true.
Proof. apply string_of_uint_digits. Qed.

Lemma decimal_N_value (n : N) : dec_value (decimal_N n) = Z.of_N n.
Proof. unfold decimal_N. rewrite dec_value_uint, DecimalN.Unsigned.of_to. reflexivity. Qed.

Lemma decimal_N_nonempty (n : N) : decimal_N n <> EmptyString.
Proof.
  unfold decimal_N. destruct n as [| p]; [discriminate |].
  cbn [N.to_uint]. pose proof (DecimalPos.Unsigned.to_uint_nonnil p) as Hnil.
  destruct (Pos.to_uint p); try discriminate. congruence.
Qed.

(** A digit string is canonical when it is not empty and has no leading
    zero, unless it is ["0"]. *)
Lemma uint_of_digits (s : string) :
  all_chars is_digit s = true -> exists d, NilEmpty.string_of_uint d = s.
Proof.
  induction s as [| c r IH]; intros Hd; [exists Decimal.Nil; reflexivity |].
  cbn [all_chars] in Hd. apply andb_prop in Hd as [Hc Hr].
  destruct (IH Hr) as [d <-].
  destruct c as [[] [] [] [] [] [] [] []]; vm_compute in Hc; try discriminate Hc;
    first [ exists (Decimal.D0 d); reflexivity | exists (Decimal.D1 d); reflexivity
          | exists (Decimal.D2 d); reflexivity | exists (Decimal.D3 d); reflexivity
          | exists (Decimal.D4 d); reflexivity | exists (Decimal.D5 d); reflexivity
          | exists (Decimal.D6 d); reflexivity | exists (Decimal.D7 d); reflexivity
          | exists (Decimal.D8 d); reflexivity | exists (Decimal.D9 d); reflexivity ].
Qed.

Lemma decimal_N_of_canonical (s : string) :
  all_chars is_digit s = true ->
  s <> EmptyString ->
  (forall r, s = String "0" r -> r = EmptyString) ->
  decimal_N (Z.to_N (dec_value s)) = s.
Proof.
  intros Hd Hne Hzero. destruct (uint_of_digits s Hd) as [d <-].
  rewrite dec_value_uint, N2Z.id. unfold decimal_N.
  rewrite DecimalN.Unsigned.to_of.
  destruct d; try reflexivity; [exfalso; apply Hne; reflexivity |].
  cbn [NilEmpty.string_of_uint] in Hzero.
  assert (Hnil : d = Decimal.Nil).
  { specialize (Hzero _ eq_refl). destruct d; try discriminate Hzero. reflexivity. }
  subst d. reflexivity.
Qed.

Lemma decimal_N_canonical (n : N) (r : string) :
  decimal_N n = String "0" r -> r = EmptyString.
Proof.
  unfold decimal_N.
  assert (Hnorm : Decimal.unorm (N.to_uint n) = N.to_uint n).
  { rewrite <- (DecimalN.Unsigned.of_to n) at 2. symmetry.
    apply DecimalN.Unsigned.to_of. }
  destruct (N.to_uint n) as [| d | d | d | d | d | d | d | d | d | d];
    cbn [NilEmpty.string_of_uint]; try discriminate.
  intros [= <-].
  destruct d; try reflexivity; exfalso.
  all: rewrite DecimalFacts.unorm_D0 in Hnorm.
  all: match type of Hnorm with
       | Decimal.unorm ?l = _ =>
           pose proof (DecimalFacts.nb_digits_unorm l ltac:(discriminate)) as Hle;
           rewrite Hnorm in Hle; cbn [Decimal.nb_digits] in Hle; lia
       end.
Qed.

(** Zeros in front bring the digits of a value back to a given width. *)
Lemma padStart_decimal (b : string) :
  all_chars is_digit b = true -> b <> EmptyString ->
  padStart (String.length b) "0" (decimal_N (Z.to_N (dec_value b))) = b.
Proof.
  induction b as [| c r IH]; intros Hd Hne; [congruence |].
  cbn [all_chars] in Hd. apply andb_prop in Hd as [Hc Hr].
  destruct (Ascii.eqb_spec c "0") as [-> | Hnz].
  - destruct r as [| c' r']; [reflexivity |].
    specialize (IH Hr ltac:(discriminate)).
    rewrite dec_value_cons by assumption.
    change (Z.of_nat (code "0" - 48)) with 0%Z. rewrite Z.mul_0_l, Z.add_0_l.
    set (x := decimal_N (Z.to_N (dec_value (String c' r')))) in *.
    assert (Hlen : (String.length x <= String.length (String c' r'))%nat).
    { apply (f_equal String.length) in IH. unfold padStart in IH.
      rewrite append_length, repeat_length in IH. lia. }
    unfold padStart in *.
    replace (String.length (String "0" (String c' r')) - String.length x)%nat
      with (S (String.length (String c' r') - String.length x))
      by (cbn [String.length] in *; lia).
    change (JsString.repeat "0" (S ?n) ++ ?y) with (String "0" (JsString.repeat "0" n ++ y)).
    rewrite IH. reflexivity.
  - rewrite decimal_N_of_canonical.
    + unfold padStart. rewrite Nat.sub_diag. reflexivity.
    + cbn [all_chars]. rewrite Hc, Hr. reflexivity.
    + discriminate.
    + intros r' [= -> _]. congruence.
Qed.

(** A canonical digit string of [k + 1] digits spells at least [10^k]. *)
Lemma decimal_N_length_bound (n : N) (k : nat) :
  (Z.of_N n < 10 ^ Z.of_nat k)%Z -> (0 < k)%nat ->
  (String.length (decimal_N n) <= k)%nat.
Proof.
  intros Hlt Hk.
  pose proof (decimal_N_value n) as Hval.
  pose proof (decimal_N_digits n) as Hd.
  pose proof (decimal_N_canonical n) as Hcanon.
  destruct (decimal_N n) as [| c r] eqn:Hs; [cbn; lia |].
  cbn [all_chars] in Hd. apply andb_prop in Hd as [Hc Hr].
  destruct (le_lt_dec (String.length (String c r)) k) as [Hle | Hgt]; [exact Hle |].
  exfalso. cbn [String.length] in Hgt.
  assert (Hr1 : r <> EmptyString) by (destruct r; [cbn in Hgt; lia | discriminate]).
  assert (Hc0 : c <> "0"%char) by (intros ->; apply Hr1, Hcanon; reflexivity).
  rewrite dec_value_cons in Hval by assumption.
  destruct (digit_char c Hc) as [Hrange _].
  assert (Hpos : (1 <= Z.of_nat (code c - 48))%Z).
  { destruct (Z.eq_dec (Z.of_nat (code c - 48)) 0) as [Hz | Hnz]; [| lia].
    exfalso. apply Hc0.
    destruct c as [[] [] [] [] [] [] [] []]; vm_compute in Hc; try discriminate Hc;
      vm_compute in Hz; try discriminate Hz. reflexivity. }
  pose proof (dec_value_bounds r Hr) as Hb.
  assert (Hmono : (10 ^ Z.of_nat k <= 10 ^ Z.of_nat (String.length r))%Z)
    by (apply Z.pow_le_mono_r; lia).
  nia.
Qed.

End DigitFacts.

Module AmountFacts.
Import JsNumber JsString JsValue Wallet Amounts StringFacts HostFacts DigitFacts.
Open Scope string_scope.

(** ** [substr], [split] and [parseInt] on the strings at hand *)

Lemma substring_0_0 (s : string) : substring 0 0 s = EmptyString.
Proof. destruct s; reflexivity. Qed.

Lemma substr_tail_short (s : string) :
  (String.length s <= 6)%nat -> substr (-6) 6 s = s.
Proof.
  intros Hlen. unfold substr. cbn [Z.ltb Z.compare].
  replace (Z.max (Z.of_nat (String.length s) + -6) 0) with 0%Z by lia.
  replace (Z.min (Z.max 6 0) (Z.of_nat (String.length s)))
    with (Z.of_nat (String.length s)) by lia.
  replace (Z.min (0 + Z.of_nat (String.length s)) (Z.of_nat (String.length s)) - 0)%Z
    with (Z.of_nat (String.length s)) by lia.
  rewrite Nat2Z.id. apply substring_all.
Qed.

Lemma substr_head_short (s : string) :
  (String.length s <= 6)%nat ->
  substr 0 (Z.of_nat (String.length s) - 6) s = EmptyString.
Proof.
  intros Hlen. unfold substr. cbn [Z.ltb Z.compare].
  replace (Z.min 0 (Z.of_nat (String.length s))) with 0%Z by lia.
  replace (Z.max (Z.of_nat (String.length s) - 6) 0) with 0%Z by lia.
  replace (Z.min 0 (Z.of_nat (String.length s))) with 0%Z by lia.
  replace (Z.min (0 + 0) (Z.of_nat (String.length s)) - 0)%Z with 0%Z by lia.
  apply substring_0_0.
Qed.

Lemma substr_tail_long (a b : string) :
  String.length b = 6%nat -> substr (-6) 6 (a ++ b) = b.
Proof.
  intros Hb. unfold substr. cbn [Z.ltb Z.compare].
  rewrite append_length, Hb.
  replace (Z.max (Z.of_nat (String.length a + 6) + -6) 0)
    with (Z.of_nat (String.length a)) by lia.
  replace (Z.min (Z.max 6 0) (Z.of_nat (String.length a + 6))) with 6%Z by lia.
  replace (Z.min (Z.of_nat (String.length a) + 6) (Z.of_nat (String.length a + 6))
           - Z.of_nat (String.length a))%Z with 6%Z by lia.
  rewrite Nat2Z.id. change (Z.to_nat 6) with 6%nat.
  rewrite <- (Nat.add_0_r (String.length a)), substring_append_skip.
  rewrite <- Hb. apply substring_all.
Qed.

Lemma substr_head_long (a b : string) :
  String.length b = 6%nat ->
  substr 0 (Z.of_nat (String.length (a ++ b)) - 6) (a ++ b) = a.
Proof.
  intros Hb. unfold substr. cbn [Z.ltb Z.compare].
  rewrite append_length, Hb.
  replace (Z.min 0 (Z.of_nat (String.length a + 6))) with 0%Z by lia.
  replace (Z.min (Z.max (Z.of_nat (String.length a + 6) - 6) 0)
                 (Z.of_nat (String.length a + 6)))
    with (Z.of_nat (String.length a)) by lia.
  replace (Z.min (0 + Z.of_nat (String.length a)) (Z.of_nat (String.length a + 6)) - 0)%Z
    with (Z.of_nat (String.length a)) by lia.
  rewrite Nat2Z.id. apply substring_append_left.
Qed.

Lemma string_cut (n : nat) :
  forall s, (n <= String.length s)%nat ->
            exists a b, s = a ++ b /\ String.length a = n.
Proof.
  induction n as [| n IH]; intros s Hlen.
  - exists EmptyString, s. split; reflexivity.
  - destruct s as [| c s]; [cbn in Hlen; lia |].
    destruct (IH s ltac:(cbn in Hlen; lia)) as (a & b & -> & Ha).
    exists (String c a), b. split; [reflexivity | cbn; rewrite Ha; reflexivity].
Qed.

Lemma split_dotless (s : string) :
  all_chars (fun c => negb (Ascii.eqb c ".")) s = true -> split "." s = [s].
Proof.
  induction s as [| c r IH]; [reflexivity |].
  cbn [all_chars]. intros [Hc Hr]%andb_prop. apply negb_true_iff in Hc.
  cbn [split]. rewrite Hc, (IH Hr). reflexivity.
Qed.

Lemma split_at_dot (w x : string) :
  all_chars (fun c => negb (Ascii.eqb c ".")) w = true ->
  split "." (w ++ String "." x) = w :: split "." x.
Proof.
  induction w as [| c r IH].
  - intros _. reflexivity.
  - cbn [all_chars]. intros [Hc Hr]%andb_prop. apply negb_true_iff in Hc.
    change (String c r ++ String "." x) with (String c (r ++ String "." x)).
    cbn [split]. rewrite Hc, (IH Hr). reflexivity.
Qed.

Lemma digits_dotless (s : string) :
  all_chars is_digit s = true ->
  all_chars (fun c => negb (Ascii.eqb c ".")) s = true.
Proof.
  induction s as [| c r IH]; [reflexivity |].
  cbn [all_chars]. intros [Hc Hr]%andb_prop.
  destruct (digit_char c Hc) as (_ & _ & _ & _ & _ & _ & Hdot).
  rewrite Hdot, (IH Hr). reflexivity.
Qed.

(** [parseInt] on a string that starts with digits. *)
Lemma parseInt_head (c : ascii) (r : string) :
  is_digit c = true ->
  match r with
  | String c2 _ => (Ascii.eqb c2 "x" || Ascii.eqb c2 "X") = false
  | EmptyString => True
  end ->
  parseInt (String c r)
  = match dec_prefix (String c r) None with
    | None => NaN
    | Some 0%Z => S754_zero false
    | Some v => of_Z v
    end.
Proof.
  intros Hc Hx. destruct (digit_char c Hc) as (_ & Hsp & Hm & Hp & _ & _ & _).
  unfold parseInt. cbn [skip_spaces]. rewrite Hsp, Hm, Hp. cbn [orb].
  destruct r as [| c2 r'].
  - reflexivity.
  - rewrite Hx, andb_false_r. reflexivity.
Qed.

Lemma parseInt_digits (s : string) :
  all_chars is_digit s = true -> s <> EmptyString ->
  parseInt s = of_Z (dec_value s).
Proof.
  intros Hd Hne. destruct s as [| c r]; [congruence |].
  pose proof Hd as Hd'. cbn [all_chars] in Hd'. apply andb_prop in Hd' as [Hc Hr].
  rewrite parseInt_head; [| exact Hc |].
  - rewrite dec_prefix_some by (assumption || discriminate).
    destruct (dec_value (String c r)); reflexivity.
  - destruct r as [| c2 r']; [exact I |].
    cbn [all_chars] in Hr. apply andb_prop in Hr as [Hc2 _].
    destruct (digit_char c2 Hc2) as (_ & _ & _ & _ & Hx & HX & _).
    rewrite Hx, HX. reflexivity.
Qed.

Lemma parseInt_minus (s : string) :
  all_chars is_digit s = true -> s <> EmptyString -> dec_value s <> 0%Z ->
  parseInt (String "-" s) = of_Z (- dec_value s).
Proof.
  intros Hd Hne Hnz. destruct s as [| c r]; [congruence |].
  pose proof Hd as Hd'. cbn [all_chars] in Hd'. apply andb_prop in Hd' as [Hc Hr].
  unfold parseInt.
  replace (skip_spaces (String "-" (String c r))) with (String "-" (String c r))
    by reflexivity.
  cbv zeta. replace (Ascii.eqb "-" "-") with true by reflexivity. cbn [orb].
  assert (Hhex : match String c r with
                 | String c1 (String c2 _) =>
                     Ascii.eqb c1 "0" && (Ascii.eqb c2 "x" || Ascii.eqb c2 "X")
                 | _ => false
                 end = false).
  { destruct r as [| c2 r']; [reflexivity |].
    cbn [all_chars] in Hr. apply andb_prop in Hr as [Hc2 _].
    destruct (digit_char c2 Hc2) as (_ & _ & _ & _ & Hx & HX & _).
    rewrite Hx, HX, andb_false_r. reflexivity. }
  rewrite Hhex. rewrite dec_prefix_some by (assumption || discriminate).
  destruct (dec_value (String c r)); [congruence | reflexivity | reflexivity].
Qed.

Lemma append_assoc (a b c : string) : (a ++ b) ++ c = a ++ (b ++ c).
Proof.
  induction a as [| ch a IH]; [reflexivity |].
  change (String ch a ++ b) with (String ch (a ++ b)).
  change (String ch (a ++ b) ++ c) with (String ch ((a ++ b) ++ c)).
  rewrite IH. reflexivity.
Qed.

Lemma padEnd_length (f : string) :
  String.length (padEnd 6 "0" f) = Nat.max 6 (String.length f).
Proof. unfold padEnd. rewrite append_length, repeat_length. lia. Qed.

Lemma padEnd_digits (f : string) :
  all_chars is_digit f = true -> all_chars is_digit (padEnd 6 "0" f) = true.
Proof.
  intros Hf. unfold padEnd. rewrite all_chars_app, Hf, all_chars_zeros. reflexivity.
Qed.

Lemma padEnd_value (f : string) :
  all_chars is_digit f = true ->
  dec_value (padEnd 6 "0" f) = (dec_value f * 10 ^ Z.of_nat (6 - String.length f))%Z.
Proof.
  intros Hf. unfold padEnd.
  rewrite dec_value_app by (assumption || apply all_chars_zeros).
  rewrite repeat_length, dec_value_zeros. lia.
Qed.

(** The two parts [xeStringFromMicroXe] cuts a canonical digit string
    into. *)
Lemma xe_parts (s : string) :
  all_chars is_digit s = true ->
  s <> EmptyString ->
  (forall r, s = String "0" r -> r = EmptyString) ->
  (let w := substr 0 (Z.of_nat (String.length s) - 6) s in
   if String.eqb w EmptyString then "0" else w)
  = decimal_N (Z.to_N (dec_value s / 10 ^ 6)) /\
  padStart 6 "0" (substr (-6) 6 s)
  = padStart 6 "0" (decimal_N (Z.to_N (dec_value s mod 10 ^ 6))).
Proof.
  intros Hd Hne Hcanon. cbv zeta.
  destruct (le_lt_dec (String.length s) 6) as [Hshort | Hlong].
  - rewrite substr_head_short, substr_tail_short by assumption.
    pose proof (dec_value_bounds s Hd) as Hb.
    assert (Hpow : (10 ^ Z.of_nat (String.length s) <= 10 ^ 6)%Z)
      by (apply Z.pow_le_mono_r; lia).
    rewrite Z.div_small, Z.mod_small by lia.
    rewrite decimal_N_of_canonical by assumption.
    split; reflexivity.
  - destruct (string_cut (String.length s - 6) s ltac:(lia)) as (a & b & -> & Ha).
    rewrite append_length in Ha, Hlong.
    assert (Hb : String.length b = 6%nat) by lia.
    rewrite all_chars_app in Hd. apply andb_prop in Hd as [Hda Hdb].
    rewrite substr_head_long, substr_tail_long by assumption.
    rewrite dec_value_app by assumption. rewrite Hb.
    change (Z.of_nat 6) with 6%Z.
    pose proof (dec_value_bounds b Hdb) as Hvb. rewrite Hb in Hvb.
    change (Z.of_nat 6) with 6%Z in Hvb.
    rewrite Z.div_add_l, Z.div_small, Z.add_0_r by lia.
    rewrite Z.add_comm, Z.mod_add, Z.mod_small by lia.
    assert (Hapos : (0 < String.length a)%nat) by lia.
    assert (Hane : a <> EmptyString) by (destruct a; [cbn in Hapos; lia | discriminate]).
    split.
    + destruct (String.eqb_spec a EmptyString) as [Hae | _]; [contradiction |].
      symmetry. apply decimal_N_of_canonical; try assumption.
      intros r ->. specialize (Hcanon _ eq_refl).
      destruct r; [reflexivity | discriminate].
    + transitivity b.
      * unfold padStart. rewrite Hb. reflexivity.
      * symmetry. rewrite <- Hb. apply padStart_decimal; [assumption |].
        intros ->. discriminate Hb.
Qed.

Section WithHost.
Context `{bi : Builtins} `{intl : Locale}.
Hypothesis Hprint : prints_integers.

Lemma prints_natural (n : Z) :
  (0 <= n < 2 ^ 53)%Z -> number_to_string (of_Z n) = decimal_N (Z.to_N n).
Proof.
  intros Hn. rewrite Hprint by lia.
  replace (n <? 0)%Z with false by (symmetry; apply Z.ltb_ge; lia). reflexivity.
Qed.

(** The text of a micro-XE amount that is an exact non-negative
    integer. *)
Lemma xeString_natural (n : Z) :
  (0 <= n < 2 ^ 53)%Z ->
  xeStringFromMicroXe (of_Z n) false
  = decimal_N (Z.to_N (n / 10 ^ 6)) ++ "."
    ++ padStart 6 "0" (decimal_N (Z.to_N (n mod 10 ^ 6))).
Proof.
  intros Hn. unfold xeStringFromMicroXe. rewrite prints_natural by assumption.
  destruct (xe_parts (decimal_N (Z.to_N n)) (decimal_N_digits _) (decimal_N_nonempty _)
                     (decimal_N_canonical _)) as [Hwhole Hfraction].
  cbv zeta in Hwhole. rewrite Hwhole, Hfraction.
  rewrite decimal_N_value, Z2N.id by lia. reflexivity.
Qed.

Lemma fraction_six (r : Z) :
  (0 <= r < 10 ^ 6)%Z ->
  String.length (padStart 6 "0" (decimal_N (Z.to_N r))) = 6%nat /\
  all_chars is_digit (padStart 6 "0" (decimal_N (Z.to_N r))) = true /\
  dec_value (padStart 6 "0" (decimal_N (Z.to_N r))) = r.
Proof.
  intros Hr.
  pose proof (decimal_N_length_bound (Z.to_N r) 6 ltac:(rewrite Z2N.id; lia) ltac:(lia))
    as Hlen.
  unfold padStart. split; [| split].
  - rewrite append_length, repeat_length. lia.
  - rewrite all_chars_app, all_chars_zeros, decimal_N_digits. reflexivity.
  - rewrite dec_value_app by (apply all_chars_zeros || apply decimal_N_digits).
    rewrite dec_value_zeros, decimal_N_value, Z2N.id by lia. lia.
Qed.

(** [toMicroXe] on digits, a dot and digits. *)
Lemma toMicroXe_text (w f : string) :
  all_chars is_digit w = true -> all_chars is_digit f = true ->
  toMicroXe (JStr (w ++ "." ++ f)) = Some (of_Z (dec_value (w ++ padEnd 6 "0" f))).
Proof.
  intros Hw Hf. unfold toMicroXe.
  change (w ++ "." ++ f) with (w ++ String "." f).
  rewrite split_at_dot by (apply digits_dotless, Hw).
  rewrite split_dotless by (apply digits_dotless, Hf).
  cbn [nth List.length Nat.ltb Nat.leb]. f_equal.
  apply parseInt_digits.
  - rewrite all_chars_app, Hw, padEnd_digits by assumption. reflexivity.
  - intros Hempty. apply (f_equal String.length) in Hempty.
    rewrite append_length, padEnd_length in Hempty. cbn in Hempty. lia.
Qed.

End WithHost.

(** X17: [xeStringFromMicroXe] on a non-negative integer amount of micro-XE
    a double holds exactly: the whole XE, a dot and the six digits of the
    remaining micro-XE; with [format], the whole part is handed to
    [toLocaleString] as the number it spells (wallet.js, lines
    109-115). *)
Theorem xeStringFromMicroXe_natural `{bi : Builtins} `{intl : Locale} (n : Z) :
  prints_integers ->
  (0 <= n < 2 ^ 53)%Z ->
  xeStringFromMicroXe (of_Z n) false
  = decimal_N (Z.to_N (n / 10 ^ 6)) ++ "."
    ++ padStart 6 "0" (decimal_N (Z.to_N (n mod 10 ^ 6))) /\
  xeStringFromMicroXe (of_Z n) true
  = toLocaleString_en_US (of_Z (n / 10 ^ 6)) ++ "."
    ++ padStart 6 "0" (decimal_N (Z.to_N (n mod 10 ^ 6))) /\
  String.length (padStart 6 "0" (decimal_N (Z.to_N (n mod 10 ^ 6)))) = 6%nat.
Proof.
  intros Hprint Hn.
  assert (Hq : (0 <= n / 10 ^ 6)%Z) by (apply Z.div_pos; lia).
  assert (Hr : (0 <= n mod 10 ^ 6 < 10 ^ 6)%Z) by (apply Z.mod_pos_bound; lia).
  split; [apply xeString_natural; assumption |]. split.
  - unfold xeStringFromMicroXe. rewrite prints_natural by assumption.
    destruct (xe_parts (decimal_N (Z.to_N n)) (decimal_N_digits _) (decimal_N_nonempty _)
                       (decimal_N_canonical _)) as [Hwhole Hfraction].
    cbv zeta in Hwhole. rewrite Hwhole, Hfraction.
    rewrite decimal_N_value, Z2N.id by lia.
    rewrite parseInt_digits by (apply decimal_N_digits || apply decimal_N_nonempty).
    rewrite decimal_N_value, Z2N.id by lia. reflexivity.
  - apply fraction_six, Hr.
Qed.

Lemma xeStringFromMicroXe_natural_witness :
  xeStringFromMicroXe (bi := Reference.ref_builtins) (intl := Samples.ref_locale)
    (of_Z 1234567891) false = "1234.567891" /\
  xeStringFromMicroXe (bi := Reference.ref_builtins) (intl := Samples.ref_locale)
    (of_Z 1234567891) true = "1,234.567891".
Proof.
  destruct (xeStringFromMicroXe_natural (bi := Reference.ref_builtins)
              (intl := Samples.ref_locale) 1234567891 reference_prints_integers
              ltac:(split; [discriminate | reflexivity])) as (Hplain & Hformat & _).
  split.
  - rewrite Hplain. vm_compute. reflexivity.
  - rewrite Hformat. vm_compute. reflexivity.
Defined.

(** X18: Printing then parsing gives the amount back: on every non-negative
    integer amount a double holds exactly,
    [toMicroXe(xeStringFromMicroXe(n, false))] is [n] (wallet.js, lines
    109-128). *)
Theorem toMicroXe_xeStringFromMicroXe `{bi : Builtins} `{intl : Locale} (n : Z) :
  prints_integers ->
  (0 <= n < 2 ^ 53)%Z ->
  toMicroXe (JStr (xeStringFromMicroXe (of_Z n) false)) = Some (of_Z n).
Proof.
  intros Hprint Hn.
  assert (Hr : (0 <= n mod 10 ^ 6 < 10 ^ 6)%Z) by (apply Z.mod_pos_bound; lia).
  assert (Hq : (0 <= n / 10 ^ 6)%Z) by (apply Z.div_pos; lia).
  destruct (fraction_six (n mod 10 ^ 6) Hr) as (Hlen & Hdigits & Hvalue).
  rewrite (xeString_natural Hprint) by assumption.
  rewrite toMicroXe_text by (apply decimal_N_digits || assumption).
  f_equal. f_equal.
  rewrite dec_value_app by (apply decimal_N_digits || apply padEnd_digits; assumption).
  rewrite padEnd_length, padEnd_value, Hlen, Hvalue, decimal_N_value by assumption.
  rewrite Z2N.id by lia. cbn [Nat.sub Nat.max Z.of_nat].
  change (Z.pos (Pos.of_succ_nat 5)) with 6%Z. rewrite Z.pow_0_r, Z.mul_1_r.
  rewrite Z.mul_comm. symmetry. apply Z.div_mod. discriminate.
Qed.

Lemma toMicroXe_xeStringFromMicroXe_witness :
  toMicroXe (bi := Reference.ref_builtins)
    (JStr (xeStringFromMicroXe (bi := Reference.ref_builtins) (intl := Samples.ref_locale)
             (of_Z 123456789) false))
  = Some (of_Z 123456789).
Proof.
  exact (toMicroXe_xeStringFromMicroXe (bi := Reference.ref_builtins)
           (intl := Samples.ref_locale) 123456789 reference_prints_integers
           ltac:(split; [discriminate | reflexivity])).
Defined.

(** X19: [toMicroXe] on digits, a dot and digits: the fraction is padded to
    six digits but never cut, so with more than six the result is the
    integer all the digits spell, not the amount in micro-XE (wallet.js,
    lines 122-128). *)
Theorem toMicroXe_decimal_text `{bi : Builtins} (w f : string) :
  all_chars is_digit w = true ->
  all_chars is_digit f = true ->
  toMicroXe (JStr (w ++ "." ++ f))
  = Some (of_Z (dec_value (w ++ f) * 10 ^ Z.of_nat (6 - String.length f))).
Proof.
  intros Hw Hf. rewrite toMicroXe_text by assumption. f_equal. f_equal.
  unfold padEnd. rewrite <- append_assoc.
  rewrite dec_value_app.
  - rewrite repeat_length, dec_value_zeros. lia.
  - rewrite all_chars_app, Hw, Hf. reflexivity.
  - apply all_chars_zeros.
Qed.

Lemma toMicroXe_decimal_text_witness :
  toMicroXe (bi := Reference.ref_builtins) (JStr "1.5") = Some (of_Z 1500000) /\
  toMicroXe (bi := Reference.ref_builtins) (JStr "1.1234567") = Some (of_Z 11234567).
Proof.
  split.
  - exact (toMicroXe_decimal_text (bi := Reference.ref_builtins) "1" "5" eq_refl eq_refl).
  - exact (toMicroXe_decimal_text (bi := Reference.ref_builtins) "1" "1234567"
             eq_refl eq_refl).
Defined.

(** X20: Only what stands before a second dot is read (wallet.js, lines
    124-126). *)
Theorem toMicroXe_second_dot `{bi : Builtins} (w f rest : string) :
  all_chars (fun c => negb (Ascii.eqb c ".")) w = true ->
  all_chars (fun c => negb (Ascii.eqb c ".")) f = true ->
  toMicroXe (JStr (w ++ "." ++ f ++ "." ++ rest)) = toMicroXe (JStr (w ++ "." ++ f)).
Proof.
  intros Hw Hf. unfold toMicroXe.
  change (w ++ "." ++ f ++ "." ++ rest) with (w ++ String "." (f ++ String "." rest)).
  change (w ++ "." ++ f) with (w ++ String "." f).
  rewrite (split_at_dot w (f ++ String "." rest) Hw), (split_at_dot f rest Hf).
  rewrite (split_at_dot w f Hw), (split_dotless f Hf).
  destruct (split "." rest); reflexivity.
Qed.

Lemma toMicroXe_second_dot_witness :
  toMicroXe (bi := Reference.ref_builtins) (JStr "1.2.3")
  = toMicroXe (bi := Reference.ref_builtins) (JStr "1.2").
Proof.
  exact (toMicroXe_second_dot (bi := Reference.ref_builtins) "1" "2" "3" eq_refl eq_refl).
Defined.

(** X21: A negative amount above -0.1 XE loses its place: the minus sign is
    printed inside the fraction, after a whole part of [0], and the text
    reads back as zero (wallet.js, lines 109-128). *)
Theorem xeStringFromMicroXe_small_negative `{bi : Builtins} `{intl : Locale} (n : Z) :
  prints_integers ->
  (- 10 ^ 5 < n < 0)%Z ->
  xeStringFromMicroXe (of_Z n) false
  = "0." ++ padStart 6 "0" ("-" ++ decimal_N (Z.to_N (- n))) /\
  toMicroXe (JStr (xeStringFromMicroXe (of_Z n) false)) = Some (of_Z 0).
Proof.
  intros Hprint Hn.
  assert (Hn' : (-100000 < n < 0)%Z) by exact Hn.
  assert (Hpow : (2 ^ 53 = 9007199254740992)%Z) by reflexivity.
  assert (Htext : number_to_string (of_Z n) = "-" ++ decimal_N (Z.to_N (- n))).
  { rewrite Hprint by lia.
    replace (n <? 0)%Z with true by (symmetry; apply Z.ltb_lt; lia). reflexivity. }
  set (digits := decimal_N (Z.to_N (- n))) in *.
  assert (Hdd : all_chars is_digit digits = true) by apply decimal_N_digits.
  assert (Hlen : (String.length digits <= 5)%nat).
  { apply decimal_N_length_bound; [| lia]. rewrite Z2N.id by lia.
    change (10 ^ Z.of_nat 5)%Z with 100000%Z. lia. }
  assert (Hminus : String.length ("-" ++ digits) = S (String.length digits))
    by reflexivity.
  assert (Hshort : (String.length ("-" ++ digits) <= 6)%nat) by lia.
  assert (Hshape : xeStringFromMicroXe (of_Z n) false
                   = "0." ++ padStart 6 "0" ("-" ++ digits)).
  { unfold xeStringFromMicroXe. rewrite Htext.
    rewrite substr_head_short, substr_tail_short by assumption. reflexivity. }
  split; [exact Hshape |]. rewrite Hshape.
  unfold toMicroXe, padStart.
  set (zeros := JsString.repeat "0" (6 - String.length ("-" ++ digits))).
  change ("0." ++ zeros ++ "-" ++ digits) with ("0" ++ String "." (zeros ++ "-" ++ digits)).
  rewrite split_at_dot by reflexivity.
  assert (Hdotless : all_chars (fun c => negb (Ascii.eqb c "."))
                               (zeros ++ "-" ++ digits) = true).
  { rewrite all_chars_app. unfold zeros.
    rewrite (digits_dotless _ (all_chars_zeros _)).
    change ("-" ++ digits) with (String "-" digits). cbn [all_chars].
    rewrite (digits_dotless _ Hdd). reflexivity. }
  rewrite split_dotless by assumption.
  cbn [nth List.length Nat.ltb Nat.leb]. f_equal.
  assert (Hsix : String.length (zeros ++ "-" ++ digits) = 6%nat).
  { rewrite append_length. unfold zeros. rewrite repeat_length. lia. }
  unfold padEnd. rewrite Hsix. cbn [Nat.sub JsString.repeat].
  assert (Hnil : forall x : string, x ++ EmptyString = x).
  { induction x as [| ch x IH]; [reflexivity |].
    change (String ch x ++ EmptyString) with (String ch (x ++ EmptyString)).
    rewrite IH. reflexivity. }
  rewrite Hnil.
  change ("0" ++ zeros ++ "-" ++ digits) with (String "0" (zeros ++ String "-" digits)).
  rewrite parseInt_head.
  - change (String "0" (zeros ++ String "-" digits))
      with (String "0" zeros ++ String "-" digits).
    rewrite dec_prefix_stop by (reflexivity || (cbn [all_chars]; apply all_chars_zeros)).
    rewrite dec_prefix_some by (discriminate || (cbn [all_chars]; apply all_chars_zeros)).
    change (String "0" zeros) with (JsString.repeat "0" (S (6 - String.length ("-" ++ digits)))).
    rewrite dec_value_zeros. reflexivity.
  - reflexivity.
  - unfold zeros. destruct (6 - String.length ("-" ++ digits))%nat; reflexivity.
Qed.

Lemma xeStringFromMicroXe_small_negative_witness :
  xeStringFromMicroXe (bi := Reference.ref_builtins) (intl := Samples.ref_locale)
    (of_Z (-5)) false = "0.0000-5" /\
  toMicroXe (bi := Reference.ref_builtins) (JStr "0.0000-5") = Some (of_Z 0).
Proof.
  destruct (xeStringFromMicroXe_small_negative (bi := Reference.ref_builtins)
              (intl := Samples.ref_locale) (-5) reference_prints_integers
              ltac:(split; reflexivity)) as (Hshape & Hback).
  assert (Htext : xeStringFromMicroXe (bi := Reference.ref_builtins)
                    (intl := Samples.ref_locale) (of_Z (-5)) false = "0.0000-5")
    by (rewrite Hshape; vm_compute; reflexivity).
  split; [exact Htext |]. rewrite <- Htext. exact Hback.
Defined.

(** X22: [formatXe] brings digits, a dot and at most six digits to the
    canonical text of the amount: the whole part without leading zeros
    ([0] when there is none) and the fraction padded to six digits
    (wallet.js, lines 136-139). *)
Theorem formatXe_normalises `{bi : Builtins} `{intl : Locale} (w f : string) :
  prints_integers ->
  all_chars is_digit w = true ->
  all_chars is_digit f = true ->
  (String.length f <= 6)%nat ->
  (dec_value (w ++ padEnd 6 "0" f) < 2 ^ 53)%Z ->
  formatXe (JStr (w ++ "." ++ f)) false
  = Some (decimal_N (Z.to_N (dec_value w)) ++ "." ++ padEnd 6 "0" f).
Proof.
  intros Hprint Hw Hf Hlen Hsafe. unfold formatXe.
  rewrite toMicroXe_text by assumption.
  pose proof (padEnd_digits f Hf) as Hpd.
  pose proof (padEnd_length f) as Hpl.
  replace (Nat.max 6 (String.length f)) with 6%nat in Hpl by lia.
  assert (Hall : all_chars is_digit (w ++ padEnd 6 "0" f) = true)
    by (rewrite all_chars_app, Hw, Hpd; reflexivity).
  pose proof (dec_value_bounds _ Hall) as [Hnonneg _].
  rewrite (xeString_natural Hprint) by lia.
  rewrite dec_value_app in * by assumption.
  rewrite Hpl in *. change (Z.of_nat 6) with 6%Z in *.
  pose proof (dec_value_bounds _ Hpd) as Hfb. rewrite Hpl in Hfb.
  change (Z.of_nat 6) with 6%Z in Hfb.
  pose proof (dec_value_bounds _ Hw) as [Hwn _].
  rewrite Z.div_add_l, Z.div_small, Z.add_0_r by lia.
  rewrite Z.add_comm, Z.mod_add, Z.mod_small by lia.
  f_equal. f_equal. f_equal.
  rewrite <- Hpl at 1. apply padStart_decimal; [assumption |].
  intros Hempty. rewrite Hempty in Hpl. discriminate Hpl.
Qed.

Lemma formatXe_normalises_witness :
  formatXe (bi := Reference.ref_builtins) (intl := Samples.ref_locale) (JStr "007.5") false
  = Some "7.500000".
Proof.
  change "007.5" with ("007" ++ "." ++ "5").
  rewrite (formatXe_normalises (bi := Reference.ref_builtins) (intl := Samples.ref_locale)
             "007" "5" reference_prints_integers eq_refl eq_refl
             ltac:(vm_compute; lia) ltac:(vm_compute; reflexivity)).
  vm_compute. reflexivity.
Defined.

(** X24: whole amounts: for a string of decimal digits [w] without a
    dot (the empty string included) [toMicroXe(w)] is the number nearest
    to the integer [w] spells times [10^6], and on a host that prints
    integers as digits [toMicroXe(n)] is [n * 10^6] for every integer
    number [n], negative ones included (wallet.js, lines 122-128). *)
Theorem toMicroXe_whole `{bi : Builtins} (w : string) (n : Z) :
  all_chars is_digit w = true ->
  prints_integers ->
  (- 2 ^ 53 < n < 2 ^ 53)%Z ->
  toMicroXe (JStr w) = Some (of_Z (dec_value w * 10 ^ 6)) /\
  toMicroXe (JNum (of_Z n)) = Some (of_Z (n * 10 ^ 6)).
Proof.
  assert (Hdigits : forall s, all_chars is_digit s = true ->
                              toMicroXe (JStr s) = Some (of_Z (dec_value s * 10 ^ 6))).
  { intros s Hs. unfold toMicroXe.
    rewrite split_dotless by (apply digits_dotless, Hs).
    cbn [nth List.length Nat.ltb Nat.leb]. f_equal.
    rewrite parseInt_digits.
    - rewrite dec_value_app by (assumption || reflexivity). f_equal.
      change (dec_value "000000") with 0%Z.
      change (Z.of_nat (String.length "000000")) with 6%Z. lia.
    - rewrite all_chars_app, Hs. reflexivity.
    - intros Hempty. apply (f_equal String.length) in Hempty.
      rewrite append_length in Hempty. cbn in Hempty. lia. }
  intros Hw Hprint Hn. split; [apply Hdigits, Hw |].
  destruct (Z.ltb_spec n 0) as [Hneg | Hpos].
  - unfold toMicroXe. rewrite Hprint by assumption.
    replace (n <? 0)%Z with true by (symmetry; apply Z.ltb_lt; lia).
    set (digits := decimal_N (Z.to_N (- n))).
    assert (Hdd : all_chars is_digit digits = true) by apply decimal_N_digits.
    assert (Hdv : dec_value digits = (- n)%Z)
      by (unfold digits; rewrite decimal_N_value, Z2N.id by lia; reflexivity).
    change ("-" ++ digits) with (String "-" digits).
    assert (Hsplit : split "." (String "-" digits) = [String "-" digits]).
    { apply split_dotless. cbn [all_chars].
      rewrite (digits_dotless _ Hdd). reflexivity. }
    rewrite Hsplit. cbn [nth List.length Nat.ltb Nat.leb]. f_equal.
    change (String "-" digits ++ "000000") with (String "-" (digits ++ "000000")).
    rewrite parseInt_minus.
    + rewrite dec_value_app, Hdv by (assumption || reflexivity). f_equal.
      change (dec_value "000000") with 0%Z. change (Z.of_nat (String.length "000000")) with 6%Z.
      lia.
    + rewrite all_chars_app, Hdd. reflexivity.
    + intros Hempty. apply (f_equal String.length) in Hempty.
      rewrite append_length in Hempty. cbn in Hempty. lia.
    + rewrite dec_value_app, Hdv by (assumption || reflexivity).
      change (dec_value "000000") with 0%Z. change (Z.of_nat (String.length "000000")) with 6%Z.
      change (10 ^ 6)%Z with 1000000%Z. lia.
  - change (toMicroXe (JNum (of_Z n))) with (toMicroXe (JStr (number_to_string (of_Z n)))).
    rewrite Hprint by assumption.
    replace (n <? 0)%Z with false by (symmetry; apply Z.ltb_ge; lia).
    rewrite Hdigits by apply decimal_N_digits.
    rewrite decimal_N_value, Z2N.id by lia. reflexivity.
Qed.

Lemma toMicroXe_whole_witness :
  toMicroXe (bi := Reference.ref_builtins) (JStr EmptyString) = Some (of_Z 0) /\
  toMicroXe (bi := Reference.ref_builtins) (JNum (of_Z (-3))) = Some (of_Z (-3000000)).
Proof.
  exact (toMicroXe_whole (bi := Reference.ref_builtins) EmptyString (-3) eq_refl
           reference_prints_integers ltac:(split; reflexivity)).
Defined.

End AmountFacts.

(* ===================================================================== *)
(** * Proofs: the difficulty of any number *)
(* ===================================================================== *)

Module DifficultyRange.
Import JsNumber Difficulty DifficultyProofs.

(** ** Rounding never invents a NaN *)

Lemma shr_fexp_nonneg (m e : Z) (l : location) :
  0 <= m -> 0 <= shr_m (fst (shr_fexp prec emax m e l)).
Proof.
  intros Hm. unfold shr_fexp, shr.
  destruct (fexp prec emax (Zdigits2 m + e) - e) as [| p | p]; cbn [fst];
    rewrite ?iter_shr_1_m by (rewrite shr_record_of_loc_m; exact Hm);
    rewrite shr_record_of_loc_m; try exact Hm.
  apply Z.div_pos; [exact Hm | apply pow2_pos; lia].
Qed.

Lemma binary_round_aux_not_nan (sx : bool) (m e : Z) (l : location) :
  0 <= m -> is_nan (binary_round_aux prec emax sx m e l) = false.
Proof.
  intros Hm. unfold binary_round_aux.
  pose proof (shr_fexp_nonneg m e l Hm) as H1.
  destruct (shr_fexp prec emax m e l) as [mrs' e']. cbn [fst] in H1.
  pose proof (round_nearest_even_ge (shr_m mrs') (loc_of_shr_record mrs')) as Hr.
  pose proof (shr_fexp_nonneg (round_nearest_even (shr_m mrs') (loc_of_shr_record mrs'))
                              e' loc_Exact ltac:(lia)) as H2.
  destruct (shr_fexp prec emax (round_nearest_even (shr_m mrs') (loc_of_shr_record mrs'))
                     e' loc_Exact) as [mrs'' e'']. cbn [fst] in H2.
  destruct (shr_m mrs'') as [| p | p]; [reflexivity | | lia].
  destruct (e'' <=? emax - prec); reflexivity.
Qed.

Lemma binary_normalize_not_nan (m e : Z) (szero : bool) :
  is_nan (binary_normalize prec emax m e szero) = false.
Proof.
  destruct m as [| p | p]; cbn [binary_normalize]; [reflexivity | |];
    unfold binary_round;
    destruct (shl_align p e (fexp prec emax (Zpos (digits2_pos p) + e))) as [mz ez];
    apply binary_round_aux_not_nan; lia.
Qed.

Lemma mul_0_4_not_nan (x : number) :
  is_nan x = false -> is_nan (mul x lit_0_4) = false.
Proof.
  destruct x as [s | s | | s m e]; try discriminate; intros _; try reflexivity.
  unfold mul, lit_0_4. cbn [SFmul]. apply binary_round_aux_not_nan. lia.
Qed.

Lemma Math_floor_not_nan (y : number) :
  is_nan y = false -> is_nan (Math_floor y) = false.
Proof.
  destruct y as [s | s | | s m e]; try discriminate; intros _; try reflexivity.
  cbn [Math_floor]. destruct (0 <=? e); [reflexivity |].
  destruct (cond_Zopp s (Zpos m) / 2 ^ (- e)) as [| q | q] eqn:Hq; [reflexivity | |];
    apply binary_normalize_not_nan.
Qed.

Lemma add_2_not_nan (y : number) :
  is_nan y = false -> is_nan (add (of_Z 2) y) = false.
Proof.
  change (of_Z 2) with (S754_finite false 4503599627370496 (-51)).
  destruct y as [s | s | | s m e]; try discriminate; intros _; try reflexivity.
  unfold add. cbn [SFadd]. apply binary_normalize_not_nan.
Qed.

(** ** Comparisons *)

Lemma compare_defined (a b : number) :
  is_nan a = false -> is_nan b = false -> exists c, compare a b = Some c.
Proof.
  destruct a as [sa | sa | | sa ma ea]; try discriminate;
    destruct b as [sb | sb | | sb mb eb]; try discriminate; intros _ _;
    cbn [compare]; eauto.
Qed.

Lemma compare_flip (a b : number) (c : comparison) :
  compare a b = Some c -> compare b a = Some (CompOpp c).
Proof.
  destruct a as [sa | sa | | sa ma ea]; destruct b as [sb | sb | | sb mb eb];
    cbn [compare]; try discriminate;
    try (intros [= <-]; destruct sa; try destruct sb; reflexivity);
    try (intros [= <-]; destruct sb; reflexivity);
    intros [= <-]; rewrite Z.compare_antisym, (Z.min_comm (expo _) (expo _));
    reflexivity.
Qed.

Lemma Math_max_2_range (v : number) :
  is_nan v = false ->
  is_nan (Math_max v (of_Z 2)) = false /\
  geb (Math_max v (of_Z 2)) (of_Z 2) = true.
Proof.
  intros Hv. destruct (compare_defined v (of_Z 2) Hv eq_refl) as [c Hc].
  unfold Math_max. rewrite Hc. destruct c.
  - destruct (is_neg_zero v); [split; reflexivity |].
    split; [exact Hv |]. unfold geb. rewrite Hc. reflexivity.
  - split; reflexivity.
  - split; [exact Hv |]. unfold geb. rewrite Hc. reflexivity.
Qed.

Lemma Math_min_4_range (r : number) :
  is_nan r = false ->
  geb r (of_Z 2) = true ->
  geb (Math_min r (of_Z 4)) (of_Z 2) = true /\
  geb (of_Z 4) (Math_min r (of_Z 4)) = true.
Proof.
  intros Hr Hge. destruct (compare_defined r (of_Z 4) Hr eq_refl) as [c Hc].
  pose proof (compare_flip _ _ _ Hc) as Hflip.
  unfold Math_min. rewrite Hc. destruct c.
  - destruct (is_neg_zero r) eqn:Hz.
    + destruct r as [[] | | |]; try discriminate Hz. discriminate Hc.
    + split; reflexivity.
  - split; [exact Hge |]. unfold geb. rewrite Hflip. reflexivity.
  - split; reflexivity.
Qed.

(** X23: The difficulty of every number, whatever [calculateDifficulty] is
    called with: [NaN] for [NaN], and otherwise a number from 2 to 4,
    which is 4 for every number that is at least 5, [Infinity] included
    (identity.d.ts, lines 146-149). *)
Theorem calculateDifficulty_range (x : number) :
  (is_nan x = true -> calculateDifficulty x = NaN) /\
  (is_nan x = false ->
   geb (calculateDifficulty x) (of_Z 2) = true /\
   geb (of_Z 4) (calculateDifficulty x) = true) /\
  (at_least 5 x -> calculateDifficulty x = of_Z 4).
Proof.
  split; [| split].
  - destruct x; try discriminate. intros _. reflexivity.
  - intros Hx. unfold calculateDifficulty.
    pose proof (add_2_not_nan _ (Math_floor_not_nan _ (mul_0_4_not_nan x Hx))) as Hv.
    destruct (Math_max_2_range _ Hv) as [Hr Hge].
    apply Math_min_4_range; assumption.
  - intros Hx. unfold calculateDifficulty.
    apply clamp_at_least, add_2_at_least, Math_floor_at_least, mul_0_4_at_least, Hx.
Qed.

Lemma calculateDifficulty_range_witness :
  calculateDifficulty NaN = NaN /\
  geb (calculateDifficulty (of_Z (-7))) (of_Z 2) = true /\
  geb (of_Z 4) (calculateDifficulty (of_Z (-7))) = true /\
  calculateDifficulty Infinity = of_Z 4.
Proof.
  destruct (calculateDifficulty_range NaN) as (Hnan & _ & _).
  destruct (calculateDifficulty_range (of_Z (-7))) as (_ & Hrange & _).
  destruct (calculateDifficulty_range Infinity) as (_ & _ & Hfive).
  destruct (Hrange eq_refl) as [Hlow Hhigh].
  exact (conj (Hnan eq_refl) (conj Hlow (conj Hhigh (Hfive I)))).
Defined.

End DifficultyRange.
